(** * Oryx equipment-loss scraper: parsing and aggregation core

    A shallow embedding of the parsing and aggregation code of
    [src/oryx_wat_scraper/client.py] and [src/scraper.py]:

    - Python strings are lists of 8-bit characters, read as the code points
      U+0000..U+00FF; [str.lower], [str.strip], [in], [startswith] and [int]
      are given on that range;
    - the [re] module is a backtracking matcher over an abstract syntax of the
      patterns, with the priority order of Python's engine (greedy and lazy
      repetition, ordered alternation, capture groups, [re.IGNORECASE]);
    - dictionaries are association lists in insertion order, a missing key of
      a plain [dict] is the error [KeyError];
    - [self.current_date] is an explicit argument;
    - [Client] has what the functions return, [Exn] the same functions with
      the exceptions they raise on the way. *)

From Stdlib Require Import Ascii String List NArith Arith Lia Bool Permutation.
Import ListNotations.

Open Scope string_scope.
Open Scope list_scope.
Open Scope nat_scope.

(** ** Python strings *)

Definition str := list ascii.

Definition of_string (s : string) : str := list_ascii_of_string s.
Coercion of_string : string >-> str.

Definition code (c : ascii) : nat := nat_of_ascii c.

(** The double quote, written by its code. *)
Definition dquote : ascii := "034"%char.

(** [c.isspace()], which is also the class [\s] of a [str] pattern:
    TAB..CR, FS..US, SPACE, NEL and NBSP. *)
Definition isspace (c : ascii) : bool :=
  let n := code c in
  ((9 <=? n) && (n <=? 13)) || ((28 <=? n) && (n <=? 32))
  || (n =? 133) || (n =? 160).

(** The class [\d]: below U+0100 the decimal digits are 0..9. *)
Definition isdigit (c : ascii) : bool :=
  let n := code c in (48 <=? n) && (n <=? 57).

(** [c.lower()]: A..Z and the capital letters U+00C0..U+00DE (but the
    multiplication sign U+00D7) move up by 32. *)
Definition lower_char (c : ascii) : ascii :=
  let n := code c in
  if ((65 <=? n) && (n <=? 90))
     || ((192 <=? n) && (n <=? 222) && negb (n =? 215))
  then ascii_of_nat (n + 32) else c.

Definition lower (s : str) : str := map lower_char s.

Fixpoint str_eqb (a b : str) : bool :=
  match a, b with
  | [], [] => true
  | x :: a', y :: b' => Ascii.eqb x y && str_eqb a' b'
  | _, _ => false
  end.

(** [s.startswith(p)] *)
Fixpoint startswith (p s : str) : bool :=
  match p, s with
  | [], _ => true
  | x :: p', y :: s' => Ascii.eqb x y && startswith p' s'
  | _ :: _, [] => false
  end.

(** [sub in s] *)
Fixpoint contains (sub s : str) : bool :=
  startswith sub s ||
  match s with
  | [] => false
  | _ :: s' => contains sub s'
  end.

Fixpoint lstrip (s : str) : str :=
  match s with
  | x :: s' => if isspace x then lstrip s' else s
  | [] => []
  end.

Definition rstrip (s : str) : str := rev (lstrip (rev s)).

(** [s.strip()] *)
Definition strip (s : str) : str := rstrip (lstrip s).

(** The value of [int(s)] for a string of decimal digits, which is all the
    code passes (a capture of "\d+").  Python refuses a string of more
    digits than [sys.int_max_str_digits] with a [ValueError]: that is
    [Exn.int] below. *)
Definition digit_val (c : ascii) : N := N.of_nat (code c - 48).

Definition int_of (s : str) : N :=
  fold_left (fun acc c => (acc * 10 + digit_val c)%N) s 0%N.

(** Truth value of a string and of an optional string. *)
Definition truthy (s : str) : bool :=
  match s with [] => false | _ :: _ => true end.

Definition opt_truthy (o : option str) : bool :=
  match o with Some s => truthy s | None => false end.

(** [a or b] on an optional string and a string. *)
Definition str_or (o : option str) (d : str) : str :=
  match o with
  | Some (x :: s) => x :: s
  | _ => d
  end.

(** ** The [re] module *)

Module Re.

Inductive regex : Type :=
| Eps
| Bol                                  (* ^ *)
| Chr (p : ascii -> bool)              (* one character of a class *)
| Seq (r1 r2 : regex)
| Alt (r1 r2 : regex)                  (* r1|r2, r1 first *)
| Star (greedy : bool) (r : regex)     (* r* and r*? *)
| Group (i : nat) (r : regex).         (* the i-th capture group *)

(** Captures, the latest first. *)
Definition caps := list (nat * str).

Definition cont (A : Type) := str -> caps -> option A.

Section Matcher.
Context {A : Type}.

(** One repetition loop: [body] is the matcher of the repeated pattern and
    [k] what follows the repetition.  A repetition has to consume a
    character, so [S (length s)] rounds are enough and the fuel never
    runs out. *)
Fixpoint star_loop (greedy : bool)
    (body : str -> caps -> cont A -> option A) (k : cont A)
    (fuel : nat) (s : str) (c : caps) : option A :=
  match fuel with
  | 0 => None
  | S fuel' =>
      let again : cont A := fun s' c' =>
        if length s' <? length s
        then star_loop greedy body k fuel' s' c' else None in
      if greedy then
        match body s c again with
        | Some v => Some v
        | None => k s c
        end
      else
        match k s c with
        | Some v => Some v
        | None => body s c again
        end
  end.

(** [rmatch n0 r s c k]: match [r] at the head of [s], the rest of a
    subject of length [n0], then go on with [k]; the first success in the
    engine's priority order is the result. *)
Fixpoint rmatch (n0 : nat) (r : regex) (s : str) (c : caps) (k : cont A)
    : option A :=
  match r with
  | Eps => k s c
  | Bol => if length s =? n0 then k s c else None
  | Chr p =>
      match s with
      | x :: s' => if p x then k s' c else None
      | [] => None
      end
  | Seq r1 r2 => rmatch n0 r1 s c (fun s' c' => rmatch n0 r2 s' c' k)
  | Alt r1 r2 =>
      match rmatch n0 r1 s c k with
      | Some v => Some v
      | None => rmatch n0 r2 s c k
      end
  | Star g r' => star_loop g (rmatch n0 r') k (S (length s)) s c
  | Group i r' =>
      rmatch n0 r' s c
        (fun s' c' => k s' ((i, firstn (length s - length s') s) :: c'))
  end.
End Matcher.

(** The match object: the captures (group 0 is the whole match) and the
    text after the match. *)
Definition found : Type := caps * str.

Definition finish : cont found := fun s c => Some (c, s).

(** A match attempt at the head of [s]. *)
Definition match_at (n0 : nat) (r : regex) (s : str) : option found :=
  rmatch n0 (Group 0 r) s [] finish.

(** [re.match(r, s)] *)
Definition re_match (r : regex) (s : str) : option caps :=
  option_map fst (match_at (length s) r s).

Fixpoint search_from (n0 : nat) (r : regex) (s : str) : option caps :=
  match match_at n0 r s with
  | Some m => Some (fst m)
  | None =>
      match s with
      | [] => None
      | _ :: s' => search_from n0 r s'
      end
  end.

(** [re.search(r, s)] *)
Definition re_search (r : regex) (s : str) : option caps :=
  search_from (length s) r s.

(** [re.finditer(r, s)] for a pattern that matches no empty string (every
    pattern scanned with it here starts with a literal or is [\d+]): the
    scan resumes where the last match ended. *)
Fixpoint finditer_from (fuel n0 : nat) (r : regex) (s : str) : list caps :=
  match fuel with
  | 0 => []
  | S fuel' =>
      match match_at n0 r s with
      | Some (c, s') =>
          if length s' <? length s
          then c :: finditer_from fuel' n0 r s'
          else [c]
      | None =>
          match s with
          | [] => []
          | _ :: t => finditer_from fuel' n0 r t
          end
      end
  end.

Definition finditer (r : regex) (s : str) : list caps :=
  finditer_from (S (length s)) (length s) r s.

(** [m.group(i)] *)
Fixpoint group (i : nat) (c : caps) : str :=
  match c with
  | [] => []
  | (j, v) :: c' => if j =? i then v else group i c'
  end.

(** [re.findall(r, s)] for a pattern without groups. *)
Definition findall (r : regex) (s : str) : list str :=
  map (group 0) (finditer r s).

(** *** Pattern syntax *)

Definition chr (x : ascii) : regex := Chr (Ascii.eqb x).

(** A literal character under [re.IGNORECASE]. *)
Definition chr_i (x : ascii) : regex :=
  Chr (fun c => Ascii.eqb (lower_char c) (lower_char x)).

Definition notc (x : ascii) : regex := Chr (fun c => negb (Ascii.eqb c x)).

(** [.] without [re.DOTALL] *)
Definition dot : regex := notc "010"%char.

Definition digit : regex := Chr isdigit.
Definition space : regex := Chr isspace.

Definition star (r : regex) : regex := Star true r.
Definition plus (r : regex) : regex := Seq r (Star true r).
Definition plus_lazy (r : regex) : regex := Seq r (Star false r).

Fixpoint lit_i (w : str) : regex :=
  match w with
  | [] => Eps
  | x :: w' => Seq (chr_i x) (lit_i w')
  end.

End Re.

Import Re.

Declare Scope regex_scope.
Delimit Scope regex_scope with re.
Bind Scope regex_scope with regex.
Infix ";;" := Seq (at level 61, right associativity) : regex_scope.

(** ** Data model ([models.py]; [scraper.py] declares the same dataclass) *)

Record EquipmentEntry : Type := mkEntry {
  country : str;
  equipment_type : str;
  status : str;   (* destroyed, captured, abandoned, damaged *)
  url : option str;
  date_recorded : option str
}.

(** [not entries] *)
Definition is_empty {A : Type} (l : list A) : bool :=
  match l with [] => true | _ :: _ => false end.

(** [for _ in range(n): entries.append(e)] *)
Definition append_times (n : nat) (e : EquipmentEntry)
    (entries : list EquipmentEntry) : list EquipmentEntry :=
  Nat.iter n (fun es => es ++ [e]) entries.

(** ** Dictionaries

    A [dict] keeps its keys in insertion order: an association list with at
    most one binding per key.  [get] is [d[k]], [None] standing for
    [KeyError]; [set] is [d[k] = v], which keeps the place of a key that is
    already there and puts a new one last. *)

Module Dict.
Section Dict.
Context {K V : Type} (eqb : K -> K -> bool).

Fixpoint get (k : K) (d : list (K * V)) : option V :=
  match d with
  | [] => None
  | (k', v) :: d' => if eqb k' k then Some v else get k d'
  end.

Fixpoint set (k : K) (v : V) (d : list (K * V)) : list (K * V) :=
  match d with
  | [] => [(k, v)]
  | (k', v') :: d' =>
      if eqb k' k then (k', v) :: d' else (k', v') :: set k v d'
  end.

Definition mem (k : K) (d : list (K * V)) : bool :=
  match get k d with Some _ => true | None => false end.

Definition values (d : list (K * V)) : list V := map snd d.
End Dict.
End Dict.

(** The value of [defaultdict(lambda: {...})] for a new key. *)
Definition default_counts : list (str * nat) :=
  [("destroyed" : str, 0); ("abandoned" : str, 0);
   ("captured" : str, 0); ("damaged" : str, 0)].

(** [grouped[key][status] += 1] on a [defaultdict] of count dictionaries:
    the lookup of [key] inserts the default, the inner dictionary is a plain
    one, so a status that is not one of its keys raises [KeyError]. *)
Definition bump {K : Type} (eqb : K -> K -> bool) (key : K) (status : str)
    (grouped : list (K * list (str * nat)))
    : option (list (K * list (str * nat))) :=
  let grouped :=
    if Dict.mem eqb key grouped then grouped
    else Dict.set eqb key default_counts grouped in
  match Dict.get eqb key grouped with
  | None => None
  | Some counts =>
      match Dict.get str_eqb status counts with
      | None => None
      | Some n =>
          Some (Dict.set eqb key (Dict.set str_eqb status (n + 1) counts)
                  grouped)
      end
  end.

(** [sum(counts.values())] *)
Definition sum_values (counts : list (str * nat)) : nat :=
  list_sum (Dict.values counts).

Definition key2_eqb (a b : str * str) : bool :=
  str_eqb (fst a) (fst b) && str_eqb (snd a) (snd b).

Definition key3_eqb (a b : str * str * str) : bool :=
  key2_eqb (fst a) (fst b) && str_eqb (snd a) (snd b).

(** A row of the daily-count table and a row of the totals-by-type table,
    the fields in the order of the dictionaries the code builds. *)
Record DailyRow : Type := mkDaily {
  d_country : str;
  d_equipment_type : str;
  d_destroyed : nat;
  d_abandoned : nat;
  d_captured : nat;
  d_damaged : nat;
  d_type_total : nat;
  d_date_recorded : str
}.

Record TotalsRow : Type := mkTotals {
  t_country : str;
  t_type : str;
  t_destroyed : nat;
  t_abandoned : nat;
  t_captured : nat;
  t_damaged : nat;
  t_total : nat
}.

(** A structural block of the document: what [element.get_text(strip=True)]
    and [str(element)] give for one element of
    [content.find_all(["p", "li", "div"])]. *)
Record block : Type := mkBlock {
  text : str;
  html_str : str
}.

(** The variables of the scanning loop. *)
Record scan_state : Type := mkState {
  entries : list EquipmentEntry;
  current_category : option str;
  in_country_section : bool
}.

(** What the loop body ends with: the next element ([continue] or the end of
    the body) or [break]. *)
Inductive control : Type :=
| Next (st : scan_state)
| Stop (st : scan_state).

(** ** [oryx_wat_scraper/client.py] *)

Module Client.

(** [(destroyed|captured|abandoned|damaged)] *)
Definition status_alt : regex :=
  Alt (lit_i "destroyed")
    (Alt (lit_i "captured") (Alt (lit_i "abandoned") (lit_i "damaged"))).

(** [r"^(\d+)\s+(.+?)\s*:"] *)
Definition item_pattern : regex :=
  (Bol ;; Group 1 (plus digit) ;; plus space ;; Group 2 (plus_lazy dot) ;;
   star space ;; chr ":")%re.

(** The link pattern, compiled with [re.IGNORECASE]: the literal [<a], then
    [[^>]*], then [href=] and a quoted run of characters other than the
    quote (group 1), then [[^>]*>], then the visible text
    "\((\d+),\s*(destroyed|captured|abandoned|damaged)\)" (groups 2 and 3)
    and the literal [</a>]. *)
Definition link_pattern : regex :=
  (lit_i "<a" ;; star (notc ">") ;; lit_i "href=" ;; chr dquote ;;
   Group 1 (star (notc dquote)) ;; chr dquote ;; star (notc ">") ;;
   chr ">" ;; chr "(" ;; Group 2 (plus digit) ;; chr "," ;; star space ;;
   Group 3 status_alt ;; chr ")" ;; lit_i "</a>")%re.

(** The status pattern, compiled with [re.IGNORECASE]: an opening
    parenthesis, group 1 made of "\d+" and any number of "\s*,\s*\d+" after
    it, then "\s*,\s*", group 2 (one of the four status words) and the
    closing parenthesis. *)
Definition status_pattern : regex :=
  (chr "(" ;;
   Group 1 (plus digit ;;
            star (star space ;; chr "," ;; star space ;; plus digit)) ;;
   star space ;; chr "," ;; star space ;; Group 2 status_alt ;; chr ")")%re.

(** [r"\d+"] *)
Definition number_pattern : regex := plus digit.

(** The body of the loop over the anchors, lines 110-123. *)
Definition link_entry (current_date country equipment_name : str)
    (link_match : caps) : EquipmentEntry :=
  let url := group 1 link_match in
  let entry_num := int_of (group 2 link_match) in
  let status := lower (group 3 link_match) in
  mkEntry (lower country) equipment_name status
    (if startswith "http" url then Some url else None)
    (Some current_date).

(** The markup tier, lines 105-123. *)
Definition markup_tier (current_date country equipment_name html_line : str)
    (entries : list EquipmentEntry) : list EquipmentEntry :=
  fold_left
    (fun es link_match =>
       es ++ [link_entry current_date country equipment_name link_match])
    (finditer link_pattern html_line) entries.

(** The body of the loop over the status groups, lines 133-149. *)
Definition status_entries (current_date country equipment_name : str)
    (status_match : caps) (entries : list EquipmentEntry)
    : list EquipmentEntry :=
  let numbers_str := group 1 status_match in
  let status := lower (group 2 status_match) in
  let numbers := findall number_pattern numbers_str in
  let count := length numbers in
  append_times count
    (mkEntry (lower country) equipment_name status None (Some current_date))
    entries.

(** The plain-text tier, lines 126-149. *)
Definition text_tier (current_date country equipment_name line : str)
    (entries : list EquipmentEntry) : list EquipmentEntry :=
  fold_left
    (fun es status_match =>
       status_entries current_date country equipment_name status_match es)
    (finditer status_pattern line) entries.

(** The fallback tier, lines 152-161. *)
Definition fallback_tier (current_date country equipment_name : str)
    (total_count : N) (entries : list EquipmentEntry) : list EquipmentEntry :=
  append_times (N.to_nat total_count)
    (mkEntry (lower country) equipment_name "destroyed" None
       (Some current_date))
    entries.

(** [parse_equipment_line], lines 94-163: the list the call returns.  The
    two calls of [int] may raise instead; [Exn.parse_equipment_line] has
    them. *)
Definition parse_equipment_line (current_date : str)
    (line country category : str) (html_line : option str)
    : list EquipmentEntry :=
  let entries := [] in
  match re_match item_pattern (strip line) with
  | None => entries
  | Some m =>
      let total_count := int_of (group 1 m) in
      let equipment_name := strip (group 2 m) in
      let entries :=
        match html_line with
        | Some (x :: h) =>
            markup_tier current_date country equipment_name (x :: h) entries
        | _ => entries
        end in
      let entries :=
        if is_empty entries
        then text_tier current_date country equipment_name line entries
        else entries in
      let entries :=
        if is_empty entries && (0 <? total_count)%N
        then fallback_tier current_date country equipment_name total_count
               entries
        else entries in
      entries
  end.

(** [r"^([^(]+?)\s*\((\d+)"], used with [re.search] *)
Definition category_pattern : regex :=
  (Bol ;; Group 1 (plus_lazy (notc "(")) ;; star space ;; chr "(" ;;
   Group 2 (plus digit))%re.

(** The section-header test, lines 198-200. *)
Definition is_section_header (country_lower text : str) : bool :=
  contains country_lower (lower text)
  && existsb (fun word : str => contains word (lower text))
       ["total" : str; "losses" : str].

(** The body of the loop over the elements, lines 191-224. *)
Definition scan_block (current_date country country_lower : str)
    (st : scan_state) (element : block) : control :=
  let text := text element in
  let html_str := html_str element in
  if negb (truthy text) then Next st
  else if is_section_header country_lower text then
    Next (mkState (entries st) (current_category st) true)
  else
    let leave :=
      if in_country_section st then
        if contains "ukraine" (lower text) && str_eqb country_lower "russia"
        then true
        else if contains "russia" (lower text)
                && str_eqb country_lower "ukraine"
        then true
        else false
      else false in
    if leave then Stop st
    else
      match re_search category_pattern text with
      | Some category_match =>
          Next (mkState (entries st)
                  (Some (strip (group 1 category_match)))
                  (in_country_section st))
      | None =>
          if in_country_section st && opt_truthy (current_category st) then
            match re_match item_pattern text, current_category st with
            | Some _, Some category =>
                let equipment_entries :=
                  parse_equipment_line current_date text country category
                    (Some html_str) in
                Next (mkState (entries st ++ equipment_entries)
                        (current_category st) (in_country_section st))
            | _, _ => Next st
            end
          else Next st
      end.

(** The loop itself: the state it ends in, and whether it ended by
    [break]. *)
Fixpoint scan_blocks (current_date country country_lower : str)
    (st : scan_state) (elements : list block) : scan_state * bool :=
  match elements with
  | [] => (st, false)
  | element :: rest =>
      match scan_block current_date country country_lower st element with
      | Next st' => scan_blocks current_date country country_lower st' rest
      | Stop st' => (st', true)
      end
  end.

(** [scrape_equipment_entries], from the loop on: [elements] is
    [content.find_all(["p", "li", "div"])] of the fetched page. *)
Definition scrape_equipment_entries (current_date : str)
    (elements : list block) (country : str) : list EquipmentEntry :=
  let st := mkState [] None false in
  let country_lower := lower country in
  entries (fst (scan_blocks current_date country country_lower st elements)).

(** The first loop of [generate_daily_count_csv], lines 235-241. *)
Definition daily_key (current_date : str) (entry : EquipmentEntry)
    : str * str * str :=
  (country entry, equipment_type entry,
   str_or (date_recorded entry) current_date).

Fixpoint group_daily (current_date : str) (es : list EquipmentEntry)
    (grouped : list (str * str * str * list (str * nat)))
    : option (list (str * str * str * list (str * nat))) :=
  match es with
  | [] => Some grouped
  | entry :: es' =>
      match bump key3_eqb (daily_key current_date entry) (status entry)
              grouped with
      | None => None
      | Some grouped' => group_daily current_date es' grouped'
      end
  end.

(** The body of the second loop, lines 245-257. *)
Definition daily_row (item : str * str * str * list (str * nat))
    : option DailyRow :=
  let '((country, eq_type, date), counts) := item in
  let total := sum_values counts in
  match Dict.get str_eqb "destroyed" counts,
        Dict.get str_eqb "abandoned" counts,
        Dict.get str_eqb "captured" counts,
        Dict.get str_eqb "damaged" counts with
  | Some destroyed, Some abandoned, Some captured, Some damaged =>
      Some (mkDaily country eq_type destroyed abandoned captured damaged
              total date)
  | _, _, _, _ => None
  end.

Fixpoint rows_of {I R : Type} (row : I -> option R) (items : list I)
    : option (list R) :=
  match items with
  | [] => Some []
  | item :: items' =>
      match row item with
      | None => None
      | Some r =>
          match rows_of row items' with
          | None => None
          | Some rs => Some (r :: rs)
          end
      end
  end.

(** [None] is the [KeyError] of an entry whose status is not a key of the
    count dictionary. *)
Definition generate_daily_count_csv (current_date : str)
    (es : list EquipmentEntry) : option (list DailyRow) :=
  match group_daily current_date es [] with
  | None => None
  | Some grouped => rows_of daily_row grouped
  end.

Definition totals_key (entry : EquipmentEntry) : str * str :=
  (country entry, equipment_type entry).

Fixpoint group_totals (es : list EquipmentEntry)
    (grouped : list (str * str * list (str * nat)))
    : option (list (str * str * list (str * nat))) :=
  match es with
  | [] => Some grouped
  | entry :: es' =>
      match bump key2_eqb (totals_key entry) (status entry) grouped with
      | None => None
      | Some grouped' => group_totals es' grouped'
      end
  end.

Definition totals_row (item : str * str * list (str * nat))
    : option TotalsRow :=
  let '((country, eq_type), counts) := item in
  let total := sum_values counts in
  match Dict.get str_eqb "destroyed" counts,
        Dict.get str_eqb "abandoned" counts,
        Dict.get str_eqb "captured" counts,
        Dict.get str_eqb "damaged" counts with
  | Some destroyed, Some abandoned, Some captured, Some damaged =>
      Some (mkTotals country eq_type destroyed abandoned captured damaged
              total)
  | _, _, _, _ => None
  end.

Definition generate_totals_by_type_csv (es : list EquipmentEntry)
    : option (list TotalsRow) :=
  match group_totals es [] with
  | None => None
  | Some grouped => rows_of totals_row grouped
  end.

End Client.

(** ** [scraper.py], the stand-alone copy *)

Module Scraper.

(** [r'^(\d+)\s+(.+?)\s*:'] *)
Definition item_pattern : regex :=
  (Bol ;; Group 1 (plus digit) ;; plus space ;; Group 2 (plus_lazy dot) ;;
   star space ;; chr ":")%re.

Definition status_alt : regex :=
  Alt (lit_i "destroyed")
    (Alt (lit_i "captured") (Alt (lit_i "abandoned") (lit_i "damaged"))).

(** The link pattern of line 122, with [re.IGNORECASE]. *)
Definition link_pattern : regex :=
  (lit_i "<a" ;; star (notc ">") ;; lit_i "href=" ;; chr dquote ;;
   Group 1 (star (notc dquote)) ;; chr dquote ;; star (notc ">") ;;
   chr ">" ;; chr "(" ;; Group 2 (plus digit) ;; chr "," ;; star space ;;
   Group 3 status_alt ;; chr ")" ;; lit_i "</a>")%re.

(** The status pattern of line 142, with [re.IGNORECASE]. *)
Definition status_pattern : regex :=
  (chr "(" ;;
   Group 1 (plus digit ;;
            star (star space ;; chr "," ;; star space ;; plus digit)) ;;
   star space ;; chr "," ;; star space ;; Group 2 status_alt ;; chr ")")%re.

Definition parse_equipment_line (current_date : str)
    (line country category : str) (html_line : option str)
    : list EquipmentEntry :=
  let entries := [] in
  match re_match item_pattern (strip line) with
  | None => entries
  | Some m =>
      let total_count := int_of (group 1 m) in
      let equipment_name := strip (group 2 m) in
      let entries :=
        match html_line with
        | Some (x :: h) =>
            fold_left
              (fun es link_match =>
                 let url := group 1 link_match in
                 let entry_num := int_of (group 2 link_match) in
                 let status := lower (group 3 link_match) in
                 es ++ [mkEntry (lower country) equipment_name status
                          (if startswith "http" url then Some url else None)
                          (Some current_date)])
              (finditer link_pattern (x :: h)) entries
        | _ => entries
        end in
      let entries :=
        if is_empty entries then
          fold_left
            (fun es status_match =>
               let numbers_str := group 1 status_match in
               let status := lower (group 2 status_match) in
               let numbers := findall (plus digit) numbers_str in
               let count := length numbers in
               append_times count
                 (mkEntry (lower country) equipment_name status None
                    (Some current_date)) es)
            (finditer status_pattern line) entries
        else entries in
      let entries :=
        if is_empty entries && (0 <? total_count)%N then
          append_times (N.to_nat total_count)
            (mkEntry (lower country) equipment_name "destroyed" None
               (Some current_date)) entries
        else entries in
      entries
  end.

(** Lines 285-311. *)
Definition generate_daily_count_csv (current_date : str)
    (es : list EquipmentEntry) : option (list DailyRow) :=
  let fix group (es : list EquipmentEntry)
        (grouped : list (str * str * str * list (str * nat))) :=
    match es with
    | [] => Some grouped
    | entry :: es' =>
        let key := (country entry, equipment_type entry,
                    str_or (date_recorded entry) current_date) in
        match bump key3_eqb key (status entry) grouped with
        | None => None
        | Some grouped' => group es' grouped'
        end
    end in
  let row (item : str * str * str * list (str * nat)) : option DailyRow :=
    let '((country, eq_type, date), counts) := item in
    let total := sum_values counts in
    match Dict.get str_eqb "destroyed" counts,
          Dict.get str_eqb "abandoned" counts,
          Dict.get str_eqb "captured" counts,
          Dict.get str_eqb "damaged" counts with
    | Some destroyed, Some abandoned, Some captured, Some damaged =>
        Some (mkDaily country eq_type destroyed abandoned captured damaged
                total date)
    | _, _, _, _ => None
    end in
  match group es [] with
  | None => None
  | Some grouped =>
      (fix rows (items : list (str * str * str * list (str * nat))) :=
         match items with
         | [] => Some []
         | item :: items' =>
             match row item with
             | None => None
             | Some r =>
                 match rows items' with
                 | None => None
                 | Some rs => Some (r :: rs)
                 end
             end
         end) grouped
  end.

End Scraper.

(** ** The dictionary of an entry, [models.py] *)

(** [dataclasses.asdict]: the fields in the order of their declaration. *)
Definition asdict (e : EquipmentEntry) : list (str * option str) :=
  [("country" : str, Some (country e));
   ("equipment_type" : str, Some (equipment_type e));
   ("status" : str, Some (status e));
   ("url" : str, url e);
   ("date_recorded" : str, date_recorded e)].

(** [to_dict], [models.py] lines 19-21. *)
Definition to_dict (e : EquipmentEntry) : list (str * str) :=
  flat_map (fun kv : str * option str =>
              match snd kv with
              | Some v => [(fst kv, v)]
              | None => []
              end) (asdict e).

(** ** The whole run: [scrape] *)

(** The run on pages that hold no number [int] refuses; [Exn.scrape] has
    the run with its [ValueError]. *)
Module Run.

(** What one request for the page gives: the elements of the content area,
    [content.find_all(["p", "li", "div"])], with their stripped text and
    their markup ([Page None] when the document has no content area at
    all), or a failure of the request, an [httpx.RequestError] or an
    [httpx.HTTPStatusError] in [fetch_page]. *)
Inductive fetched : Type :=
| Page (content : option (list block))
| Failed.

Inductive error : Type :=
| OryxScraperNetworkError
| OryxScraperParseError
| KeyError.

Inductive outcome (A : Type) : Type :=
| Ok (a : A)
| Raise (e : error).
Arguments Ok {A} a.
Arguments Raise {A} e.

(** The dictionary [scrape] returns. *)
Record report : Type := mkReport {
  url : str;
  date_scraped : str;
  total_entries : nat;
  daily_count : list DailyRow;
  totals_by_type : list TotalsRow
}.

Definition BASE_URL : str :=
  "https://www.oryxspioenkop.com/2022/02/attack-on-europe-documenting-equipment.html".

(** [scrape_equipment_entries] with its request, lines 170-226. *)
Definition scrape_equipment_entries (current_date : str) (page : fetched)
    (country : str) : outcome (list EquipmentEntry) :=
  match page with
  | Failed => Raise OryxScraperNetworkError
  | Page None => Raise OryxScraperParseError
  | Page (Some elements) =>
      Ok (Client.scrape_equipment_entries current_date elements country)
  end.

(** The loop over the countries, lines 305-307; [fetch n] is what the
    [n]-th request of the run gives. *)
Fixpoint collect (current_date : str) (fetch : nat -> fetched) (n : nat)
    (countries : list str) (all_entries : list EquipmentEntry)
    : outcome (list EquipmentEntry) :=
  match countries with
  | [] => Ok all_entries
  | country :: rest =>
      match scrape_equipment_entries current_date (fetch n) country with
      | Raise e => Raise e
      | Ok entries =>
          collect current_date fetch (S n) rest (all_entries ++ entries)
      end
  end.

(** [scrape], lines 289-318. *)
Definition scrape (current_date : str) (fetch : nat -> fetched)
    (countries : option (list str)) : outcome report :=
  let countries :=
    match countries with
    | None => ["russia" : str; "ukraine" : str]
    | Some l => l
    end in
  match collect current_date fetch 0 countries [] with
  | Raise e => Raise e
  | Ok all_entries =>
      match Client.generate_daily_count_csv current_date all_entries with
      | None => Raise KeyError
      | Some daily_count =>
          match Client.generate_totals_by_type_csv all_entries with
          | None => Raise KeyError
          | Some totals_by_type =>
              Ok (mkReport BASE_URL current_date (length all_entries)
                    daily_count totals_by_type)
          end
      end
  end.

End Run.

(** ** The stand-alone script, from the loop to the report *)

Module Script.

(** The exceptions of [scraper.py]: a failed request is raised again as a
    plain [Exception], a page without content area is a [ValueError]. *)
Inductive error : Type :=
| Exception
| ValueError
| KeyError.

Inductive outcome (A : Type) : Type :=
| Ok (a : A)
| Raise (e : error).
Arguments Ok {A} a.
Arguments Raise {A} e.

Definition BASE_URL : str :=
  "https://www.oryxspioenkop.com/2022/02/attack-on-europe-documenting-equipment.html".

(** [r'^([^(]+?)\s*\((\d+)'], line 264 *)
Definition category_pattern : regex :=
  (Bol ;; Group 1 (plus_lazy (notc "(")) ;; star space ;; chr "(" ;;
   Group 2 (plus digit))%re.

(** The loop of [scrape_equipment_entries], lines 244-277, on the three
    variables it updates. *)
Fixpoint scan (current_date country country_lower : str)
    (elements : list block) (entries : list EquipmentEntry)
    (current_category : option str) (in_country_section : bool)
    : list EquipmentEntry :=
  match elements with
  | [] => entries
  | element :: rest =>
      let text := text element in
      let html_str := html_str element in
      if negb (truthy text) then
        scan current_date country country_lower rest entries
          current_category in_country_section
      else if contains country_lower (lower text)
              && existsb (fun word : str => contains word (lower text))
                   ["total" : str; "losses" : str] then
        scan current_date country country_lower rest entries
          current_category true
      else if in_country_section
              && (contains "ukraine" (lower text)
                  && str_eqb country_lower "russia") then entries
      else if in_country_section
              && (contains "russia" (lower text)
                  && str_eqb country_lower "ukraine") then entries
      else
        match re_search category_pattern text with
        | Some category_match =>
            scan current_date country country_lower rest entries
              (Some (strip (group 1 category_match))) in_country_section
        | None =>
            match in_country_section, current_category with
            | true, Some category =>
                if truthy category then
                  match re_match Scraper.item_pattern text with
                  | Some _ =>
                      let equipment_entries :=
                        Scraper.parse_equipment_line current_date text
                          country category (Some html_str) in
                      scan current_date country country_lower rest
                        (entries ++ equipment_entries) current_category
                        in_country_section
                  | None =>
                      scan current_date country country_lower rest entries
                        current_category in_country_section
                  end
                else
                  scan current_date country country_lower rest entries
                    current_category in_country_section
            | _, _ =>
                scan current_date country country_lower rest entries
                  current_category in_country_section
            end
        end
  end.

(** [scrape_equipment_entries], lines 216-277. *)
Definition scrape_equipment_entries (current_date : str)
    (page : Run.fetched) (country : str) : outcome (list EquipmentEntry) :=
  match page with
  | Run.Failed => Raise Exception
  | Run.Page None => Raise ValueError
  | Run.Page (Some elements) =>
      Ok (scan current_date country (lower country) elements [] None false)
  end.

(** Lines 319-344. *)
Definition generate_totals_by_type_csv (es : list EquipmentEntry)
    : option (list TotalsRow) :=
  let fix group (es : list EquipmentEntry)
        (grouped : list (str * str * list (str * nat))) :=
    match es with
    | [] => Some grouped
    | entry :: es' =>
        let key := (country entry, equipment_type entry) in
        match bump key2_eqb key (status entry) grouped with
        | None => None
        | Some grouped' => group es' grouped'
        end
    end in
  let row (item : str * str * list (str * nat)) : option TotalsRow :=
    let '((country, eq_type), counts) := item in
    let total := sum_values counts in
    match Dict.get str_eqb "destroyed" counts,
          Dict.get str_eqb "abandoned" counts,
          Dict.get str_eqb "captured" counts,
          Dict.get str_eqb "damaged" counts with
    | Some destroyed, Some abandoned, Some captured, Some damaged =>
        Some (mkTotals country eq_type destroyed abandoned captured damaged
                total)
    | _, _, _, _ => None
    end in
  match group es [] with
  | None => None
  | Some grouped =>
      (fix rows (items : list (str * str * list (str * nat))) :=
         match items with
         | [] => Some []
         | item :: items' =>
             match row item with
             | None => None
             | Some r =>
                 match rows items' with
                 | None => None
                 | Some rs => Some (r :: rs)
                 end
             end
         end) grouped
  end.

(** The loop over the countries, lines 356-360. *)
Fixpoint collect (current_date : str) (fetch : nat -> Run.fetched)
    (n : nat) (countries : list str) (all_entries : list EquipmentEntry)
    : outcome (list EquipmentEntry) :=
  match countries with
  | [] => Ok all_entries
  | country :: rest =>
      match scrape_equipment_entries current_date (fetch n) country with
      | Raise e => Raise e
      | Ok entries =>
          collect current_date fetch (S n) rest (all_entries ++ entries)
      end
  end.

(** [scrape], lines 346-372. *)
Definition scrape (current_date : str) (fetch : nat -> Run.fetched)
    (countries : option (list str)) : outcome Run.report :=
  let countries :=
    match countries with
    | None => ["russia" : str; "ukraine" : str]
    | Some l => l
    end in
  match collect current_date fetch 0 countries [] with
  | Raise e => Raise e
  | Ok all_entries =>
      match Scraper.generate_daily_count_csv current_date all_entries with
      | None => Raise KeyError
      | Some daily_count =>
          match generate_totals_by_type_csv all_entries with
          | None => Raise KeyError
          | Some totals_by_type =>
              Ok (Run.mkReport BASE_URL current_date (length all_entries)
                    daily_count totals_by_type)
          end
      end
  end.

End Script.

(** ** Exceptions

    The functions of [Client] give what the code returns.  Here are the same
    functions with the exceptions they raise on the way: [int] refuses a
    string of more than [sys.int_max_str_digits] digits with a [ValueError],
    a failed request and a page without content area end
    [scrape_equipment_entries], and a status that is no key of the count
    dictionaries is a [KeyError] in the aggregation. *)

(** [sys.int_max_str_digits], as the interpreter sets it. *)
Definition int_max_str_digits : nat := 4300.

Module Exn.

Inductive error : Type :=
| ValueError
| KeyError
| OryxScraperNetworkError
| OryxScraperParseError.

Inductive outcome (A : Type) : Type :=
| Ok (a : A)
| Raise (e : error).
Arguments Ok {A} a.
Arguments Raise {A} e.

Definition bind {A B : Type} (x : outcome A) (f : A -> outcome B)
    : outcome B :=
  match x with
  | Ok a => f a
  | Raise e => Raise e
  end.

Notation "'let*' x ':=' e1 'in' e2" := (bind e1 (fun x => e2))
  (at level 10, x name, e1 at level 100, e2 at level 200).

(** [for x in l: acc = f(acc, x)], ended by the first exception. *)
Fixpoint for_each {A B : Type} (f : B -> A -> outcome B) (l : list A)
    (acc : B) : outcome B :=
  match l with
  | [] => Ok acc
  | x :: l' => let* acc' := f acc x in for_each f l' acc'
  end.

(** [int(s)] for a string of decimal digits: the digits are counted, leading
    zeros too, before any of them is read. *)
Definition int (s : str) : outcome N :=
  if length s <=? int_max_str_digits then Ok (int_of s)
  else Raise ValueError.

(** The body of the loop over the anchors, lines 110-123. *)
Definition link_entry (current_date country equipment_name : str)
    (link_match : caps) : outcome EquipmentEntry :=
  let url := group 1 link_match in
  let* entry_num := int (group 2 link_match) in
  let status := lower (group 3 link_match) in
  Ok (mkEntry (lower country) equipment_name status
        (if startswith "http" url then Some url else None)
        (Some current_date)).

(** The markup tier, lines 105-123. *)
Definition markup_tier (current_date country equipment_name html_line : str)
    (entries : list EquipmentEntry) : outcome (list EquipmentEntry) :=
  for_each
    (fun es link_match =>
       let* e := link_entry current_date country equipment_name link_match in
       Ok (es ++ [e]))
    (finditer Client.link_pattern html_line) entries.

(** [parse_equipment_line], lines 94-163; the plain-text tier and the
    fallback tier convert nothing. *)
Definition parse_equipment_line (current_date : str)
    (line country category : str) (html_line : option str)
    : outcome (list EquipmentEntry) :=
  let entries := [] in
  match re_match Client.item_pattern (strip line) with
  | None => Ok entries
  | Some m =>
      let* total_count := int (group 1 m) in
      let equipment_name := strip (group 2 m) in
      let* entries :=
        match html_line with
        | Some (x :: h) =>
            markup_tier current_date country equipment_name (x :: h) entries
        | _ => Ok entries
        end in
      let entries :=
        if is_empty entries
        then Client.text_tier current_date country equipment_name line
               entries
        else entries in
      let entries :=
        if is_empty entries && (0 <? total_count)%N
        then Client.fallback_tier current_date country equipment_name
               total_count entries
        else entries in
      Ok entries
  end.

(** The body of the loop over the elements, lines 191-224. *)
Definition scan_block (current_date country country_lower : str)
    (st : scan_state) (element : block) : outcome control :=
  let text := text element in
  let html_str := html_str element in
  if negb (truthy text) then Ok (Next st)
  else if Client.is_section_header country_lower text then
    Ok (Next (mkState (entries st) (current_category st) true))
  else
    let leave :=
      if in_country_section st then
        if contains "ukraine" (lower text) && str_eqb country_lower "russia"
        then true
        else if contains "russia" (lower text)
                && str_eqb country_lower "ukraine"
        then true
        else false
      else false in
    if leave then Ok (Stop st)
    else
      match re_search Client.category_pattern text with
      | Some category_match =>
          Ok (Next (mkState (entries st)
                      (Some (strip (group 1 category_match)))
                      (in_country_section st)))
      | None =>
          if in_country_section st && opt_truthy (current_category st) then
            match re_match Client.item_pattern text, current_category st with
            | Some _, Some category =>
                let* equipment_entries :=
                  parse_equipment_line current_date text country category
                    (Some html_str) in
                Ok (Next (mkState (entries st ++ equipment_entries)
                            (current_category st) (in_country_section st)))
            | _, _ => Ok (Next st)
            end
          else Ok (Next st)
      end.

(** The loop: the state it ends in, and whether it ended by [break]. *)
Fixpoint scan_blocks (current_date country country_lower : str)
    (st : scan_state) (elements : list block)
    : outcome (scan_state * bool) :=
  match elements with
  | [] => Ok (st, false)
  | element :: rest =>
      let* step := scan_block current_date country country_lower st element in
      match step with
      | Next st' => scan_blocks current_date country country_lower st' rest
      | Stop st' => Ok (st', true)
      end
  end.

(** [scrape_equipment_entries] with its request, lines 170-226. *)
Definition scrape_equipment_entries (current_date : str)
    (page : Run.fetched) (country : str) : outcome (list EquipmentEntry) :=
  match page with
  | Run.Failed => Raise OryxScraperNetworkError
  | Run.Page None => Raise OryxScraperParseError
  | Run.Page (Some elements) =>
      let st := mkState [] None false in
      let country_lower := lower country in
      let* r := scan_blocks current_date country country_lower st elements in
      Ok (entries (fst r))
  end.

(** The loop over the countries, lines 305-307; [fetch n] is what the
    [n]-th request of the run gives. *)
Fixpoint collect (current_date : str) (fetch : nat -> Run.fetched) (n : nat)
    (countries : list str) (all_entries : list EquipmentEntry)
    : outcome (list EquipmentEntry) :=
  match countries with
  | [] => Ok all_entries
  | country :: rest =>
      let* entries :=
        scrape_equipment_entries current_date (fetch n) country in
      collect current_date fetch (S n) rest (all_entries ++ entries)
  end.

(** [d] or the [KeyError] of the aggregation. *)
Definition or_key_error {A : Type} (o : option A) : outcome A :=
  match o with
  | Some a => Ok a
  | None => Raise KeyError
  end.

(** [scrape], lines 289-318. *)
Definition scrape (current_date : str) (fetch : nat -> Run.fetched)
    (countries : option (list str)) : outcome Run.report :=
  let countries :=
    match countries with
    | None => ["russia" : str; "ukraine" : str]
    | Some l => l
    end in
  let* all_entries := collect current_date fetch 0 countries [] in
  let* daily_count :=
    or_key_error (Client.generate_daily_count_csv current_date all_entries) in
  let* totals_by_type :=
    or_key_error (Client.generate_totals_by_type_csv all_entries) in
  Ok (Run.mkReport Run.BASE_URL current_date (length all_entries)
        daily_count totals_by_type).

End Exn.

(** * Properties *)

(** ** Characters and strings *)

Ltac ascii_cases c := destruct c as [[] [] [] [] [] [] [] []].

Lemma str_eqb_eq (a b : str) : str_eqb a b = true <-> a = b.
Proof.
  revert b; induction a as [|x a IH]; intros [|y b]; simpl;
    try (split; [discriminate | congruence]); [tauto|].
  rewrite andb_true_iff, Ascii.eqb_eq, IH.
  split; [intros [-> ->]; reflexivity | intros H; inversion H; auto].
Qed.

Lemma str_eqb_refl (a : str) : str_eqb a a = true.
Proof. apply str_eqb_eq; reflexivity. Qed.

Lemma lower_nonempty (s : str) : s <> [] -> lower s <> [].
Proof. destruct s; simpl; congruence. Qed.

(** ** The loops of [parse_equipment_line] as list expressions *)

Lemma append_times_repeat (n : nat) (e : EquipmentEntry) es :
  append_times n e es = es ++ repeat e n.
Proof.
  unfold append_times. induction n as [|n IH]; simpl.
  - now rewrite app_nil_r.
  - rewrite IH, <- app_assoc. f_equal. symmetry. apply (repeat_cons n e).
Qed.

Lemma markup_tier_map date ctry name html es :
  Client.markup_tier date ctry name html es =
  es ++ map (Client.link_entry date ctry name)
          (finditer Client.link_pattern html).
Proof.
  unfold Client.markup_tier.
  generalize (finditer Client.link_pattern html) as ms.
  intros ms; revert es; induction ms as [|m ms IH]; intros es; simpl.
  - now rewrite app_nil_r.
  - rewrite IH, <- app_assoc. reflexivity.
Qed.

(** The entries of one status group. *)
Definition group_entries (date ctry name : str) (m : caps)
    : list EquipmentEntry :=
  repeat (mkEntry (lower ctry) name (lower (group 2 m)) None (Some date))
    (length (findall Client.number_pattern (group 1 m))).

Lemma text_tier_flat_map date ctry name line es :
  Client.text_tier date ctry name line es =
  es ++ flat_map (group_entries date ctry name)
          (finditer Client.status_pattern line).
Proof.
  unfold Client.text_tier.
  generalize (finditer Client.status_pattern line) as ms.
  intros ms; revert es; induction ms as [|m ms IH]; intros es; simpl.
  - now rewrite app_nil_r.
  - rewrite IH. unfold Client.status_entries at 1.
    rewrite append_times_repeat, <- app_assoc. reflexivity.
Qed.

(** What the markup tier and the plain-text tier yield on their own. *)
Definition markup_yield (date ctry name : str) (html_line : option str)
    : list EquipmentEntry :=
  match html_line with
  | Some (x :: h) => Client.markup_tier date ctry name (x :: h) []
  | _ => []
  end.

Definition text_yield (date ctry name line : str) : list EquipmentEntry :=
  Client.text_tier date ctry name line [].

Definition destroyed_entry (date ctry name : str) : EquipmentEntry :=
  mkEntry (lower ctry) name "destroyed" None (Some date).

(** [parse_equipment_line] on a line of the item shape, tier by tier. *)
Lemma parse_equipment_line_cases date line ctry cat html_line m :
  re_match Client.item_pattern (strip line) = Some m ->
  let name := strip (group 2 m) in
  let markup := markup_yield date ctry name html_line in
  let text := text_yield date ctry name line in
  Client.parse_equipment_line date line ctry cat html_line =
  match markup with
  | _ :: _ => markup
  | [] =>
      match text with
      | _ :: _ => text
      | [] => repeat (destroyed_entry date ctry name)
                (N.to_nat (int_of (group 1 m)))
      end
  end.
Proof.
  intros Hm name markup text.
  unfold Client.parse_equipment_line. rewrite Hm.
  fold name.
  assert (Hmk : match html_line with
                | Some (x :: h) =>
                    Client.markup_tier date ctry name (x :: h) []
                | _ => []
                end = markup) by reflexivity.
  cbv zeta. rewrite Hmk.
  destruct markup as [|e mk]; simpl is_empty; cbv iota.
  - fold (text_yield date ctry name line). fold text.
    destruct text as [|e tx]; simpl is_empty; cbv iota.
    + simpl andb. unfold Client.fallback_tier.
      rewrite append_times_repeat. simpl app.
      destruct (0 <? int_of (group 1 m))%N eqn:E; [reflexivity|].
      apply N.ltb_ge in E.
      assert (int_of (group 1 m) = 0%N) as -> by lia. reflexivity.
    + reflexivity.
  - reflexivity.
Qed.

(** ** The exceptions of [parse_equipment_line] *)

(** A number [int] takes: no more digits than the limit. *)
Definition short (s : str) : bool := length s <=? int_max_str_digits.

(** The numbers of the anchors the markup tier converts. *)
Definition anchors_short (html_line : option str) : bool :=
  match html_line with
  | Some (x :: h) =>
      forallb (fun c => short (group 2 c))
        (finditer Client.link_pattern (x :: h))
  | _ => true
  end.

Lemma exn_markup_tier date ctry name h es :
  Exn.markup_tier date ctry name h es =
  if forallb (fun c => short (group 2 c)) (finditer Client.link_pattern h)
  then Exn.Ok (Client.markup_tier date ctry name h es)
  else Exn.Raise Exn.ValueError.
Proof.
  unfold Exn.markup_tier, Client.markup_tier.
  generalize (finditer Client.link_pattern h). intros l. revert es.
  induction l as [|c l IH]; intros es; [reflexivity|].
  cbn [Exn.for_each forallb fold_left].
  unfold Exn.link_entry at 1, Exn.int, short at 1.
  destruct (length (group 2 c) <=? int_max_str_digits); cbn [Exn.bind andb];
    [|reflexivity].
  rewrite IH. reflexivity.
Qed.

(** [parse_equipment_line] raises exactly when the declared count or the
    number of an anchor is too long for [int], and then a [ValueError];
    otherwise it returns the list of [Client.parse_equipment_line]. *)
Lemma exn_parse_equipment_line date line ctry cat html_line :
  Exn.parse_equipment_line date line ctry cat html_line =
  match re_match Client.item_pattern (strip line) with
  | None => Exn.Ok []
  | Some m =>
      if short (group 1 m) && anchors_short html_line
      then Exn.Ok (Client.parse_equipment_line date line ctry cat html_line)
      else Exn.Raise Exn.ValueError
  end.
Proof.
  unfold Exn.parse_equipment_line, Client.parse_equipment_line.
  destruct (re_match Client.item_pattern (strip line)) as [m|];
    [|reflexivity].
  unfold Exn.int, short at 1.
  destruct (length (group 1 m) <=? int_max_str_digits); cbn [Exn.bind andb];
    [|reflexivity].
  destruct html_line as [[|x h]|]; cbn [anchors_short Exn.bind];
    try reflexivity.
  rewrite exn_markup_tier.
  destruct (forallb _ _); reflexivity.
Qed.

Lemma markup_yield_anchors_short date ctry name html_line :
  markup_yield date ctry name html_line = [] ->
  anchors_short html_line = true.
Proof.
  destruct html_line as [[|x h]|]; try reflexivity.
  unfold markup_yield, anchors_short. rewrite markup_tier_map. cbn [app].
  destruct (finditer Client.link_pattern (x :: h)); [reflexivity|].
  discriminate.
Qed.

Lemma anchors_short_iff html_line :
  anchors_short html_line = true <->
  (forall x h c, html_line = Some (x :: h) ->
     In c (finditer Client.link_pattern (x :: h)) ->
     length (group 2 c) <= int_max_str_digits).
Proof.
  split.
  - intros H x h c -> Hc. cbn [anchors_short] in H.
    rewrite forallb_forall in H. apply H in Hc. now apply Nat.leb_le in Hc.
  - intros H. destruct html_line as [[|x h]|]; try reflexivity.
    cbn [anchors_short]. apply forallb_forall. intros c Hc.
    apply Nat.leb_le. now apply (H x h).
Qed.

(** ** Claims on the tiers of [parse_equipment_line] *)

(** C1, as the code has it.  On a line of the item shape whose declared
    count has no more digits than [int] takes, the result is what the markup
    tier yields when that is not empty (the numbers of its anchors being
    within the limit too), else what the plain-text tier yields when that is
    not empty, and only when both yield nothing it is the declared total of
    entries, all [destroyed] (none when the total is 0); the value of the
    declared total plays no part in the first two cases.  A declared count
    of more digits is a [ValueError], whatever the tiers would yield.  So
    "2 BMP-1: (1, captured)" gives one [captured] entry whenever the markup
    tier yields nothing, and "5 Tanks:" gives five [destroyed] entries. *)
Theorem parse_equipment_line_fallback :
  forall date line ctry cat html_line m,
    re_match Client.item_pattern (strip line) = Some m ->
    let name := strip (group 2 m) in
    let total := int_of (group 1 m) in
    let markup := markup_yield date ctry name html_line in
    let text := text_yield date ctry name line in
    let result := Exn.parse_equipment_line date line ctry cat html_line in
    (int_max_str_digits < length (group 1 m) ->
       result = Exn.Raise Exn.ValueError) /\
    (length (group 1 m) <= int_max_str_digits ->
       (markup <> [] ->
        (forall x h c, html_line = Some (x :: h) ->
           In c (finditer Client.link_pattern (x :: h)) ->
           length (group 2 c) <= int_max_str_digits) ->
        result = Exn.Ok markup) /\
       (markup = [] -> text <> [] -> result = Exn.Ok text) /\
       (markup = [] -> text = [] ->
          exists l,
            result = Exn.Ok l /\
            l = repeat (destroyed_entry date ctry name) (N.to_nat total) /\
            length l = N.to_nat total /\
            (forall e, In e l -> status e = ("destroyed" : str)))) /\
    (line = ("2 BMP-1: (1, captured)" : str) -> markup = [] ->
       result
       = Exn.Ok [mkEntry (lower ctry) "BMP-1" "captured" None (Some date)]) /\
    (line = ("5 Tanks:" : str) -> markup = [] ->
       total = 5%N /\
       result = Exn.Ok (repeat (mkEntry (lower ctry) "Tanks" "destroyed" None
                                  (Some date)) 5)).
Proof.
  intros date line ctry cat html_line m Hm name total markup text result.
  pose proof (parse_equipment_line_cases date line ctry cat html_line m Hm)
    as Hc.
  cbv zeta in Hc. fold name markup text total in Hc.
  pose proof (exn_parse_equipment_line date line ctry cat html_line) as He.
  rewrite Hm, Hc in He. fold result in He.
  assert (Hlow : markup = [] -> short (group 1 m) = true ->
                 result = Exn.Ok match text with
                                 | [] => repeat (destroyed_entry date ctry name)
                                           (N.to_nat total)
                                 | _ :: _ => text
                                 end).
  { intros Hmk Hs. rewrite He, Hs.
    rewrite (markup_yield_anchors_short date ctry name html_line Hmk).
    fold markup. rewrite Hmk. reflexivity. }
  split; [|split; [|split]].
  - intros Hlong. rewrite He. unfold short.
    assert ((length (group 1 m) <=? int_max_str_digits) = false) as ->
      by (apply Nat.leb_gt; exact Hlong).
    reflexivity.
  - intros Hshort. apply Nat.leb_le in Hshort. fold (short (group 1 m)) in Hshort.
    split; [|split].
    + intros Hne Ha. apply anchors_short_iff in Ha.
      rewrite He, Hshort, Ha. cbn [andb].
      destruct markup; [congruence | reflexivity].
    + intros Hmk Hne. rewrite (Hlow Hmk Hshort).
      destruct text; [congruence | reflexivity].
    + intros Hmk Htx. rewrite (Hlow Hmk Hshort), Htx.
      eexists. split; [reflexivity|]. split; [reflexivity|]. split.
      * apply repeat_length.
      * intros e Hin. apply repeat_spec in Hin. subst e. reflexivity.
  - intros -> Hmk.
    assert (Hs : short (group 1 m) = true).
    { vm_compute in Hm. injection Hm as <-. reflexivity. }
    rewrite (Hlow Hmk Hs).
    subst text name total. clear - Hm.
    vm_compute in Hm. injection Hm as <-.
    vm_compute. reflexivity.
  - intros -> Hmk.
    assert (Hs : short (group 1 m) = true).
    { vm_compute in Hm. injection Hm as <-. reflexivity. }
    rewrite (Hlow Hmk Hs).
    subst text name total. clear - Hm.
    vm_compute in Hm. injection Hm as <-.
    split; vm_compute; reflexivity.
Qed.

Lemma parse_equipment_line_fallback_witness :
  exists m,
    re_match Client.item_pattern (strip "5 Tanks:") = Some m /\
    Exn.parse_equipment_line "2024-05-01" "5 Tanks:" "Russia" "Tanks" None
    = Exn.Ok (repeat (mkEntry "russia" "Tanks" "destroyed" None
                        (Some ("2024-05-01" : str))) 5).
Proof.
  eexists. split; [vm_compute; reflexivity|].
  assert (Hm : re_match Client.item_pattern (strip "5 Tanks:")
               = Some [(0, "5 Tanks:" : str); (2, "Tanks" : str);
                       (1, "5" : str)])
    by (vm_compute; reflexivity).
  destruct (parse_equipment_line_fallback "2024-05-01" "5 Tanks:"
              "Russia" "Tanks" None _ Hm) as (_ & H & _).
  destruct H as (_ & _ & H); [vm_compute; lia|].
  destruct H as (l & -> & -> & _); [reflexivity | reflexivity|].
  vm_compute. reflexivity.
Defined.

(** The claim as the spec words it fails on a count that [int] refuses: the
    line below has the item shape and a marker, the plain-text tier yields
    one entry for it, yet the call raises [ValueError] on the declared
    total, which the claim says is never used here. *)
Lemma long_count_raises :
  let line := repeat "9"%char 4301 ++ (" T-72: (1, destroyed)" : str) in
  (exists m, re_match Client.item_pattern (strip line) = Some m) /\
  text_yield "2024-05-01" "russia" "T-72" line
  = [mkEntry "russia" "T-72" "destroyed" None (Some ("2024-05-01" : str))] /\
  Exn.parse_equipment_line "2024-05-01" line "russia" "Tanks" None
  = Exn.Raise Exn.ValueError.
Proof.
  cbv zeta. split; [|split].
  - eexists. vm_compute. reflexivity.
  - vm_compute. reflexivity.
  - vm_compute. reflexivity.
Qed.

(** C4, as the code has it.  A line that fails the shape check (made on the
    trimmed line) gives the empty list and no error; so does a line of the
    item shape on which the two marker tiers yield nothing and whose declared
    total is not positive, when the count has no more digits than [int]
    takes.  A count of more digits is a [ValueError]. *)
Theorem parse_equipment_line_unrecognized :
  forall date line ctry cat html_line,
    (re_match Client.item_pattern (strip line) = None ->
     Exn.parse_equipment_line date line ctry cat html_line = Exn.Ok []) /\
    (forall m,
       re_match Client.item_pattern (strip line) = Some m ->
       length (group 1 m) <= int_max_str_digits ->
       markup_yield date ctry (strip (group 2 m)) html_line = [] ->
       text_yield date ctry (strip (group 2 m)) line = [] ->
       ~ (0 < int_of (group 1 m))%N ->
       Exn.parse_equipment_line date line ctry cat html_line = Exn.Ok []) /\
    (forall m,
       re_match Client.item_pattern (strip line) = Some m ->
       int_max_str_digits < length (group 1 m) ->
       Exn.parse_equipment_line date line ctry cat html_line
       = Exn.Raise Exn.ValueError).
Proof.
  intros date line ctry cat html_line.
  rewrite exn_parse_equipment_line. split; [|split].
  - intros ->. reflexivity.
  - intros m Hm Hs Hmk Htx Htot. rewrite Hm.
    apply Nat.leb_le in Hs. fold (short (group 1 m)) in Hs. rewrite Hs.
    rewrite (markup_yield_anchors_short _ _ _ _ Hmk). cbn [andb].
    rewrite (parse_equipment_line_cases _ _ _ _ _ _ Hm).
    cbv zeta. rewrite Hmk, Htx.
    assert (int_of (group 1 m) = 0%N) as -> by lia. reflexivity.
  - intros m Hm Hl. rewrite Hm. unfold short.
    assert ((length (group 1 m) <=? int_max_str_digits) = false) as ->
      by (apply Nat.leb_gt; exact Hl).
    reflexivity.
Qed.

Lemma parse_equipment_line_unrecognized_witness :
  Exn.parse_equipment_line "2024-05-01" "Tanks and more" "russia"
    "Tanks" None = Exn.Ok [] /\
  Exn.parse_equipment_line "2024-05-01" "0 T-72:" "russia" "Tanks" None
  = Exn.Ok [].
Proof.
  destruct (parse_equipment_line_unrecognized "2024-05-01" "Tanks and more"
              "russia" "Tanks" None) as [H1 _].
  destruct (parse_equipment_line_unrecognized "2024-05-01" "0 T-72:"
              "russia" "Tanks" None) as (_ & H2 & _).
  split.
  - apply H1. vm_compute. reflexivity.
  - apply (H2 [(0, "0 T-72:" : str); (2, "T-72" : str); (1, "0" : str)]);
      vm_compute; try reflexivity; [lia|]. intros H. discriminate H.
Defined.

(** The claim as the spec words it fails on a count that [int] refuses: on
    the line below the two marker tiers yield nothing and the declared total
    is 0, yet the call does not return the empty list, it raises
    [ValueError]. *)
Lemma zero_count_raises :
  let line := repeat "0"%char 4301 ++ (" T-72:" : str) in
  (exists m,
     re_match Client.item_pattern (strip line) = Some m /\
     int_of (group 1 m) = 0%N /\
     markup_yield "2024-05-01" "russia" (strip (group 2 m)) None = [] /\
     text_yield "2024-05-01" "russia" (strip (group 2 m)) line = []) /\
  Exn.parse_equipment_line "2024-05-01" line "russia" "Tanks" None
  = Exn.Raise Exn.ValueError.
Proof.
  cbv zeta. split.
  - eexists. split; [vm_compute; reflexivity|].
    split; [vm_compute; reflexivity|]. split; vm_compute; reflexivity.
  - vm_compute. reflexivity.
Qed.

(** ** The section scanner *)

(** The exit test of lines 205-209 as one boolean. *)
Definition leaves_section (country_lower : str) (st : scan_state)
    (text : str) : bool :=
  in_country_section st
  && ((contains "ukraine" (lower text) && str_eqb country_lower "russia")
      || (contains "russia" (lower text) && str_eqb country_lower "ukraine")).

Definition initial_state : scan_state := mkState [] None false.

Lemma scan_block_blank date ctry cl st b :
  truthy (text b) = false -> Client.scan_block date ctry cl st b = Next st.
Proof. intros H. unfold Client.scan_block. rewrite H. reflexivity. Qed.

Lemma scan_block_header date ctry cl st b :
  truthy (text b) = true ->
  Client.is_section_header cl (text b) = true ->
  Client.scan_block date ctry cl st b =
  Next (mkState (entries st) (current_category st) true).
Proof.
  intros H1 H2. unfold Client.scan_block. rewrite H1, H2. reflexivity.
Qed.

Lemma scan_block_rest date ctry cl st b :
  truthy (text b) = true ->
  Client.is_section_header cl (text b) = false ->
  Client.scan_block date ctry cl st b =
  if leaves_section cl st (text b) then Stop st
  else
    match re_search Client.category_pattern (text b) with
    | Some m =>
        Next (mkState (entries st) (Some (strip (group 1 m)))
                (in_country_section st))
    | None =>
        match in_country_section st, current_category st,
              re_match Client.item_pattern (text b) with
        | true, Some (x :: cat), Some _ =>
            Next (mkState
                    (entries st ++
                     Client.parse_equipment_line date (text b) ctry (x :: cat)
                       (Some (html_str b)))
                    (current_category st) (in_country_section st))
        | _, _, _ => Next st
        end
    end.
Proof.
  intros H1 H2. unfold Client.scan_block, leaves_section.
  rewrite H1, H2. cbv zeta. cbn [negb].
  destruct (in_country_section st); cbn [andb].
  - destruct (contains _ (lower (text b)) && str_eqb cl "russia");
      cbn [orb]; [reflexivity|].
    destruct (contains _ (lower (text b)) && str_eqb cl "ukraine");
      [reflexivity|].
    destruct (re_search Client.category_pattern (text b)); [reflexivity|].
    destruct (current_category st) as [[|x cat]|];
      cbn [opt_truthy truthy]; try reflexivity;
      destruct (re_match Client.item_pattern (text b)); reflexivity.
  - destruct (re_search Client.category_pattern (text b)); reflexivity.
Qed.

(** C9. The body of the scanning loop takes a non-blank block through the
    four checks in order: section header, section exit, category header,
    item line; the first check that applies decides what the block does and
    the later ones are not made.  A block matching the category pattern
    that reaches the third check sets [current_category] and nothing else;
    whatever it is taken for, a block matching the category pattern adds no
    entry. *)
Theorem scan_block_order :
  forall date ctry cl st b,
    truthy (text b) = true ->
    let header := Client.is_section_header cl (text b) in
    let leave := leaves_section cl st (text b) in
    let cat := re_search Client.category_pattern (text b) in
    let step := Client.scan_block date ctry cl st b in
    (header = true ->
       step = Next (mkState (entries st) (current_category st) true)) /\
    (header = false -> leave = true -> step = Stop st) /\
    (header = false -> leave = false ->
       forall m, cat = Some m ->
       step = Next (mkState (entries st) (Some (strip (group 1 m)))
                      (in_country_section st))) /\
    (header = false -> leave = false -> cat = None ->
       forall category,
         in_country_section st = true ->
         current_category st = Some category ->
         truthy category = true ->
         re_match Client.item_pattern (text b) <> None ->
         step = Next (mkState
                        (entries st ++
                         Client.parse_equipment_line date (text b) ctry
                           category (Some (html_str b)))
                        (current_category st) (in_country_section st))) /\
    (header = false -> leave = false -> cat = None ->
       in_country_section st && opt_truthy (current_category st) = false
       \/ re_match Client.item_pattern (text b) = None ->
       step = Next st) /\
    (forall m st', cat = Some m -> step = Next st' \/ step = Stop st' ->
       entries st' = entries st).
Proof.
  intros date ctry cl st b Ht header leave cat step.
  assert (Hh : header = true -> step =
            Next (mkState (entries st) (current_category st) true)).
  { intros E. apply scan_block_header; assumption. }
  assert (Hr : header = false -> step = _) by
    (intros E; exact (scan_block_rest date ctry cl st b Ht E)).
  fold leave cat in Hr.
  repeat split.
  - exact Hh.
  - intros Hf Hl. rewrite (Hr Hf), Hl. reflexivity.
  - intros Hf Hl m Hc. rewrite (Hr Hf), Hl, Hc. reflexivity.
  - intros Hf Hl Hc category Hin Hcat Htr Hitem.
    rewrite (Hr Hf), Hl, Hc, Hin, Hcat.
    destruct category as [|x category]; [discriminate|].
    destruct (re_match Client.item_pattern (text b)); [reflexivity|].
    congruence.
  - intros Hf Hl Hc Hno. rewrite (Hr Hf), Hl, Hc.
    destruct Hno as [Hno | Hno].
    + destruct (in_country_section st); [|reflexivity].
      destruct (current_category st) as [[|x category]|];
        try reflexivity; discriminate.
    + rewrite Hno.
      destruct (in_country_section st); [|reflexivity].
      destruct (current_category st) as [[|x category]|]; reflexivity.
  - intros m st' Hc Hstep.
    destruct header eqn:Hhd.
    + rewrite (Hh eq_refl) in Hstep.
      destruct Hstep as [E | E]; [injection E as <-; reflexivity|].
      discriminate.
    + rewrite (Hr eq_refl), Hc in Hstep.
      destruct leave; destruct Hstep as [E | E];
        try discriminate; injection E as <-; reflexivity.
Qed.

Lemma scan_block_order_witness :
  Client.scan_block "2024-05-01" "russia" "russia"
    (mkState [] None true) (mkBlock "Tanks (5, of which destroyed: 3)" "")
  = Next (mkState [] (Some ("Tanks" : str)) true).
Proof.
  destruct (scan_block_order "2024-05-01" "russia" "russia"
              (mkState [] None true)
              (mkBlock "Tanks (5, of which destroyed: 3)" "") eq_refl)
    as (_ & _ & H & _).
  rewrite (H ltac:(vm_compute; reflexivity) ltac:(vm_compute; reflexivity)
             [(0, "Tanks (5" : str); (2, "5" : str); (1, "Tanks" : str)]
             ltac:(vm_compute; reflexivity)).
  vm_compute. reflexivity.
Defined.

Lemma scan_blocks_app date ctry cl st pre rest :
  Client.scan_blocks date ctry cl st (pre ++ rest) =
  match Client.scan_blocks date ctry cl st pre with
  | (st', true) => (st', true)
  | (st', false) => Client.scan_blocks date ctry cl st' rest
  end.
Proof.
  revert st; induction pre as [|b pre IH]; intros st; simpl.
  - reflexivity.
  - destruct (Client.scan_block date ctry cl st b); [apply IH | reflexivity].
Qed.

Lemma contains_truthy (sub s : str) :
  truthy sub = true -> contains sub s = true -> truthy s = true.
Proof.
  destruct sub as [|x sub]; [discriminate|].
  destruct s; simpl; [discriminate | reflexivity].
Qed.

(** The other country of the two the exit test knows. *)
Definition other_country (country_lower : str) : option str :=
  if str_eqb country_lower "russia" then Some ("ukraine" : str)
  else if str_eqb country_lower "ukraine" then Some ("russia" : str)
  else None.

(** C8, as the code has it.  Scanning for one of the two countries, let the
    scan of the blocks [pre] end inside the country section without a stop.
    If the next block names the other country and is not itself taken for a
    section header (that test comes first and ends the block's turn), the
    scan stops there: the result is what [pre] gave, whatever the block and
    the blocks after it hold. *)
Theorem scan_stops_at_other_country :
  forall date ctry other pre b post st,
    other_country (lower ctry) = Some other ->
    Client.scan_blocks date ctry (lower ctry) initial_state pre
      = (st, false) ->
    in_country_section st = true ->
    contains other (lower (text b)) = true ->
    Client.is_section_header (lower ctry) (text b) = false ->
    Client.scrape_equipment_entries date (pre ++ b :: post) ctry
      = entries st /\
    Client.scrape_equipment_entries date pre ctry = entries st.
Proof.
  intros date ctry other pre b post st Ho Hpre Hin Hc Hh.
  unfold Client.scrape_equipment_entries. fold initial_state.
  rewrite scan_blocks_app, Hpre. split; [|reflexivity].
  assert (Ht : truthy (text b) = true).
  { assert (truthy (lower (text b)) = true) as Hl.
    { apply (contains_truthy other); [|assumption].
      unfold other_country in Ho.
      destruct (str_eqb (lower ctry) "russia");
        [injection Ho as <-; reflexivity|].
      destruct (str_eqb (lower ctry) "ukraine");
        [injection Ho as <-; reflexivity | discriminate]. }
    destruct (text b); [discriminate | reflexivity]. }
  cbn [Client.scan_blocks].
  rewrite (scan_block_rest _ _ _ _ _ Ht Hh).
  assert (Hl : leaves_section (lower ctry) st (text b) = true).
  { unfold leaves_section. rewrite Hin. cbn [andb].
    unfold other_country in Ho.
    destruct (str_eqb (lower ctry) "russia") eqn:E1.
    - injection Ho as <-.
      assert (Hu : contains "ukraine" (lower (text b)) = true) by exact Hc.
      rewrite Hu. reflexivity.
    - destruct (str_eqb (lower ctry) "ukraine") eqn:E2; [|discriminate].
      injection Ho as <-.
      assert (Hr : contains "russia" (lower (text b)) = true) by exact Hc.
      rewrite Hr. cbn [andb orb]. apply orb_true_r. }
  rewrite Hl. reflexivity.
Qed.

Lemma scan_stops_at_other_country_witness :
  Client.scrape_equipment_entries "2024-05-01"
    ([mkBlock "Russia - total losses" ""; mkBlock "Tanks (5)" "";
      mkBlock "2 T-72:" ""]
     ++ mkBlock "Ukraine" "" :: [mkBlock "3 T-64:" ""]) "Russia"
  = repeat (mkEntry "russia" "T-72" "destroyed" None
              (Some ("2024-05-01" : str))) 2.
Proof.
  refine (proj1 (scan_stops_at_other_country "2024-05-01" "Russia" "ukraine"
            [mkBlock "Russia - total losses" ""; mkBlock "Tanks (5)" "";
             mkBlock "2 T-72:" ""]
            (mkBlock "Ukraine" "") [mkBlock "3 T-64:" ""]
            (mkState (repeat (mkEntry "russia" "T-72" "destroyed" None
                                (Some ("2024-05-01" : str))) 2)
               (Some ("Tanks" : str)) true)
            _ _ _ _ _)); vm_compute; reflexivity.
Defined.

(** The claim as the spec words it fails: the third block names Ukraine
    while the scan for Russia is inside the section, but it also passes the
    section-header test, so the scan goes on and the block after it gives
    two entries. *)
Lemma scan_goes_on_past_other_country :
  let pre := [mkBlock "Russia - total losses" ""; mkBlock "Tanks (5)" ""] in
  let b := mkBlock "Losses of Russia in Ukraine" "" in
  let post := [mkBlock "2 T-72:" ""] in
  exists st,
    Client.scan_blocks "2024-05-01" "russia" (lower "russia")
      initial_state pre = (st, false) /\
    in_country_section st = true /\
    contains "ukraine" (lower (text b)) = true /\
    entries st = [] /\
    Client.scrape_equipment_entries "2024-05-01" (pre ++ b :: post) "russia"
    = repeat (mkEntry "russia" "T-72" "destroyed" None
                (Some ("2024-05-01" : str))) 2.
Proof.
  eexists. repeat split; vm_compute; reflexivity.
Qed.

(** ** The aggregator *)

Lemma key2_eqb_eq (a b : str * str) : key2_eqb a b = true <-> a = b.
Proof.
  destruct a as [a1 a2], b as [b1 b2]. unfold key2_eqb. simpl.
  rewrite andb_true_iff, !str_eqb_eq.
  split; [intros [-> ->]; reflexivity | intros H; inversion H; auto].
Qed.

Lemma key3_eqb_eq (a b : str * str * str) : key3_eqb a b = true <-> a = b.
Proof.
  destruct a as [a12 a3], b as [b12 b3]. unfold key3_eqb. simpl.
  rewrite andb_true_iff, key2_eqb_eq, str_eqb_eq.
  split; [intros [-> ->]; reflexivity | intros H; inversion H; auto].
Qed.

Lemma str_eqb_sym (a b : str) : str_eqb a b = str_eqb b a.
Proof.
  destruct (str_eqb a b) eqn:E.
  - apply str_eqb_eq in E. subst. symmetry. apply str_eqb_refl.
  - destruct (str_eqb b a) eqn:E'; [|reflexivity].
    apply str_eqb_eq in E'. subst. now rewrite str_eqb_refl in E.
Qed.

(** The four keys of the count dictionaries. *)
Definition status_names : list str :=
  ["destroyed" : str; "abandoned" : str; "captured" : str; "damaged" : str].

Definition is_status (s : str) : bool := existsb (str_eqb s) status_names.

Section Grouping.
Context {K : Type} (keqb : K -> K -> bool).
Hypothesis keqb_eq : forall a b, keqb a b = true <-> a = b.
Variable keyf : EquipmentEntry -> K.

(** The grouping loop for any key. *)
Fixpoint group_by (es : list EquipmentEntry)
    (grouped : list (K * list (str * nat)))
    : option (list (K * list (str * nat))) :=
  match es with
  | [] => Some grouped
  | entry :: es' =>
      match bump keqb (keyf entry) (status entry) grouped with
      | None => None
      | Some grouped' => group_by es' grouped'
      end
  end.

(** The number of entries with key [k], and of those with status [s]. *)
Definition key_count (es : list EquipmentEntry) (k : K) : nat :=
  length (filter (fun e => keqb (keyf e) k) es).

Definition tally (es : list EquipmentEntry) (k : K) (s : str) : nat :=
  length (filter (fun e => keqb (keyf e) k && str_eqb (status e) s) es).

Definition counts_of (es : list EquipmentEntry) (k : K)
    : list (str * nat) :=
  [("destroyed" : str, tally es k "destroyed");
   ("abandoned" : str, tally es k "abandoned");
   ("captured" : str, tally es k "captured");
   ("damaged" : str, tally es k "damaged")].

(** The keys in the order of their first entry. *)
Definition add_key (k : K) (ks : list K) : list K :=
  if existsb (fun k' => keqb k' k) ks then ks else ks ++ [k].

Definition keys_of (es : list EquipmentEntry) : list K :=
  fold_left (fun ks e => add_key (keyf e) ks) es [].

Definition grouped_of (es : list EquipmentEntry)
    : list (K * list (str * nat)) :=
  map (fun k => (k, counts_of es k)) (keys_of es).

Lemma keqb_refl k : keqb k k = true.
Proof. apply keqb_eq; reflexivity. Qed.

Lemma existsb_keqb k ks :
  existsb (fun k' => keqb k' k) ks = true <-> In k ks.
Proof.
  rewrite existsb_exists. split.
  - intros (k' & Hin & E). apply keqb_eq in E. now subst.
  - intros Hin. exists k. split; [assumption | apply keqb_refl].
Qed.

Lemma existsb_keqb_false k ks :
  existsb (fun k' => keqb k' k) ks = false <-> ~ In k ks.
Proof.
  rewrite <- existsb_keqb.
  destruct (existsb (fun k' => keqb k' k) ks); split; congruence.
Qed.

Lemma keys_of_snoc es e : keys_of (es ++ [e]) = add_key (keyf e) (keys_of es).
Proof. unfold keys_of. rewrite fold_left_app. reflexivity. Qed.

Lemma add_key_In k k0 ks : In k (add_key k0 ks) <-> In k ks \/ k = k0.
Proof.
  unfold add_key. destruct (existsb _ ks) eqn:E.
  - apply existsb_keqb in E. split; [tauto|]. intros [H | ->]; assumption.
  - rewrite in_app_iff. simpl. intuition (subst; auto).
Qed.

Lemma add_key_NoDup k0 ks : NoDup ks -> NoDup (add_key k0 ks).
Proof.
  intros H. unfold add_key. destruct (existsb _ ks) eqn:E; [assumption|].
  apply existsb_keqb_false in E.
  apply NoDup_app; [assumption | repeat constructor; intros [] |].
  intros k Hk [<- | []]. contradiction.
Qed.

Lemma keys_of_In es k : In k (keys_of es) <-> In k (map keyf es).
Proof.
  induction es as [|e es IH] using rev_ind.
  - simpl. tauto.
  - rewrite keys_of_snoc, add_key_In, IH, map_app, in_app_iff. simpl.
    intuition (subst; auto).
Qed.

Lemma keys_of_NoDup es : NoDup (keys_of es).
Proof.
  induction es as [|e es IH] using rev_ind.
  - constructor.
  - rewrite keys_of_snoc. now apply add_key_NoDup.
Qed.

Lemma tally_snoc es e k s :
  tally (es ++ [e]) k s =
  tally es k s + (if keqb (keyf e) k && str_eqb (status e) s then 1 else 0).
Proof.
  unfold tally. rewrite filter_app, length_app. simpl.
  destruct (keqb (keyf e) k && str_eqb (status e) s); reflexivity.
Qed.

Lemma tally_other es e k s :
  keyf e <> k -> tally (es ++ [e]) k s = tally es k s.
Proof.
  intros H. rewrite tally_snoc.
  destruct (keqb (keyf e) k) eqn:E; [apply keqb_eq in E; contradiction|].
  simpl. lia.
Qed.

Lemma tally_absent es k s : ~ In k (map keyf es) -> tally es k s = 0.
Proof.
  intros H. unfold tally. induction es as [|e es IH]; [reflexivity|].
  simpl. destruct (keqb (keyf e) k) eqn:E.
  - apply keqb_eq in E. exfalso. apply H. left. assumption.
  - simpl. apply IH. intros Hin. apply H. right. assumption.
Qed.

Lemma counts_of_other es e k :
  keyf e <> k -> counts_of (es ++ [e]) k = counts_of es k.
Proof.
  intros H. unfold counts_of. now rewrite !tally_other.
Qed.

Lemma counts_of_absent es k :
  ~ In k (map keyf es) -> counts_of es k = default_counts.
Proof.
  intros H. unfold counts_of. now rewrite !tally_absent.
Qed.

(** The count dictionary of the key of a new entry. *)
Lemma counts_of_bump es e :
  match Dict.get str_eqb (status e) (counts_of es (keyf e)) with
  | Some n =>
      is_status (status e) = true /\
      Dict.set str_eqb (status e) (n + 1) (counts_of es (keyf e))
      = counts_of (es ++ [e]) (keyf e)
  | None => is_status (status e) = false
  end.
Proof.
  unfold counts_of, is_status, status_names.
  rewrite !tally_snoc, !keqb_refl. cbn [andb Dict.get Dict.set existsb].
  rewrite (str_eqb_sym "destroyed" (status e)),
    (str_eqb_sym "abandoned" (status e)),
    (str_eqb_sym "captured" (status e)),
    (str_eqb_sym "damaged" (status e)).
  generalize (keyf e) as k. generalize (status e) as s. intros s k.
  destruct (str_eqb s "destroyed") eqn:E1.
  { apply str_eqb_eq in E1. subst s. split; [reflexivity|].
    cbn. repeat f_equal; lia. }
  destruct (str_eqb s "abandoned") eqn:E2.
  { apply str_eqb_eq in E2. subst s. split; [reflexivity|].
    cbn. repeat f_equal; lia. }
  destruct (str_eqb s "captured") eqn:E3.
  { apply str_eqb_eq in E3. subst s. split; [reflexivity|].
    cbn. repeat f_equal; lia. }
  destruct (str_eqb s "damaged") eqn:E4.
  { apply str_eqb_eq in E4. subst s. split; [reflexivity|].
    cbn. repeat f_equal; lia. }
  reflexivity.
Qed.
End Grouping.

Lemma is_status_cases (s : str) :
  is_status s = true ->
  s = ("destroyed" : str) \/ s = ("abandoned" : str) \/
  s = ("captured" : str) \/ s = ("damaged" : str).
Proof.
  unfold is_status, status_names. cbn [existsb].
  rewrite !orb_true_iff, !str_eqb_eq. intuition discriminate.
Qed.

Section GroupingSpec.
Context {K : Type} (keqb : K -> K -> bool).
Hypothesis keqb_eq : forall a b, keqb a b = true <-> a = b.
Variable keyf : EquipmentEntry -> K.

Local Notation "'pairs' f ks" := (map (fun k => (k, f k)) ks)
  (at level 10, f at level 9, ks at level 9, only parsing).

Lemma get_pairs {V : Type} (f : K -> V) k ks :
  Dict.get keqb k (pairs f ks) =
  if existsb (fun k' => keqb k' k) ks then Some (f k) else None.
Proof.
  induction ks as [|k' ks IH]; simpl; [reflexivity|].
  destruct (keqb k' k) eqn:E; simpl; [|exact IH].
  apply keqb_eq in E. now subst.
Qed.

Lemma set_pairs_in {V : Type} (f f' : K -> V) k ks :
  NoDup ks -> In k ks ->
  (forall k', k' <> k -> f' k' = f k') ->
  Dict.set keqb k (f' k) (pairs f ks) = pairs f' ks.
Proof.
  intros Hnd Hin Hf. induction ks as [|k' ks IH]; [contradiction|].
  inversion Hnd as [|? ? Hk' Hnd']; subst. simpl.
  destruct (keqb k' k) eqn:E.
  - apply keqb_eq in E. subst k'. f_equal.
    apply map_ext_in. intros a Ha. f_equal. symmetry. apply Hf.
    intros ->. contradiction.
  - assert (k' <> k) as Hne.
    { intros ->. rewrite (proj2 (keqb_eq k k) eq_refl) in E. discriminate. }
    rewrite (Hf k' Hne). f_equal. apply IH; [assumption|].
    destruct Hin; [contradiction | assumption].
Qed.

Lemma set_pairs_new {V : Type} (f : K -> V) k v ks :
  ~ In k ks -> Dict.set keqb k v (pairs f ks) = pairs f ks ++ [(k, v)].
Proof.
  intros Hin. induction ks as [|k' ks IH]; [reflexivity|]. simpl.
  destruct (keqb k' k) eqn:E.
  - apply keqb_eq in E. subst. exfalso. apply Hin. left. reflexivity.
  - f_equal. apply IH. intros H. apply Hin. right. assumption.
Qed.

(** One round of the grouping loop on the dictionary of the entries seen
    so far. *)
Lemma bump_grouped_of es e :
  bump keqb (keyf e) (status e) (grouped_of keqb keyf es) =
  if is_status (status e)
  then Some (grouped_of keqb keyf (es ++ [e])) else None.
Proof.
  pose proof (counts_of_bump keqb keqb_eq keyf es e) as Hb.
  pose proof (keys_of_NoDup keqb keqb_eq keyf es) as Hnd.
  unfold bump, Dict.mem, grouped_of.
  rewrite get_pairs, keys_of_snoc. unfold add_key.
  destruct (existsb (fun k' => keqb k' (keyf e)) (keys_of keqb keyf es))
    eqn:E.
  - rewrite get_pairs, E.
    destruct (Dict.get str_eqb (status e) (counts_of keqb keyf es (keyf e)))
      as [n|]; [|now rewrite Hb].
    destruct Hb as [-> Hset]. rewrite Hset. f_equal.
    apply set_pairs_in; [assumption | |].
    + now apply (existsb_keqb keqb keqb_eq).
    + intros k' Hne. apply counts_of_other; [assumption | congruence].
  - assert (Hnew : ~ In (keyf e) (keys_of keqb keyf es))
      by now apply (existsb_keqb_false keqb keqb_eq).
    assert (Hdef : counts_of keqb keyf es (keyf e) = default_counts).
    { apply counts_of_absent; [assumption|].
      now rewrite <- (keys_of_In keqb keqb_eq). }
    rewrite set_pairs_new by assumption.
    rewrite <- Hdef.
    assert (Hget : forall v : list (str * nat),
              Dict.get keqb (keyf e)
                (pairs (counts_of keqb keyf es) (keys_of keqb keyf es)
                 ++ [(keyf e, v)]) = Some v).
    { intros v. generalize (keys_of keqb keyf es) Hnew.
      induction l as [|k' l IH]; intros Hl; simpl.
      - now rewrite (proj2 (keqb_eq _ _) eq_refl).
      - destruct (keqb k' (keyf e)) eqn:E'.
        + apply keqb_eq in E'. exfalso. apply Hl. now left.
        + apply IH. intros H. apply Hl. now right. }
    rewrite Hget.
    destruct (Dict.get str_eqb (status e) (counts_of keqb keyf es (keyf e)))
      as [n|]; [|now rewrite Hb].
    destruct Hb as [-> Hset]. rewrite Hset. f_equal.
    assert (Hset' : forall v v' : list (str * nat),
              Dict.set keqb (keyf e) v'
                (pairs (counts_of keqb keyf es) (keys_of keqb keyf es)
                 ++ [(keyf e, v)])
              = pairs (counts_of keqb keyf es) (keys_of keqb keyf es)
                ++ [(keyf e, v')]).
    { intros v v'. generalize (keys_of keqb keyf es) Hnew.
      induction l as [|k' l IH]; intros Hl; simpl.
      - now rewrite (proj2 (keqb_eq _ _) eq_refl).
      - destruct (keqb k' (keyf e)) eqn:E'.
        + apply keqb_eq in E'. exfalso. apply Hl. now left.
        + f_equal. apply IH. intros H. apply Hl. now right. }
    rewrite Hset', map_app. simpl. f_equal.
    apply map_ext_in. intros k Hk. f_equal. symmetry.
    apply counts_of_other; [assumption|]. intros <-. contradiction.
Qed.

Lemma group_by_from es done :
  group_by keqb keyf es (grouped_of keqb keyf done) =
  if forallb (fun e => is_status (status e)) es
  then Some (grouped_of keqb keyf (done ++ es)) else None.
Proof.
  revert done; induction es as [|e es IH]; intros done; simpl.
  - now rewrite app_nil_r.
  - rewrite bump_grouped_of.
    destruct (is_status (status e)); simpl; [|reflexivity].
    rewrite IH, <- app_assoc. reflexivity.
Qed.

(** The grouping loop as a whole: [KeyError] unless every status is one of
    the four, else the count dictionary of each key, the keys in the order
    of their first entry. *)
Lemma group_by_spec es :
  group_by keqb keyf es [] =
  if forallb (fun e => is_status (status e)) es
  then Some (grouped_of keqb keyf es) else None.
Proof. exact (group_by_from es []). Qed.

(** An entry of key [k] with one of the four statuses is counted once. *)
Lemma tally_sum es k :
  forallb (fun e => is_status (status e)) es = true ->
  sum_values (counts_of keqb keyf es k) = key_count keqb keyf es k.
Proof.
  unfold sum_values, counts_of, key_count, tally. simpl.
  induction es as [|e es IH]; simpl; [reflexivity|].
  rewrite andb_true_iff. intros [He Hes]. specialize (IH Hes).
  destruct (keqb (keyf e) k); simpl; [|exact IH].
  apply is_status_cases in He. revert He.
  generalize (status e) as s. intros s [-> | [-> | [-> | ->]]];
    simpl; lia.
Qed.
End GroupingSpec.

(** The rows of the two tables, key by key. *)
Definition daily_of (date : str) (es : list EquipmentEntry)
    (k : str * str * str) : DailyRow :=
  let t := tally key3_eqb (Client.daily_key date) es k in
  mkDaily (fst (fst k)) (snd (fst k))
    (t "destroyed") (t "abandoned") (t "captured") (t "damaged")
    (sum_values (counts_of key3_eqb (Client.daily_key date) es k)) (snd k).

Definition totals_of (es : list EquipmentEntry) (k : str * str)
    : TotalsRow :=
  let t := tally key2_eqb Client.totals_key es k in
  mkTotals (fst k) (snd k)
    (t "destroyed") (t "abandoned") (t "captured") (t "damaged")
    (sum_values (counts_of key2_eqb Client.totals_key es k)).

Definition all_status (es : list EquipmentEntry) : bool :=
  forallb (fun e => is_status (status e)) es.

Lemma group_daily_group_by date es g :
  Client.group_daily date es g
  = group_by key3_eqb (Client.daily_key date) es g.
Proof.
  revert g; induction es as [|e es IH]; intros g; simpl; [reflexivity|].
  destruct (bump key3_eqb _ _ g); [apply IH | reflexivity].
Qed.

Lemma group_totals_group_by es g :
  Client.group_totals es g = group_by key2_eqb Client.totals_key es g.
Proof.
  revert g; induction es as [|e es IH]; intros g; simpl; [reflexivity|].
  destruct (bump key2_eqb _ _ g); [apply IH | reflexivity].
Qed.

Lemma rows_of_map {I R : Type} (row : I -> option R) (f : I -> R) items :
  (forall i, In i items -> row i = Some (f i)) ->
  Client.rows_of row items = Some (map f items).
Proof.
  induction items as [|i items IH]; intros H; simpl; [reflexivity|].
  rewrite (H i (or_introl eq_refl)), IH; [reflexivity|].
  intros j Hj. apply H. now right.
Qed.

Lemma generate_daily_count_csv_spec date es :
  Client.generate_daily_count_csv date es =
  if all_status es
  then Some (map (daily_of date es)
               (keys_of key3_eqb (Client.daily_key date) es))
  else None.
Proof.
  unfold Client.generate_daily_count_csv.
  rewrite group_daily_group_by, (group_by_spec _ key3_eqb_eq).
  fold (all_status es). destruct (all_status es); [|reflexivity].
  unfold grouped_of.
  rewrite (rows_of_map _
             (fun i => daily_of date es (fst i))).
  - rewrite map_map. reflexivity.
  - intros [[[c t] d] cs] Hin. apply in_map_iff in Hin.
    destruct Hin as (k & E & _). injection E as -> <-. reflexivity.
Qed.

Lemma generate_totals_by_type_csv_spec es :
  Client.generate_totals_by_type_csv es =
  if all_status es
  then Some (map (totals_of es) (keys_of key2_eqb Client.totals_key es))
  else None.
Proof.
  unfold Client.generate_totals_by_type_csv.
  rewrite group_totals_group_by, (group_by_spec _ key2_eqb_eq).
  fold (all_status es). destruct (all_status es); [|reflexivity].
  unfold grouped_of.
  rewrite (rows_of_map _ (fun i => totals_of es (fst i))).
  - rewrite map_map. reflexivity.
  - intros [[c t] cs] Hin. apply in_map_iff in Hin.
    destruct Hin as (k & E & _). injection E as -> <-. reflexivity.
Qed.

(** The date an entry is counted under: its own, or the current date when
    it has none. *)
Definition entry_date (date : str) (e : EquipmentEntry) : str :=
  match date_recorded e with
  | Some (x :: d) => x :: d
  | _ => date
  end.

(** C6. In every row of the daily-count table [type_total] is the sum of
    the row's four status counts and the number of entries that have the
    row's country, equipment type and date, the date of an entry without one
    being the current date; likewise [total] in every row of the
    totals-by-type table, with the number of entries that have the row's
    country and equipment type.  Both tables are produced exactly when every
    status is one of the four keys of the count dictionaries; any other
    status is a [KeyError]. *)
Theorem row_totals :
  forall date es,
    (forall rows r,
       Client.generate_daily_count_csv date es = Some rows -> In r rows ->
       d_type_total r
       = d_destroyed r + d_abandoned r + d_captured r + d_damaged r /\
       d_type_total r
       = length (filter
                   (fun e =>
                      str_eqb (country e) (d_country r)
                      && str_eqb (equipment_type e) (d_equipment_type r)
                      && str_eqb (entry_date date e) (d_date_recorded r))
                   es)) /\
    (forall rows r,
       Client.generate_totals_by_type_csv es = Some rows -> In r rows ->
       t_total r = t_destroyed r + t_abandoned r + t_captured r + t_damaged r
       /\
       t_total r
       = length (filter
                   (fun e =>
                      str_eqb (country e) (t_country r)
                      && str_eqb (equipment_type e) (t_type r))
                   es)) /\
    ((forall e, In e es -> In (status e) status_names) <->
     (exists rows, Client.generate_daily_count_csv date es = Some rows)) /\
    ((forall e, In e es -> In (status e) status_names) <->
     (exists rows, Client.generate_totals_by_type_csv es = Some rows)).
Proof.
  intros date es.
  assert (Hall : (forall e, In e es -> In (status e) status_names)
                 <-> all_status es = true).
  { unfold all_status. rewrite forallb_forall.
    split; intros H e He; specialize (H e He).
    - unfold is_status. apply existsb_exists. exists (status e).
      split; [assumption | apply str_eqb_refl].
    - unfold is_status in H. apply existsb_exists in H.
      destruct H as (s & Hs & E). apply str_eqb_eq in E. now rewrite E. }
  rewrite generate_daily_count_csv_spec, generate_totals_by_type_csv_spec.
  split; [|split; [|split]].
  - intros rows r. destruct (all_status es) eqn:Hv; [|discriminate].
    intros E Hr. injection E as <-. apply in_map_iff in Hr.
    destruct Hr as ([[c t] d] & <- & _). simpl.
    split.
    + unfold sum_values, counts_of. simpl. lia.
    + rewrite (tally_sum key3_eqb (Client.daily_key date) es (c, t, d) Hv).
      reflexivity.
  - intros rows r. destruct (all_status es) eqn:Hv; [|discriminate].
    intros E Hr. injection E as <-. apply in_map_iff in Hr.
    destruct Hr as ([c t] & <- & _). simpl.
    split.
    + unfold sum_values, counts_of. simpl. lia.
    + rewrite (tally_sum key2_eqb Client.totals_key es (c, t) Hv).
      reflexivity.
  - rewrite Hall. destruct (all_status es).
    + split; [eexists; reflexivity | reflexivity].
    + split; [discriminate | intros [rows E]; discriminate].
  - rewrite Hall. destruct (all_status es).
    + split; [eexists; reflexivity | reflexivity].
    + split; [discriminate | intros [rows E]; discriminate].
Qed.

Lemma row_totals_witness :
  let es := [mkEntry "russia" "T-72" "destroyed" None None;
             mkEntry "russia" "T-72" "captured" None
               (Some ("2024-04-30" : str));
             mkEntry "russia" "T-90" "destroyed" None None;
             mkEntry "ukraine" "T-72" "damaged" None None] in
  let d := mkDaily "russia" "T-72" 1 0 0 0 1 "2024-05-01" in
  let t := mkTotals "russia" "T-72" 1 0 1 0 2 in
  (Client.generate_daily_count_csv "2024-05-01" es
   = Some [d; mkDaily "russia" "T-72" 0 0 1 0 1 "2024-04-30";
           mkDaily "russia" "T-90" 1 0 0 0 1 "2024-05-01";
           mkDaily "ukraine" "T-72" 0 0 0 1 1 "2024-05-01"] /\
   d_type_total d
   = length (filter
               (fun e =>
                  str_eqb (country e) "russia"
                  && str_eqb (equipment_type e) "T-72"
                  && str_eqb (entry_date "2024-05-01" e) "2024-05-01") es)) /\
  (Client.generate_totals_by_type_csv es
   = Some [t; mkTotals "russia" "T-90" 1 0 0 0 1;
           mkTotals "ukraine" "T-72" 0 0 0 1 1] /\
   t_total t
   = length (filter
               (fun e =>
                  str_eqb (country e) "russia"
                  && str_eqb (equipment_type e) "T-72") es)).
Proof.
  intros es d t.
  assert (Ed : Client.generate_daily_count_csv "2024-05-01" es
               = Some [d; mkDaily "russia" "T-72" 0 0 1 0 1 "2024-04-30";
                       mkDaily "russia" "T-90" 1 0 0 0 1 "2024-05-01";
                       mkDaily "ukraine" "T-72" 0 0 0 1 1 "2024-05-01"])
    by (vm_compute; reflexivity).
  assert (Et : Client.generate_totals_by_type_csv es
               = Some [t; mkTotals "russia" "T-90" 1 0 0 0 1;
                       mkTotals "ukraine" "T-72" 0 0 0 1 1])
    by (vm_compute; reflexivity).
  destruct (row_totals "2024-05-01" es) as (Hd & Ht & _).
  split; (split; [assumption|]).
  - exact (proj2 (Hd _ d Ed (or_introl eq_refl))).
  - exact (proj2 (Ht _ t Et (or_introl eq_refl))).
Defined.

Section GroupingPerm.
Context {K : Type} (keqb : K -> K -> bool).
Hypothesis keqb_eq : forall a b, keqb a b = true <-> a = b.
Variable keyf : EquipmentEntry -> K.

Lemma filter_length_perm {A : Type} (p : A -> bool) (l l' : list A) :
  Permutation l l' -> length (filter p l) = length (filter p l').
Proof.
  induction 1 as [|x l l' _ IH|x y l|l l' l'' _ IH1 _ IH2]; simpl.
  - reflexivity.
  - destruct (p x); simpl; congruence.
  - destruct (p x), (p y); reflexivity.
  - congruence.
Qed.

Lemma tally_perm es es' k s :
  Permutation es es' -> tally keqb keyf es k s = tally keqb keyf es' k s.
Proof. apply filter_length_perm. Qed.

Lemma counts_of_perm es es' k :
  Permutation es es' -> counts_of keqb keyf es k = counts_of keqb keyf es' k.
Proof.
  intros H. unfold counts_of. now rewrite !(tally_perm es es' k _ H).
Qed.

Lemma keys_of_perm es es' :
  Permutation es es' ->
  Permutation (keys_of keqb keyf es) (keys_of keqb keyf es').
Proof.
  intros H. apply NoDup_Permutation.
  - now apply keys_of_NoDup.
  - now apply keys_of_NoDup.
  - intros k. rewrite !(keys_of_In keqb keqb_eq).
    split; apply Permutation_in; [|symmetry];
      now apply Permutation_map.
Qed.
End GroupingPerm.

Lemma all_status_perm es es' :
  Permutation es es' -> all_status es = all_status es'.
Proof.
  intros H. unfold all_status.
  destruct (forallb _ es) eqn:E, (forallb _ es') eqn:E'; try reflexivity.
  - rewrite forallb_forall in E.
    assert (forallb (fun e => is_status (status e)) es' = true) as X.
    { apply forallb_forall. intros e He. apply E.
      apply Permutation_in with es'; [now symmetry | assumption]. }
    congruence.
  - rewrite forallb_forall in E'.
    assert (forallb (fun e => is_status (status e)) es = true) as X.
    { apply forallb_forall. intros e He. apply E'.
      apply Permutation_in with es; assumption. }
    congruence.
Qed.

(** Two results of an aggregation that agree up to the order of the rows;
    a [KeyError] on one side is one on the other. *)
Definition same_rows {R : Type} (a b : option (list R)) : Prop :=
  match a, b with
  | Some rows, Some rows' => Permutation rows rows'
  | None, None => True
  | _, _ => False
  end.

Lemma daily_of_perm date es es' k :
  Permutation es es' -> daily_of date es k = daily_of date es' k.
Proof.
  intros H. unfold daily_of.
  rewrite (counts_of_perm key3_eqb _ es es' k H),
    !(tally_perm key3_eqb _ es es' k _ H).
  reflexivity.
Qed.

Lemma totals_of_perm es es' k :
  Permutation es es' -> totals_of es k = totals_of es' k.
Proof.
  intros H. unfold totals_of.
  rewrite (counts_of_perm key2_eqb _ es es' k H),
    !(tally_perm key2_eqb _ es es' k _ H).
  reflexivity.
Qed.

(** C7. Reordering the entries changes neither table but in the order of
    its rows: the rows for the permuted list are a permutation of the rows
    for the list, and the row of a key in one is the row of that key in the
    other, with the same four counts and the same total (a status that
    raises [KeyError] in one order raises it in the other). *)
Theorem aggregation_order_independent :
  forall date es es',
    Permutation es es' ->
    same_rows (Client.generate_daily_count_csv date es)
              (Client.generate_daily_count_csv date es') /\
    same_rows (Client.generate_totals_by_type_csv es)
              (Client.generate_totals_by_type_csv es') /\
    (forall rows rows' r r',
       Client.generate_daily_count_csv date es = Some rows ->
       Client.generate_daily_count_csv date es' = Some rows' ->
       In r rows -> In r' rows' ->
       d_country r = d_country r' ->
       d_equipment_type r = d_equipment_type r' ->
       d_date_recorded r = d_date_recorded r' ->
       r = r') /\
    (forall rows rows' r r',
       Client.generate_totals_by_type_csv es = Some rows ->
       Client.generate_totals_by_type_csv es' = Some rows' ->
       In r rows -> In r' rows' ->
       t_country r = t_country r' -> t_type r = t_type r' ->
       r = r').
Proof.
  intros date es es' H.
  rewrite !generate_daily_count_csv_spec, !generate_totals_by_type_csv_spec.
  rewrite <- (all_status_perm es es' H).
  destruct (all_status es);
    [|repeat split; try exact I; intros; discriminate].
  split; [|split; [|split]].
  - simpl. rewrite (map_ext (daily_of date es) (daily_of date es')).
    + apply Permutation_map. now apply keys_of_perm; [apply key3_eqb_eq|].
    + intros k. now apply daily_of_perm.
  - simpl. rewrite (map_ext (totals_of es) (totals_of es')).
    + apply Permutation_map. now apply keys_of_perm; [apply key2_eqb_eq|].
    + intros k. now apply totals_of_perm.
  - intros rows rows' r r' E E' Hr Hr' Hc Ht Hd.
    injection E as <-. injection E' as <-.
    apply in_map_iff in Hr. destruct Hr as ([[c t] d] & <- & _).
    apply in_map_iff in Hr'. destruct Hr' as ([[c' t'] d'] & <- & _).
    simpl in Hc, Ht, Hd. subst c' t' d'. now apply daily_of_perm.
  - intros rows rows' r r' E E' Hr Hr' Hc Ht.
    injection E as <-. injection E' as <-.
    apply in_map_iff in Hr. destruct Hr as ([c t] & <- & _).
    apply in_map_iff in Hr'. destruct Hr' as ([c' t'] & <- & _).
    simpl in Hc, Ht. subst c' t'. now apply totals_of_perm.
Qed.

Lemma aggregation_order_independent_witness :
  let a := mkEntry "russia" "T-72" "destroyed" None None in
  let b := mkEntry "ukraine" "T-64" "damaged" None None in
  same_rows (Client.generate_daily_count_csv "2024-05-01" [a; b; a])
            (Client.generate_daily_count_csv "2024-05-01" [b; a; a]).
Proof.
  intros a b.
  refine (proj1 (aggregation_order_independent "2024-05-01"
                   [a; b; a] [b; a; a] _)).
  apply perm_swap.
Defined.

(** ** The two copies *)

(** C10. The parser and the daily-count aggregation of [scraper.py] give
    the results of their copies in [client.py]: the same entries for every
    line, country, category and markup, the same rows (or the same
    [KeyError]) for every list of entries, the date being the same. *)
Theorem copies_agree :
  forall date,
    (forall line ctry cat html_line,
       Scraper.parse_equipment_line date line ctry cat html_line
       = Client.parse_equipment_line date line ctry cat html_line) /\
    (forall es,
       Scraper.generate_daily_count_csv date es
       = Client.generate_daily_count_csv date es).
Proof.
  intros date. split.
  - intros line ctry cat html_line.
    unfold Scraper.parse_equipment_line, Client.parse_equipment_line.
    change Scraper.item_pattern with Client.item_pattern.
    destruct (re_match Client.item_pattern (strip line)) as [m|];
      reflexivity.
  - intros es.
    unfold Scraper.generate_daily_count_csv, Client.generate_daily_count_csv.
    match goal with
    | |- match ?f es [] with _ => _ end = _ =>
        assert (Hg : forall l g, f l g = Client.group_daily date l g)
    end.
    { induction l as [|e l IH]; intros g; simpl; [reflexivity|].
      fold (Client.daily_key date e).
      destruct (bump key3_eqb (Client.daily_key date e) (status e) g);
        [apply IH | reflexivity]. }
    rewrite Hg.
    destruct (Client.group_daily date es []) as [grouped|]; [|reflexivity].
    induction grouped as [|item grouped IH]; [reflexivity|].
    cbn [Client.rows_of]. rewrite <- IH.
    destruct item as [[[c t] d] cs]. reflexivity.
Qed.

(** ** The matcher: equations *)

Section MatcherFacts.
Context {A : Type}.
Variable n0 : nat.

Lemma star_loop_ext g (body : str -> caps -> cont A -> option A) :
  (forall s c (k k' : cont A),
     (forall s' c', k s' c' = k' s' c') -> body s c k = body s c k') ->
  forall fuel s c (k k' : cont A),
    (forall s' c', k s' c' = k' s' c') ->
    star_loop g body k fuel s c = star_loop g body k' fuel s c.
Proof.
  intros Hb fuel. induction fuel as [|fuel IH]; intros s c k k' Hk; simpl.
  - reflexivity.
  - rewrite (Hk s c).
    rewrite (Hb s c _
               (fun s' c' =>
                  if length s' <? length s
                  then star_loop g body k' fuel s' c' else None)).
    + reflexivity.
    + intros s' c'. destruct (length s' <? length s); [|reflexivity].
      now apply IH.
Qed.

Lemma rmatch_ext r :
  forall s c (k k' : cont A),
    (forall s' c', k s' c' = k' s' c') ->
    rmatch n0 r s c k = rmatch n0 r s c k'.
Proof.
  induction r as [| |p|r1 IH1 r2 IH2|r1 IH1 r2 IH2|g r IH|i r IH];
    intros s c k k' Hk; cbn [rmatch].
  - apply Hk.
  - destruct (length s =? n0); [apply Hk | reflexivity].
  - destruct s as [|x s]; [reflexivity|].
    destruct (p x); [apply Hk | reflexivity].
  - apply IH1. intros s' c'. now apply IH2.
  - rewrite (IH1 s c k k' Hk), (IH2 s c k k' Hk). reflexivity.
  - now apply star_loop_ext.
  - apply IH. intros s' c'. apply Hk.
Qed.

Lemma star_loop_fuel g r (k : cont A) :
  forall n m s c,
    length s < n -> length s < m ->
    star_loop g (rmatch n0 r) k n s c = star_loop g (rmatch n0 r) k m s c.
Proof.
  induction n as [|n IH]; intros m s c Hn Hm; [lia|].
  destruct m as [|m]; [lia|]. simpl.
  rewrite (rmatch_ext r s c _
             (fun s' c' =>
                if length s' <? length s
                then star_loop g (rmatch n0 r) k m s' c' else None)).
  - reflexivity.
  - intros s' c'. destruct (length s' <? length s) eqn:E; [|reflexivity].
    apply Nat.ltb_lt in E. apply IH; lia.
Qed.

(** A repetition, one round unfolded. *)
Lemma rmatch_star g r s c (k : cont A) :
  rmatch n0 (Star g r) s c k =
  let again : cont A := fun s' c' =>
    if length s' <? length s then rmatch n0 (Star g r) s' c' k else None in
  if g then
    match rmatch n0 r s c again with
    | Some v => Some v
    | None => k s c
    end
  else
    match k s c with
    | Some v => Some v
    | None => rmatch n0 r s c again
    end.
Proof.
  cbv zeta. cbn [rmatch star_loop].
  rewrite (rmatch_ext r s c _
             (fun s' c' =>
                if length s' <? length s
                then rmatch n0 (Star g r) s' c' k else None)).
  - reflexivity.
  - intros s' c'. destruct (length s' <? length s) eqn:E; [|reflexivity].
    apply Nat.ltb_lt in E. cbn [rmatch]. apply star_loop_fuel; lia.
Qed.

(** Where a run of characters of a class ends. *)
Definition stops (p : ascii -> bool) (s : str) : Prop :=
  match s with
  | [] => True
  | x :: _ => p x = false
  end.

Lemma star_chr_stop g p s c (k : cont A) :
  stops p s -> rmatch n0 (Star g (Chr p)) s c k = k s c.
Proof.
  intros Hs. rewrite rmatch_star. cbv zeta.
  assert (E : forall k' : cont A, rmatch n0 (Chr p) s c k' = None).
  { intros k'. destruct s as [|x s]; simpl; [reflexivity|].
    simpl in Hs. now rewrite Hs. }
  rewrite E. destruct g; [reflexivity|]. now destruct (k s c).
Qed.

Lemma star_chr_cons p x s c (k : cont A) :
  p x = true ->
  rmatch n0 (Star true (Chr p)) (x :: s) c k =
  match rmatch n0 (Star true (Chr p)) s c k with
  | Some v => Some v
  | None => k (x :: s) c
  end.
Proof.
  intros Hp. rewrite rmatch_star. cbv zeta. cbn [rmatch].
  rewrite Hp.
  assert ((length s <? length (x :: s)) = true) as ->
    by (apply Nat.ltb_lt; simpl; lia).
  reflexivity.
Qed.

Definition all_in (p : ascii -> bool) (u : str) : Prop :=
  Forall (fun x => p x = true) u.

(** A greedy run takes the whole run when what follows succeeds there. *)
Lemma greedy_run p u s c (k : cont A) v :
  all_in p u -> stops p s -> k s c = Some v ->
  rmatch n0 (Star true (Chr p)) (u ++ s) c k = Some v.
Proof.
  intros Hu Hs Hk. induction Hu as [|x u Hx Hu IH]; cbn [app].
  - now rewrite star_chr_stop.
  - rewrite star_chr_cons by assumption. now rewrite IH.
Qed.

(** It fails when what follows fails at every point of the run. *)
Lemma greedy_run_none p u s c (k : cont A) :
  all_in p u -> stops p s ->
  (forall a b, u = a ++ b -> k (b ++ s) c = None) ->
  rmatch n0 (Star true (Chr p)) (u ++ s) c k = None.
Proof.
  intros Hu Hs. induction Hu as [|x u Hx Hu IH]; intros Hk; cbn [app].
  - rewrite star_chr_stop by assumption. exact (Hk [] [] eq_refl).
  - rewrite star_chr_cons by assumption. rewrite IH.
    + exact (Hk [] (x :: u) eq_refl).
    + intros a b ->. exact (Hk (x :: a) b eq_refl).
Qed.

(** It gives back the end of the run as far as what follows fails. *)
Lemma greedy_run_head p u s c (k : cont A) :
  all_in p u -> stops p s ->
  (forall a b, u = a ++ b -> a <> [] -> k (b ++ s) c = None) ->
  rmatch n0 (Star true (Chr p)) (u ++ s) c k = k (u ++ s) c.
Proof.
  intros Hu Hs. induction Hu as [|x u Hx Hu IH]; intros Hk; cbn [app].
  - now rewrite star_chr_stop.
  - rewrite star_chr_cons by assumption. rewrite IH.
    + rewrite (Hk [x] u eq_refl); [reflexivity | discriminate].
    + intros a b -> Ha. apply (Hk (x :: a) b eq_refl). discriminate.
Qed.

Lemma greedy_run_back p u1 u2 s c (k : cont A) v :
  all_in p (u1 ++ u2) -> stops p s ->
  k (u2 ++ s) c = Some v ->
  (forall a b, u2 = a ++ b -> a <> [] -> k (b ++ s) c = None) ->
  rmatch n0 (Star true (Chr p)) (u1 ++ u2 ++ s) c k = Some v.
Proof.
  intros Hu Hs Hk Hno. induction u1 as [|x u1 IH]; cbn [app].
  - rewrite greedy_run_head; try assumption.
  - inversion Hu as [|? ? Hx Hu']; subst.
    rewrite star_chr_cons by assumption. now rewrite IH.
Qed.

(** A literal under [re.IGNORECASE] takes any spelling of it. *)
Lemma rmatch_lit_i w : forall u s c (k : cont A),
  lower u = lower w ->
  rmatch n0 (lit_i w) (u ++ s) c k = k s c.
Proof.
  induction w as [|x w IH]; intros [|y u] s c k E; try discriminate.
  - reflexivity.
  - simpl in E. injection E as Ex Eu. simpl.
    rewrite Ex, Ascii.eqb_refl. now apply IH.
Qed.

Lemma rmatch_chr x s c (k : cont A) :
  rmatch n0 (chr x) (x :: s) c k = k s c.
Proof. simpl. now rewrite Ascii.eqb_refl. Qed.
End MatcherFacts.

(** ** Matching step by step *)

Lemma firstn_consumed {T : Type} (u s t : list T) :
  t = u ++ s -> firstn (length t - length s) t = u.
Proof.
  intros ->. rewrite length_app.
  replace (length u + length s - length s) with (length u) by lia.
  replace (length u) with (length u + 0) by lia.
  rewrite firstn_app_2. simpl. apply app_nil_r.
Qed.

Section Steps.
Context {A : Type}.
Variable n0 : nat.

Lemma step_lit_i w u s c (k : cont A) v :
  lower u = lower w -> k s c = Some v ->
  rmatch n0 (lit_i w) (u ++ s) c k = Some v.
Proof. intros E H. now rewrite (rmatch_lit_i n0 w u s c k E). Qed.

Lemma step_chr x s c (k : cont A) v :
  k s c = Some v -> rmatch n0 (chr x) (x :: s) c k = Some v.
Proof. intros H. now rewrite (rmatch_chr n0). Qed.

Lemma step_star p u s c (k : cont A) v :
  all_in p u -> stops p s -> k s c = Some v ->
  rmatch n0 (star (Chr p)) (u ++ s) c k = Some v.
Proof. apply (greedy_run n0). Qed.

Lemma step_plus p x u s c (k : cont A) v :
  p x = true -> all_in p u -> stops p s -> k s c = Some v ->
  rmatch n0 (plus (Chr p)) (x :: u ++ s) c k = Some v.
Proof.
  intros Hx Hu Hs Hk. unfold plus. cbn [rmatch]. rewrite Hx.
  now apply (greedy_run n0).
Qed.

Lemma fail_chr x s c (k : cont A) :
  match s with [] => True | y :: _ => x <> y end ->
  rmatch n0 (chr x) s c k = None.
Proof.
  destruct s as [|y s]; [reflexivity|]. intros H. simpl.
  destruct (Ascii.eqb x y) eqn:E; [|reflexivity].
  apply Ascii.eqb_eq in E. contradiction.
Qed.

Lemma fail_plus p s c (k : cont A) :
  stops p s -> rmatch n0 (plus (Chr p)) s c k = None.
Proof.
  intros H. unfold plus. cbn [rmatch].
  destruct s as [|y s]; [reflexivity|]. simpl in H. now rewrite H.
Qed.
End Steps.

(** The alternation of the four status words takes any spelling of one of
    them, and nothing else of the subject. *)
Lemma lower_eq_cons x w u :
  lower u = x :: w ->
  exists y u', u = y :: u' /\ lower_char y = x /\ lower u' = w.
Proof.
  destruct u as [|y u']; [discriminate|]. simpl. intros E.
  injection E as E1 E2. now exists y, u'.
Qed.

Lemma lower_eq_nil u : lower u = [] -> u = [].
Proof. destruct u; [reflexivity | discriminate]. Qed.

Ltac spell H :=
  repeat (let y := fresh "y" in let E := fresh "E" in
          apply lower_eq_cons in H; destruct H as (y & ? & -> & E & H));
  apply lower_eq_nil in H; subst.

Lemma step_status_alt {A : Type} n0 w s c (k : cont A) :
  is_status (lower w) = true ->
  rmatch n0 Client.status_alt (w ++ s) c k = k s c.
Proof.
  intros H. apply is_status_cases in H.
  unfold Client.status_alt. cbn [rmatch].
  destruct H as [H | [H | [H | H]]]; assert (Hw := H).
  - rewrite (rmatch_lit_i n0 "destroyed" w s c k Hw).
    spell H. simpl.
    repeat match goal with
           | E : lower_char _ = _ |- _ => rewrite E; clear E
           end.
    simpl. destruct (k s c); reflexivity.
  - rewrite (rmatch_lit_i n0 "abandoned" w s c k Hw).
    spell H. simpl.
    repeat match goal with
           | E : lower_char _ = _ |- _ => rewrite E; clear E
           end.
    simpl. destruct (k s c); reflexivity.
  - rewrite (rmatch_lit_i n0 "captured" w s c k Hw).
    spell H. simpl.
    repeat match goal with
           | E : lower_char _ = _ |- _ => rewrite E; clear E
           end.
    simpl. destruct (k s c); reflexivity.
  - rewrite (rmatch_lit_i n0 "damaged" w s c k Hw).
    spell H. simpl.
    repeat match goal with
           | E : lower_char _ = _ |- _ => rewrite E; clear E
           end.
    simpl. destruct (k s c); reflexivity.
Qed.

(** ** Characters of the patterns *)

Lemma lower_space y : isspace y = true -> isspace (lower_char y) = true.
Proof. ascii_cases y; vm_compute; auto. Qed.

Lemma lower_digit y : isdigit y = true -> isdigit (lower_char y) = true.
Proof. ascii_cases y; vm_compute; auto. Qed.

Lemma status_word_head w :
  is_status (lower w) = true ->
  exists y w', w = y :: w' /\ isspace y = false /\ isdigit y = false.
Proof.
  intros H. apply is_status_cases in H.
  destruct w as [|y w'];
    [destruct H as [H | [H | [H | H]]]; discriminate|].
  exists y, w'. split; [reflexivity|].
  assert (Hy : lower_char y = "d"%char \/ lower_char y = "a"%char
               \/ lower_char y = "c"%char).
  { destruct H as [H | [H | [H | H]]]; injection H as H _; auto. }
  split.
  - destruct (isspace y) eqn:E; [|reflexivity].
    apply lower_space in E.
    destruct Hy as [Hy | [Hy | Hy]]; rewrite Hy in E; discriminate.
  - destruct (isdigit y) eqn:E; [|reflexivity].
    apply lower_digit in E.
    destruct Hy as [Hy | [Hy | Hy]]; rewrite Hy in E; discriminate.
Qed.

Lemma all_in_not (x : ascii) (u : str) :
  ~ In x u -> all_in (fun c => negb (Ascii.eqb c x)) u.
Proof.
  intros H. apply Forall_forall. intros y Hy.
  destruct (Ascii.eqb y x) eqn:E; [|reflexivity].
  apply Ascii.eqb_eq in E. subst. contradiction.
Qed.

(** ** Scanning with [finditer] *)

Lemma finditer_fuel n0 r :
  forall n m s,
    length s < n -> length s < m ->
    finditer_from n n0 r s = finditer_from m n0 r s.
Proof.
  induction n as [|n IH]; intros m s Hn Hm; [lia|].
  destruct m as [|m]; [lia|]. simpl.
  destruct (match_at n0 r s) as [[c s']|].
  - destruct (length s' <? length s) eqn:E; [|reflexivity].
    apply Nat.ltb_lt in E. f_equal. apply IH; lia.
  - destruct s as [|x t]; [reflexivity|]. simpl in *. apply IH; lia.
Qed.

Lemma finditer_unfold fuel n0 r s :
  finditer_from (S fuel) n0 r s =
  match match_at n0 r s with
  | Some (c, s') =>
      if length s' <? length s
      then c :: finditer_from fuel n0 r s'
      else [c]
  | None =>
      match s with
      | [] => []
      | _ :: t => finditer_from fuel n0 r t
      end
  end.
Proof. reflexivity. Qed.

Lemma finditer_hit n0 r s c s' fuel :
  match_at n0 r s = Some (c, s') -> length s' < length s ->
  length s < fuel ->
  finditer_from fuel n0 r s = c :: finditer_from (S (length s')) n0 r s'.
Proof.
  intros Hm Hl Hf. destruct fuel as [|fuel]; [lia|].
  rewrite finditer_unfold, Hm.
  apply Nat.ltb_lt in Hl as E. rewrite E. f_equal.
  apply finditer_fuel; lia.
Qed.

Lemma finditer_miss n0 r x s fuel :
  match_at n0 r (x :: s) = None -> length (x :: s) < fuel ->
  finditer_from fuel n0 r (x :: s) = finditer_from (S (length s)) n0 r s.
Proof.
  intros Hm Hf. destruct fuel as [|fuel]; [simpl in Hf; lia|].
  rewrite finditer_unfold, Hm. apply finditer_fuel; simpl in *; lia.
Qed.

(** ** Markers of the plain text *)

(** A marker: the first number, the further numbers with the white space
    before and after their commas, the white space around the last comma
    and the status word as it is spelt. *)
Record marker : Type := mkMarker {
  m_first : str;
  m_more : list (str * str * str);
  m_pre : str;
  m_post : str;
  m_word : str
}.

Definition render_number (x : str * str * str) : str :=
  let '(a, b, n) := x in a ++ ","%char :: b ++ n.

Definition render_more (more : list (str * str * str)) : str :=
  flat_map render_number more.

Definition render_marker (k : marker) : str :=
  "("%char :: (m_first k ++ render_more (m_more k)) ++ m_pre k
  ++ ","%char :: m_post k ++ m_word k ++ [")"%char].

Definition number_ok (n : str) : Prop := n <> [] /\ all_in isdigit n.

Definition more_ok (x : str * str * str) : Prop :=
  let '(a, b, n) := x in
  all_in isspace a /\ all_in isspace b /\ number_ok n.

Definition marker_ok (k : marker) : Prop :=
  number_ok (m_first k) /\ Forall more_ok (m_more k) /\
  all_in isspace (m_pre k) /\ all_in isspace (m_post k) /\
  is_status (lower (m_word k)) = true.

Definition marker_entries (date ctry name : str) (k : marker)
    : list EquipmentEntry :=
  repeat (mkEntry (lower ctry) name (lower (m_word k)) None (Some date))
    (S (length (m_more k))).

(** The repeated part of the status pattern. *)
Definition more_numbers : regex :=
  (star space ;; chr "," ;; star space ;; plus digit)%re.

Lemma space_not_digit x : isspace x = true -> isdigit x = false.
Proof. ascii_cases x; vm_compute; intros H; congruence. Qed.

Lemma digit_not_space x : isdigit x = true -> isspace x = false.
Proof. ascii_cases x; vm_compute; intros H; congruence. Qed.

Lemma space_not_comma x : isspace x = true -> ","%char <> x.
Proof. ascii_cases x; vm_compute; intros H; congruence. Qed.

(** What may follow a number inside a marker: white space or a comma. *)
Definition after_number (s : str) : Prop :=
  match s with
  | [] => True
  | x :: _ => isspace x = true \/ x = ","%char
  end.

Lemma after_number_stops s : after_number s -> stops isdigit s.
Proof.
  destruct s as [|x s]; simpl; [trivial|].
  intros [H | ->]; [now apply space_not_digit | reflexivity].
Qed.

Lemma after_number_spaces a s :
  all_in isspace a -> after_number (a ++ ","%char :: s).
Proof.
  destruct a as [|x a]; simpl; [now right|].
  intros H. inversion H; subst. now left.
Qed.

Lemma render_more_after more a s :
  Forall more_ok more -> all_in isspace a ->
  after_number (render_more more ++ a ++ ","%char :: s).
Proof.
  intros Hm Ha. destruct more as [|[[a' b'] n'] more]; simpl.
  - now apply after_number_spaces.
  - inversion Hm as [|? ? Hx _]; subst. destruct Hx as (Ha' & _).
    rewrite <- !app_assoc. cbn [app]. now apply after_number_spaces.
Qed.

Section MarkerSteps.
Context {A : Type}.
Variable n0 : nat.

(** The repeated part does not match at the last comma of a marker. *)
Lemma more_numbers_last pre post y s c (k : cont A) :
  all_in isspace pre -> all_in isspace post ->
  isdigit y = false -> isspace y = false ->
  rmatch n0 more_numbers (pre ++ ","%char :: post ++ y :: s) c k = None.
Proof.
  intros Hpre Hpost Hd Hs. unfold more_numbers. cbn [rmatch].
  apply (greedy_run_none n0 isspace); [assumption | reflexivity |].
  intros a b ->.
  destruct b as [|x b].
  - cbn [app]. rewrite rmatch_chr.
    apply (greedy_run_none n0 isspace); [assumption | exact Hs |].
    intros a' b' ->. apply fail_plus.
    destruct b' as [|x' b']; [exact Hd|].
    apply Forall_app in Hpost. destruct Hpost as [_ Hb].
    inversion Hb; subst. simpl. now apply space_not_digit.
  - apply fail_chr. cbn [app].
    apply Forall_app in Hpre. destruct Hpre as [_ Hb].
    inversion Hb; subst. now apply space_not_comma.
Qed.

(** The repetition takes all the further numbers of a marker. *)
Lemma more_numbers_all more : forall s c (k : cont A) v,
  Forall more_ok more ->
  (exists pre post y t,
     s = pre ++ ","%char :: post ++ y :: t /\
     all_in isspace pre /\ all_in isspace post /\
     isdigit y = false /\ isspace y = false) ->
  k s c = Some v ->
  rmatch n0 (star more_numbers) (render_more more ++ s) c k = Some v.
Proof.
  induction more as [|[[a b] n] more IH]; intros s c k v Hm Hs Hk.
  - cbn [render_more flat_map app]. unfold star. rewrite rmatch_star.
    cbv zeta.
    destruct Hs as (pre & post & y & t & -> & Hpre & Hpost & Hd & Hy).
    rewrite more_numbers_last by assumption. exact Hk.
  - inversion Hm as [|? ? Hx Hm']; subst.
    destruct Hx as (Ha & Hb & Hn0 & Hn).
    destruct n as [|d n]; [congruence|]. inversion Hn; subst.
    cbn [render_more flat_map render_number]. fold (render_more more).
    unfold star. rewrite rmatch_star. cbv zeta.
    assert (Hafter : after_number (render_more more ++ s)).
    { destruct Hs as (pre & post & y & t & -> & Hpre & _).
      now apply render_more_after. }
    match goal with
    | |- match ?body with _ => _ end = _ =>
        assert (Hbody : body = Some v); [|now rewrite Hbody]
    end.
    unfold more_numbers at 1. cbn [rmatch].
    rewrite <- !app_assoc. cbn [app].
    apply (step_star n0 isspace); [assumption | reflexivity |].
    apply step_chr.
    rewrite <- !app_assoc.
    apply (step_star n0 isspace);
      [assumption | simpl; now apply digit_not_space |].
    cbn [app].
    apply (step_plus n0 isdigit);
      [assumption | assumption | now apply after_number_stops |].
    match goal with
    | |- (if ?t then _ else _) = _ => assert (t = true) as ->
    end.
    { apply Nat.ltb_lt.
      repeat (rewrite !length_app; cbn [length]). lia. }
    now apply IH.
Qed.
End MarkerSteps.

(** The status pattern at the start of a well-formed marker takes the
    marker and nothing more; group 1 is the list of numbers. *)
Lemma status_pattern_marker n0 k s :
  marker_ok k ->
  match_at n0 Client.status_pattern (render_marker k ++ s) =
  Some ([(0, render_marker k); (2, m_word k);
         (1, m_first k ++ render_more (m_more k))], s).
Proof.
  destruct k as [first more pre post w]. unfold marker_ok, render_marker.
  cbn [m_first m_more m_pre m_post m_word].
  intros ((Hf0 & Hf) & Hm & Hpre & Hpost & Hw).
  destruct first as [|d ds]; [congruence|]. inversion Hf; subst.
  destruct (status_word_head w Hw) as (y & w' & Ew & Hys & Hyd).
  set (T := pre ++ ","%char :: post ++ w ++ ")"%char :: s).
  set (whole := "("%char :: ((d :: ds) ++ render_more more) ++ pre
                ++ ","%char :: post ++ w ++ [")"%char]).
  assert (Ewhole : whole ++ s
                   = "("%char :: d :: ds ++ render_more more ++ T).
  { unfold whole, T. cbn [app].
    repeat (rewrite <- ?app_assoc; cbn [app]; f_equal). }
  unfold match_at, Client.status_pattern. cbn [rmatch].
  rewrite Ewhole.
  apply step_chr.
  apply (step_plus n0 isdigit); [assumption | assumption | |].
  { apply after_number_stops. unfold T. now apply render_more_after. }
  change (star (star space ;; chr "," ;; star space ;; plus digit)%re)
    with (star more_numbers).
  apply more_numbers_all; [assumption | |].
  { exists pre, post, y, (w' ++ ")"%char :: s). unfold T. rewrite Ew.
    repeat split; assumption. }
  unfold T.
  apply (step_star n0 isspace); [assumption | reflexivity |].
  apply step_chr.
  apply (step_star n0 isspace); [assumption | rewrite Ew; exact Hys |].
  rewrite step_status_alt by assumption.
  apply step_chr. unfold finish.
  rewrite (firstn_consumed w (")"%char :: s)) by reflexivity.
  rewrite (firstn_consumed ((d :: ds) ++ render_more more)
             (pre ++ ","%char :: post ++ w ++ ")"%char :: s))
    by (rewrite <- app_assoc; reflexivity).
  rewrite (firstn_consumed whole s) by (symmetry; exact Ewhole).
  reflexivity.
Qed.

(** ** Counting the numbers of a marker *)

Lemma number_pattern_hit n0 d ds s :
  isdigit d = true -> all_in isdigit ds -> stops isdigit s ->
  match_at n0 Client.number_pattern (d :: ds ++ s)
  = Some ([(0, d :: ds)], s).
Proof.
  intros Hd Hds Hs. unfold match_at, Client.number_pattern.
  cbn [rmatch]. apply (step_plus n0 isdigit); try assumption.
  unfold finish.
  rewrite (firstn_consumed (d :: ds) s) by reflexivity. reflexivity.
Qed.

Lemma number_pattern_miss n0 s :
  stops isdigit s -> match_at n0 Client.number_pattern s = None.
Proof.
  intros Hs. unfold match_at, Client.number_pattern. cbn [rmatch].
  now apply fail_plus.
Qed.

Lemma finditer_no_digit n0 u : forall s fuel,
  Forall (fun x => isdigit x = false) u ->
  length (u ++ s) < fuel ->
  finditer_from fuel n0 Client.number_pattern (u ++ s)
  = finditer_from (S (length s)) n0 Client.number_pattern s.
Proof.
  induction u as [|x u IH]; intros s fuel Hu Hf.
  - apply finditer_fuel; simpl in *; lia.
  - inversion Hu; subst. cbn [app]. rewrite finditer_miss.
    + apply IH; [assumption | lia].
    + now apply number_pattern_miss.
    + exact Hf.
Qed.

Lemma spaces_no_digit a :
  all_in isspace a -> Forall (fun x => isdigit x = false) a.
Proof.
  intros H. eapply Forall_impl; [|exact H].
  intros x. apply space_not_digit.
Qed.

Lemma count_numbers n0 more : forall n fuel,
  number_ok n -> Forall more_ok more ->
  length (n ++ render_more more) < fuel ->
  length (finditer_from fuel n0 Client.number_pattern
            (n ++ render_more more))
  = S (length more).
Proof.
  induction more as [|[[a b] n'] more IH]; intros n fuel (Hn0 & Hn) Hm Hf;
    destruct n as [|d ds]; try congruence; inversion Hn; subst.
  - cbn [render_more flat_map] in *.
    rewrite (finditer_hit n0 _ _ [(0, d :: ds)] [] fuel);
      [reflexivity | | simpl; lia | exact Hf].
    now apply number_pattern_hit.
  - inversion Hm as [|? ? Hx Hm']; subst.
    destruct Hx as (Ha & Hb & Hn').
    cbn [render_more flat_map render_number] in *. fold (render_more more) in *.
    assert (Hs : stops isdigit
                   ((a ++ ","%char :: b ++ n') ++ render_more more)).
    { apply after_number_stops. rewrite <- app_assoc.
      now apply after_number_spaces. }
    rewrite (finditer_hit n0 _ _ [(0, d :: ds)]
               ((a ++ ","%char :: b ++ n') ++ render_more more) fuel);
      [| now apply number_pattern_hit
       | cbn [app length]; rewrite (length_app ds); lia | exact Hf].
    cbn [length]. f_equal.
    replace ((a ++ ","%char :: b ++ n') ++ render_more more)
      with ((a ++ ","%char :: b) ++ n' ++ render_more more)
      by (repeat (rewrite <- ?app_assoc; cbn [app]; f_equal)).
    rewrite finditer_no_digit.
    + apply IH; [assumption | assumption | lia].
    + apply Forall_app. split; [now apply spaces_no_digit|].
      constructor; [reflexivity | now apply spaces_no_digit].
    + lia.
Qed.

Lemma findall_numbers k :
  marker_ok k ->
  length (findall Client.number_pattern
            (m_first k ++ render_more (m_more k)))
  = S (length (m_more k)).
Proof.
  intros (Hf & Hm & _). unfold findall, finditer.
  rewrite length_map. apply count_numbers; [assumption | assumption | lia].
Qed.

Lemma render_marker_length k s : length s < length (render_marker k ++ s).
Proof. rewrite length_app. unfold render_marker. simpl. lia. Qed.

(** ** What a match is *)

(** [matches n0 r s c s' c']: the pattern [r] can take the head of [s] up
    to [s'], turning the captures [c] into [c']. *)
Inductive matches (n0 : nat)
    : regex -> str -> caps -> str -> caps -> Prop :=
| M_eps s c : matches n0 Eps s c s c
| M_bol s c : length s = n0 -> matches n0 Bol s c s c
| M_chr p x s c : p x = true -> matches n0 (Chr p) (x :: s) c s c
| M_seq r1 r2 s c s1 c1 s2 c2 :
    matches n0 r1 s c s1 c1 -> matches n0 r2 s1 c1 s2 c2 ->
    matches n0 (Seq r1 r2) s c s2 c2
| M_alt_l r1 r2 s c s' c' :
    matches n0 r1 s c s' c' -> matches n0 (Alt r1 r2) s c s' c'
| M_alt_r r1 r2 s c s' c' :
    matches n0 r2 s c s' c' -> matches n0 (Alt r1 r2) s c s' c'
| M_star_0 g r s c : matches n0 (Star g r) s c s c
| M_star_S g r s c s1 c1 s2 c2 :
    matches n0 r s c s1 c1 -> matches n0 (Star g r) s1 c1 s2 c2 ->
    matches n0 (Star g r) s c s2 c2
| M_group i r s c s' c' :
    matches n0 r s c s' c' ->
    matches n0 (Group i r) s c s'
      ((i, firstn (length s - length s') s) :: c').

Section Soundness.
Context {A : Type}.
Variable n0 : nat.

Lemma star_loop_sound g r :
  (forall s c (k : cont A) v,
     rmatch n0 r s c k = Some v ->
     exists s' c', matches n0 r s c s' c' /\ k s' c' = Some v) ->
  forall fuel s c (k : cont A) v,
    star_loop g (rmatch n0 r) k fuel s c = Some v ->
    exists s' c', matches n0 (Star g r) s c s' c' /\ k s' c' = Some v.
Proof.
  intros Hr. induction fuel as [|fuel IH]; intros s c k v H;
    [discriminate|].
  cbn [star_loop] in H.
  assert (Hbody : forall w,
            rmatch n0 r s c
              (fun s' c' =>
                 if length s' <? length s
                 then star_loop g (rmatch n0 r) k fuel s' c' else None)
            = Some w ->
            exists s' c', matches n0 (Star g r) s c s' c'
                          /\ k s' c' = Some w).
  { intros w Hw. apply Hr in Hw. destruct Hw as (s1 & c1 & Hm & Hk).
    destruct (length s1 <? length s); [|discriminate].
    apply IH in Hk. destruct Hk as (s2 & c2 & Hm2 & Hk2).
    exists s2, c2. split; [|assumption]. eapply M_star_S; eassumption. }
  destruct g.
  - destruct (rmatch n0 r s c _) as [w|] eqn:E.
    + injection H as <-. now apply Hbody.
    + exists s, c. split; [constructor | assumption].
  - destruct (k s c) as [w|] eqn:E.
    + injection H as <-. exists s, c. split; [constructor | assumption].
    + now apply Hbody.
Qed.

(** Every result of the matcher comes from a match. *)
Lemma rmatch_sound r : forall s c (k : cont A) v,
  rmatch n0 r s c k = Some v ->
  exists s' c', matches n0 r s c s' c' /\ k s' c' = Some v.
Proof.
  induction r as [| |p|r1 IH1 r2 IH2|r1 IH1 r2 IH2|g r IH|i r IH];
    intros s c k v H; cbn [rmatch] in H.
  - exists s, c. split; [constructor | assumption].
  - destruct (length s =? n0) eqn:E; [|discriminate].
    apply Nat.eqb_eq in E. exists s, c. split; [now constructor|assumption].
  - destruct s as [|x s]; [discriminate|].
    destruct (p x) eqn:E; [|discriminate].
    exists s, c. split; [now constructor | assumption].
  - apply IH1 in H. destruct H as (s1 & c1 & H1 & H).
    apply IH2 in H. destruct H as (s2 & c2 & H2 & H).
    exists s2, c2. split; [|assumption]. eapply M_seq; eassumption.
  - destruct (rmatch n0 r1 s c k) as [w|] eqn:E.
    + injection H as <-. apply IH1 in E. destruct E as (s' & c' & Hm & Hk).
      exists s', c'. split; [now apply M_alt_l | assumption].
    + apply IH2 in H. destruct H as (s' & c' & Hm & Hk).
      exists s', c'. split; [now apply M_alt_r | assumption].
  - eapply star_loop_sound; eassumption.
  - apply IH in H. destruct H as (s' & c' & Hm & Hk).
    eexists s', _. split; [apply M_group; eassumption | exact Hk].
Qed.
End Soundness.

Lemma matches_seq n0 r1 r2 s c s' c' :
  matches n0 (Seq r1 r2) s c s' c' ->
  exists s1 c1, matches n0 r1 s c s1 c1 /\ matches n0 r2 s1 c1 s' c'.
Proof. intros H. inversion H; subst. eauto. Qed.

Lemma matches_chr n0 p s c s' c' :
  matches n0 (Chr p) s c s' c' ->
  c' = c /\ exists x, s = x :: s' /\ p x = true.
Proof. intros H. inversion H; subst. eauto. Qed.

Lemma matches_lit_i n0 w : forall s c s' c',
  matches n0 (lit_i w) s c s' c' ->
  c' = c /\ exists u, s = u ++ s' /\ lower u = lower w.
Proof.
  induction w as [|x w IH]; intros s c s' c' H; cbn [lit_i] in H.
  - inversion H; subst. split; [reflexivity|]. now exists [].
  - apply matches_seq in H. destruct H as (s1 & c1 & H1 & H2).
    apply matches_chr in H1. destruct H1 as (-> & y & -> & Hy).
    apply IH in H2. destruct H2 as (-> & u & -> & Hu).
    split; [reflexivity|]. exists (y :: u). split; [reflexivity|].
    simpl. apply Ascii.eqb_eq in Hy. now rewrite Hy, Hu.
Qed.

Lemma matches_status_alt n0 s c s' c' :
  matches n0 Client.status_alt s c s' c' ->
  c' = c /\ exists u, s = u ++ s' /\ is_status (lower u) = true.
Proof.
  unfold Client.status_alt. intros H.
  assert (Hl : exists w, matches n0 (lit_i w) s c s' c'
                         /\ is_status (lower w) = true).
  { inversion H as [| | | |? ? ? ? ? ? H1|? ? ? ? ? ? H1| | |]; subst;
      [exists ("destroyed" : str); now split|].
    inversion H1 as [| | | |? ? ? ? ? ? H2|? ? ? ? ? ? H2| | |]; subst;
      [exists ("captured" : str); now split|].
    inversion H2 as [| | | |? ? ? ? ? ? H3|? ? ? ? ? ? H3| | |]; subst;
      [exists ("abandoned" : str); now split|].
    exists ("damaged" : str); now split. }
  destruct Hl as (w & Hm & Hw). apply matches_lit_i in Hm.
  destruct Hm as (-> & u & -> & Hu). split; [reflexivity|].
  exists u. split; [reflexivity|]. now rewrite Hu.
Qed.

(** A group holding the alternation of the status words, as both patterns
    end with: the capture is a spelling of one of the four words. *)
Lemma matches_status_group n0 i s c s' c' :
  matches n0 (Group i Client.status_alt) s c s' c' ->
  exists w, c' = (i, w) :: c /\ is_status (lower w) = true.
Proof.
  intros H. inversion H as [| | | | | | | |? ? ? ? ? ? H1]; subst.
  apply matches_status_alt in H1. destruct H1 as (-> & u & -> & Hu).
  exists u. split; [|assumption].
  now rewrite (firstn_consumed u s') by reflexivity.
Qed.

Ltac peel H :=
  let s1 := fresh "s" in let c1 := fresh "c" in let H1 := fresh "H" in
  apply matches_seq in H; destruct H as (s1 & c1 & H1 & H); clear H1.

Lemma link_pattern_status n0 s c s' :
  match_at n0 Client.link_pattern s = Some (c, s') ->
  is_status (lower (group 3 c)) = true.
Proof.
  unfold match_at. intros H. apply rmatch_sound in H.
  destruct H as (s1 & c1 & Hm & Hk). injection Hk as <- <-.
  inversion Hm as [| | | | | | | |? ? ? ? ? ? H]; subst. clear Hm.
  unfold Client.link_pattern in H.
  do 12 peel H.
  apply matches_seq in H. destruct H as (sa & ca & H1 & H).
  apply matches_status_group in H1. destruct H1 as (w & -> & Hw).
  apply matches_seq in H. destruct H as (sb & cb & H1 & H).
  apply matches_chr in H1. destruct H1 as (-> & _).
  apply matches_lit_i in H. destruct H as (-> & _).
  exact Hw.
Qed.

Lemma status_pattern_status n0 s c s' :
  match_at n0 Client.status_pattern s = Some (c, s') ->
  is_status (lower (group 2 c)) = true.
Proof.
  unfold match_at. intros H. apply rmatch_sound in H.
  destruct H as (s1 & c1 & Hm & Hk). injection Hk as <- <-.
  inversion Hm as [| | | | | | | |? ? ? ? ? ? H]; subst. clear Hm.
  unfold Client.status_pattern in H.
  do 5 peel H.
  apply matches_seq in H. destruct H as (sa & ca & H1 & H).
  apply matches_status_group in H1. destruct H1 as (w & -> & Hw).
  apply matches_chr in H. destruct H as (-> & _).
  exact Hw.
Qed.

Lemma finditer_from_In n0 r c : forall fuel s,
  In c (finditer_from fuel n0 r s) ->
  exists t s', match_at n0 r t = Some (c, s').
Proof.
  induction fuel as [|fuel IH]; intros s H; [destruct H|].
  rewrite finditer_unfold in H.
  destruct (match_at n0 r s) as [[c0 s0]|] eqn:E.
  - destruct (length s0 <? length s).
    + destruct H as [<- | H]; [now exists s, s0 | now apply IH in H].
    + destruct H as [<- | []]. now exists s, s0.
  - destruct s as [|x t]; [destruct H | now apply IH in H].
Qed.

(** ** The entries of [parse_equipment_line] *)

Lemma is_status_In s : is_status s = true -> In s status_names.
Proof.
  unfold is_status. intros H. apply existsb_exists in H.
  destruct H as (w & Hw & E). apply str_eqb_eq in E. now subst.
Qed.

(** What holds of every entry the parser makes. *)
Definition entry_ok (date ctry name : str) (e : EquipmentEntry) : Prop :=
  In (status e) status_names /\
  country e = lower ctry /\
  equipment_type e = name /\
  date_recorded e = Some date /\
  (url e = None \/ exists u, url e = Some u /\ startswith "http" u = true).

Lemma markup_yield_ok date ctry name html_line e :
  In e (markup_yield date ctry name html_line) ->
  entry_ok date ctry name e.
Proof.
  destruct html_line as [[|x h]|]; try (intros []).
  unfold markup_yield. rewrite markup_tier_map. cbn [app]. intros H.
  apply in_map_iff in H. destruct H as (m & <- & Hm).
  apply finditer_from_In in Hm. destruct Hm as (t & s' & Hm).
  apply link_pattern_status in Hm.
  unfold entry_ok, Client.link_entry. cbn [status country equipment_type
    date_recorded url].
  repeat split; try reflexivity.
  - now apply is_status_In.
  - destruct (startswith "http" (group 1 m)) eqn:E; [|now left].
    right. eexists. split; [reflexivity | exact E].
Qed.

Lemma text_yield_ok date ctry name line e :
  In e (text_yield date ctry name line) -> entry_ok date ctry name e.
Proof.
  unfold text_yield. rewrite text_tier_flat_map. cbn [app]. intros H.
  apply in_flat_map in H. destruct H as (m & Hm & He).
  apply repeat_spec in He. subst e.
  apply finditer_from_In in Hm. destruct Hm as (t & s' & Hm).
  apply status_pattern_status in Hm.
  unfold entry_ok. cbn [status country equipment_type date_recorded url].
  repeat split; try reflexivity; [now apply is_status_In | now left].
Qed.

(** C5, as the code has it.  Every entry made by [parse_equipment_line]
    has one of the four status words as its status, the lower-cased country
    argument as its country (not empty when the argument is not), the
    trimmed name captured by the shape check as its equipment type and
    the current date; its reference is absent or starts with [http].  An
    entry is the record of these five fields and nothing else: there is no
    count field, a count is the number of equal entries. *)
Theorem parse_equipment_line_entries :
  forall date line ctry cat html_line e,
    In e (Client.parse_equipment_line date line ctry cat html_line) ->
    In (status e) status_names /\
    country e = lower ctry /\
    (ctry <> [] -> country e <> []) /\
    (exists m, re_match Client.item_pattern (strip line) = Some m /\
               equipment_type e = strip (group 2 m)) /\
    date_recorded e = Some date /\
    (url e = None \/ exists u, url e = Some u /\ startswith "http" u = true)
    /\ e = mkEntry (country e) (equipment_type e) (status e) (url e)
             (date_recorded e).
Proof.
  intros date line ctry cat html_line e He.
  destruct (re_match Client.item_pattern (strip line)) as [m|] eqn:Hm.
  2:{ unfold Client.parse_equipment_line in He. rewrite Hm in He.
      destruct He. }
  assert (Hok : entry_ok date ctry (strip (group 2 m)) e).
  { rewrite (parse_equipment_line_cases _ _ _ _ _ _ Hm) in He.
    cbv zeta in He.
    destruct (markup_yield date ctry (strip (group 2 m)) html_line)
      as [|e1 mk] eqn:Emk.
    - destruct (text_yield date ctry (strip (group 2 m)) line)
        as [|e2 tx] eqn:Etx.
      + apply repeat_spec in He. subst e. unfold entry_ok, destroyed_entry.
        cbn [status country equipment_type date_recorded url].
        repeat split; try reflexivity; [now left | now left].
      + apply (text_yield_ok _ _ _ line). now rewrite Etx.
    - apply (markup_yield_ok _ _ _ html_line). now rewrite Emk. }
  destruct Hok as (Hs & Hc & Ht & Hd & Hu).
  repeat split; try assumption.
  - intros Hne. rewrite Hc. now apply lower_nonempty.
  - exists m. now split.
  - now destruct e.
Qed.

Lemma parse_equipment_line_entries_witness :
  In (status (mkEntry "russia" "T-72" "captured" None
                (Some ("2024-05-01" : str)))) status_names.
Proof.
  refine (proj1 (parse_equipment_line_entries "2024-05-01"
                   "2 T-72: (1, Captured)" "Russia" "Tanks" None
                   (mkEntry "russia" "T-72" "captured" None
                      (Some ("2024-05-01" : str))) _)).
  vm_compute. left. reflexivity.
Defined.

(** The claim as the spec words it fails for the country and for the
    equipment type: an empty country argument gives entries with an empty
    country, and the line "5  :" has the item shape with a name of one
    space, trimmed to nothing. *)
Lemma parse_equipment_line_empty_fields :
  (exists e,
     In e (Client.parse_equipment_line "2024-05-01" "5 Tanks:" "" "Tanks"
             None) /\ country e = []) /\
  (exists e,
     In e (Client.parse_equipment_line "2024-05-01" "5  :" "russia" "Tanks"
             None) /\ equipment_type e = []).
Proof.
  split; eexists; (split; [vm_compute; left; reflexivity | reflexivity]).
Qed.

(** ** What a match of the status pattern is *)

Lemma matches_group n0 i r s c s' c' :
  matches n0 (Group i r) s c s' c' ->
  exists c1,
    matches n0 r s c s' c1 /\
    c' = (i, firstn (length s - length s') s) :: c1.
Proof. intros H. inversion H; subst. eauto. Qed.

Lemma matches_star_chr n0 g p s c s' c' :
  matches n0 (Star g (Chr p)) s c s' c' ->
  c' = c /\ exists u, s = u ++ s' /\ all_in p u.
Proof.
  intros H. remember (Star g (Chr p)) as r eqn:Er.
  induction H as [| | | | | |g0 r0 s c|g0 r0 s c s1 c1 s2 c2 H1 IH1 H2 IH2|];
    try discriminate.
  - split; [reflexivity|]. exists []. split; [reflexivity | constructor].
  - injection Er as -> ->.
    apply matches_chr in H1. destruct H1 as (-> & x & -> & Hx).
    destruct (IH2 eq_refl) as (-> & u & -> & Hu).
    split; [reflexivity|]. exists (x :: u).
    split; [reflexivity | now constructor].
Qed.

Lemma matches_plus_chr n0 p s c s' c' :
  matches n0 (plus (Chr p)) s c s' c' ->
  c' = c /\ exists x u, s = x :: u ++ s' /\ p x = true /\ all_in p u.
Proof.
  unfold plus. intros H. apply matches_seq in H.
  destruct H as (s1 & c1 & H1 & H2).
  apply matches_chr in H1. destruct H1 as (-> & x & -> & Hx).
  apply matches_star_chr in H2. destruct H2 as (-> & u & -> & Hu).
  split; [reflexivity|]. now exists x, u.
Qed.

(** A repetition of a pattern that captures nothing takes a sequence of
    texts the pattern takes. *)
Lemma matches_star_list n0 g r (P : str -> Prop) :
  (forall s c s' c',
     matches n0 r s c s' c' -> c' = c /\ exists u, s = u ++ s' /\ P u) ->
  forall s c s' c',
    matches n0 (Star g r) s c s' c' ->
    c' = c /\ exists us, s = concat us ++ s' /\ Forall P us.
Proof.
  intros Hr s c s' c' H. remember (Star g r) as r' eqn:Er.
  induction H as [| | | | | |g0 r0 s c|g0 r0 s c s1 c1 s2 c2 H1 IH1 H2 IH2|];
    try discriminate.
  - split; [reflexivity|]. exists []. split; [reflexivity | constructor].
  - injection Er as -> ->.
    apply Hr in H1. destruct H1 as (-> & u & -> & Hu).
    destruct (IH2 eq_refl) as (-> & us & -> & Hus).
    split; [reflexivity|]. exists (u :: us).
    split; [cbn [concat]; now rewrite app_assoc | now constructor].
Qed.

Lemma matches_more_numbers n0 s c s' c' :
  matches n0 more_numbers s c s' c' ->
  c' = c /\
  exists u, s = u ++ s' /\
            exists x, u = render_number x /\ more_ok x.
Proof.
  unfold more_numbers. intros H.
  apply matches_seq in H. destruct H as (s1 & c1 & H1 & H).
  apply matches_star_chr in H1. destruct H1 as (-> & a & -> & Ha).
  apply matches_seq in H. destruct H as (s2 & c2 & H1 & H).
  apply matches_chr in H1. destruct H1 as (-> & x & -> & Hx).
  apply Ascii.eqb_eq in Hx. subst x.
  apply matches_seq in H. destruct H as (s3 & c3 & H1 & H).
  apply matches_star_chr in H1. destruct H1 as (-> & b & -> & Hb).
  apply matches_plus_chr in H. destruct H as (-> & d & n & -> & Hd & Hn).
  split; [reflexivity|].
  exists (a ++ ","%char :: b ++ d :: n). split.
  - repeat (rewrite <- ?app_assoc; cbn [app]). reflexivity.
  - exists (a, b, d :: n). split; [reflexivity|].
    repeat split; try assumption; [discriminate | now constructor].
Qed.

Lemma render_more_concat us :
  Forall (fun u => exists x, u = render_number x /\ more_ok x) us ->
  exists more, concat us = render_more more /\ Forall more_ok more.
Proof.
  induction 1 as [|u us (x & -> & Hx) _ (more & E & Hm)].
  - exists []. split; [reflexivity | constructor].
  - exists (x :: more). split; [|now constructor].
    cbn [concat render_more flat_map]. fold (render_more more).
    now rewrite E.
Qed.

(** Every match of the status pattern is a well-formed marker. *)
Lemma status_pattern_sound n0 s c s' :
  match_at n0 Client.status_pattern s = Some (c, s') ->
  exists k, marker_ok k /\ s = render_marker k ++ s'.
Proof.
  unfold match_at. intros H. apply rmatch_sound in H.
  destruct H as (s1 & c1 & Hm & Hk). injection Hk as <- <-.
  apply matches_group in Hm. destruct Hm as (c2 & H & _).
  unfold Client.status_pattern in H.
  apply matches_seq in H. destruct H as (sa & ca & H1 & H).
  apply matches_chr in H1. destruct H1 as (-> & x & -> & Hx).
  apply Ascii.eqb_eq in Hx. subst x.
  apply matches_seq in H. destruct H as (sb & cb & H1 & H).
  apply matches_group in H1. destruct H1 as (cc & H1 & ->).
  apply matches_seq in H1. destruct H1 as (sd & cd & H1 & H2).
  apply matches_plus_chr in H1. destruct H1 as (-> & d & n & -> & Hd & Hn).
  change (star (star space;; chr ",";; star space;; plus digit)%re)
    with (Star true more_numbers) in H2.
  apply (matches_star_list n0 true more_numbers _
           (matches_more_numbers n0)) in H2.
  destruct H2 as (-> & us & -> & Hus).
  apply render_more_concat in Hus. destruct Hus as (more & -> & Hmore).
  apply matches_seq in H. destruct H as (se & ce & H1 & H).
  apply matches_star_chr in H1. destruct H1 as (-> & pre & -> & Hpre).
  apply matches_seq in H. destruct H as (sf & cf & H1 & H).
  apply matches_chr in H1. destruct H1 as (-> & x & -> & Hx).
  apply Ascii.eqb_eq in Hx. subst x.
  apply matches_seq in H. destruct H as (sg & cg & H1 & H).
  apply matches_star_chr in H1. destruct H1 as (-> & post & -> & Hpost).
  apply matches_seq in H. destruct H as (sh & ch & H1 & H).
  apply matches_group in H1. destruct H1 as (ci & H1 & ->).
  apply matches_status_alt in H1. destruct H1 as (-> & w & -> & Hw).
  apply matches_chr in H. destruct H as (-> & x & -> & Hx).
  apply Ascii.eqb_eq in Hx. subst x.
  exists (mkMarker (d :: n) more pre post w). split.
  - repeat split; try assumption; [discriminate | now constructor].
  - unfold render_marker. cbn [m_first m_more m_pre m_post m_word].
    repeat (rewrite <- ?app_assoc; cbn [app]). reflexivity.
Qed.

(** A marker holds one opening parenthesis, its first character. *)
Lemma all_in_not_In (p : ascii -> bool) x u :
  all_in p u -> p x = false -> ~ In x u.
Proof.
  intros Hu Hx Hin. unfold all_in in Hu. rewrite Forall_forall in Hu.
  apply Hu in Hin. congruence.
Qed.

Lemma status_word_no_paren w :
  is_status (lower w) = true -> ~ In "("%char w.
Proof.
  intros H Hin. apply is_status_cases in H.
  apply (in_map lower_char) in Hin. fold (lower w) in Hin.
  change (lower_char "(") with "("%char in Hin.
  destruct H as [H | [H | [H | H]]]; rewrite H in Hin; simpl in Hin;
    intuition discriminate.
Qed.

Lemma render_more_no_paren more :
  Forall more_ok more -> ~ In "("%char (render_more more).
Proof.
  induction 1 as [|[[a b] n] more (Ha & Hb & _ & Hn) _ IH];
    [intros []|].
  cbn [render_more flat_map render_number]. fold (render_more more).
  intros Hin. repeat (apply in_app_or in Hin; destruct Hin as [Hin | Hin]);
    try (now apply IH).
  - revert Hin. now apply (all_in_not_In isspace).
  - destruct Hin as [Hin | Hin]; [discriminate|].
    apply in_app_or in Hin. destruct Hin as [Hin | Hin]; revert Hin.
    + now apply (all_in_not_In isspace).
    + now apply (all_in_not_In isdigit).
Qed.

Lemma marker_no_paren k :
  marker_ok k ->
  exists body, render_marker k = "("%char :: body /\ ~ In "("%char body.
Proof.
  destruct k as [first more pre post w]. unfold marker_ok, render_marker.
  cbn [m_first m_more m_pre m_post m_word].
  intros ((_ & Hf) & Hm & Hpre & Hpost & Hw).
  eexists. split; [reflexivity|]. intros Hin.
  repeat (apply in_app_or in Hin; destruct Hin as [Hin | Hin]).
  - revert Hin. now apply (all_in_not_In isdigit).
  - revert Hin. now apply render_more_no_paren.
  - revert Hin. now apply (all_in_not_In isspace).
  - destruct Hin as [Hin | Hin]; [discriminate|].
    repeat (apply in_app_or in Hin; destruct Hin as [Hin | Hin]).
    + revert Hin. now apply (all_in_not_In isspace).
    + revert Hin. now apply status_word_no_paren.
    + destruct Hin as [Hin | []]. discriminate.
Qed.

(** ** The plain text of a line *)

(** Text that holds no marker. *)
Definition marker_free (t : str) : Prop :=
  forall pre k post, marker_ok k -> t <> pre ++ render_marker k ++ post.

(** A line read as markers, each after a text that holds none, and a last
    text that holds none. *)
Definition render_line (segs : list (str * marker)) (tail : str) : str :=
  flat_map (fun sk => fst sk ++ render_marker (snd sk)) segs ++ tail.

Definition line_ok (segs : list (str * marker)) (tail : str) : Prop :=
  Forall (fun sk => marker_free (fst sk) /\ marker_ok (snd sk)) segs /\
  marker_free tail.

Definition marker_caps (k : marker) : caps :=
  [(0, render_marker k); (2, m_word k);
   (1, m_first k ++ render_more (m_more k))].

Lemma marker_free_suffix t1 t2 : marker_free (t1 ++ t2) -> marker_free t2.
Proof.
  intros H pre k post Hk E. apply (H (t1 ++ pre) k post Hk).
  rewrite E. now rewrite app_assoc.
Qed.

(** The status pattern matches nowhere inside a text without marker,
    whether the line ends after the text or a marker follows. *)
Lemma status_pattern_free n0 x t rest :
  marker_free (x :: t) ->
  rest = [] \/ (exists r, rest = "("%char :: r) ->
  match_at n0 Client.status_pattern ((x :: t) ++ rest) = None.
Proof.
  intros Hfree Hrest.
  destruct (match_at n0 Client.status_pattern ((x :: t) ++ rest))
    as [[c s']|] eqn:E; [|reflexivity].
  exfalso. apply status_pattern_sound in E. destruct E as (k & Hk & E).
  destruct (marker_no_paren k Hk) as (body & Eb & Hb).
  apply app_eq_app in E. destruct E as (l & [[E1 E2] | [E1 E2]]).
  - apply (Hfree [] k l Hk). exact E1.
  - destruct l as [|y l].
    + apply (Hfree [] k [] Hk). rewrite app_nil_r in E1 |- *. now symmetry.
    + destruct Hrest as [-> | [r ->]]; [discriminate|].
      injection E2 as <- _. rewrite Eb in E1. injection E1 as _ E1.
      apply Hb. rewrite E1. apply in_or_app. right. now left.
Qed.

Lemma finditer_free n0 rest : forall t fuel,
  marker_free t ->
  rest = [] \/ (exists r, rest = "("%char :: r) ->
  length (t ++ rest) < fuel ->
  finditer_from fuel n0 Client.status_pattern (t ++ rest)
  = finditer_from (S (length rest)) n0 Client.status_pattern rest.
Proof.
  induction t as [|x t IH]; intros fuel Hfree Hrest Hf.
  - apply finditer_fuel; simpl in *; lia.
  - rewrite (finditer_miss n0 _ x (t ++ rest) fuel).
    + apply IH; [|assumption | simpl in Hf; lia].
      now apply (marker_free_suffix [x]).
    + now apply (status_pattern_free n0 x t rest).
    + exact Hf.
Qed.

Lemma render_line_cons t k segs tail :
  render_line ((t, k) :: segs) tail
  = t ++ render_marker k ++ render_line segs tail.
Proof.
  unfold render_line. cbn [flat_map fst snd]. now rewrite <- !app_assoc.
Qed.

Lemma finditer_line n0 segs tail :
  line_ok segs tail ->
  forall fuel,
    length (render_line segs tail) < fuel ->
    finditer_from fuel n0 Client.status_pattern (render_line segs tail)
    = map (fun sk => marker_caps (snd sk)) segs.
Proof.
  intros [Hsegs Htail]. induction Hsegs as [|[t k] segs [Ht Hk] _ IH];
    intros fuel Hf.
  - cbn [render_line flat_map app map] in *.
    rewrite <- (app_nil_r tail) in Hf |- *.
    rewrite finditer_free; [reflexivity | assumption | now left | exact Hf].
  - rewrite render_line_cons in Hf |- *. cbn [fst snd map] in *.
    destruct (marker_no_paren k Hk) as (body & Eb & _).
    rewrite finditer_free;
      [| assumption | right; rewrite Eb; now eexists | exact Hf].
    rewrite (finditer_hit n0 _ _ _ (render_line segs tail) _
               (status_pattern_marker n0 k (render_line segs tail) Hk)
               (render_marker_length k (render_line segs tail))
               (Nat.lt_succ_diag_r _)).
    unfold marker_caps at 1. f_equal. apply IH. lia.
Qed.

(** The plain-text tier on a line: as many entries for each marker as it
    lists numbers, in the order of the markers. *)
Lemma text_tier_line date ctry name segs tail es :
  line_ok segs tail ->
  Client.text_tier date ctry name (render_line segs tail) es
  = es ++ flat_map (fun sk => marker_entries date ctry name (snd sk)) segs.
Proof.
  intros H. rewrite text_tier_flat_map. f_equal.
  unfold finditer. rewrite (finditer_line _ _ _ H) by lia.
  destruct H as [H _].
  induction H as [|[t k] segs [_ Hk] _ IH]; [reflexivity|].
  cbn [map flat_map snd]. rewrite IH. f_equal.
  unfold group_entries, marker_entries, marker_caps. cbn [group Nat.eqb].
  now rewrite findall_numbers.
Qed.

(** Every text is free of markers or has a first marker. *)
Lemma first_marker s :
  marker_free s \/
  exists t k rest,
    s = t ++ render_marker k ++ rest /\ marker_free t /\ marker_ok k.
Proof.
  induction s as [|x s IH].
  - left. intros pre k post Hk E. destruct (marker_no_paren k Hk) as (b & Eb & _).
    rewrite Eb in E. destruct pre; discriminate.
  - destruct (match_at 0 Client.status_pattern (x :: s)) as [[c s']|] eqn:E.
    + right. apply status_pattern_sound in E. destruct E as (k & Hk & E).
      exists [], k, s'. split; [exact E | split; [|exact Hk]].
      intros pre k' post Hk' E'.
      destruct (marker_no_paren k' Hk') as (b & Eb & _).
      rewrite Eb in E'. destruct pre; discriminate.
    + assert (Hhead : forall k post, marker_ok k ->
                        x :: s <> render_marker k ++ post).
      { intros k post Hk E'. rewrite E' in E.
        rewrite (status_pattern_marker 0 k post Hk) in E. discriminate. }
      destruct IH as [IH | (t & k & rest & -> & Ht & Hk)].
      * left. intros [|y pre] k post Hk E'.
        -- now apply (Hhead k post Hk).
        -- injection E' as _ E'. now apply (IH pre k post Hk).
      * right. exists (x :: t), k, rest.
        split; [reflexivity | split; [|exact Hk]].
        intros [|y pre] k' post Hk' E'.
        -- apply (Hhead k' (post ++ render_marker k ++ rest) Hk').
           cbn [app] in E'.
           change (x :: t ++ render_marker k ++ rest)
             with ((x :: t) ++ render_marker k ++ rest).
           rewrite E'. now rewrite <- app_assoc.
        -- injection E' as _ E'. now apply (Ht pre k' post Hk').
Qed.

(** Every line can be read as markers and texts without marker. *)
Lemma line_reading : forall line,
  exists segs tail, line = render_line segs tail /\ line_ok segs tail.
Proof.
  assert (H : forall n line, length line < n ->
            exists segs tail, line = render_line segs tail
                              /\ line_ok segs tail).
  { induction n as [|n IH]; intros line Hn; [lia|].
    destruct (first_marker line) as [Hfree | (t & k & rest & -> & Ht & Hk)].
    - exists [], line. split; [reflexivity|]. split; [constructor | exact Hfree].
    - destruct (IH rest) as (segs & tail & -> & Hs & Htl).
      { pose proof (render_marker_length k rest) as Hl.
        rewrite length_app in Hn. lia. }
      exists ((t, k) :: segs), tail. split.
      + now rewrite render_line_cons.
      + split; [|exact Htl]. constructor; [now split | exact Hs]. }
  intros line. apply (H (S (length line))). lia.
Qed.

(** A text the status pattern finds nothing in holds no marker. *)
Lemma marker_free_search t :
  re_search Client.status_pattern t = None -> marker_free t.
Proof.
  unfold re_search. generalize (length t) as n0.
  intros n0 H pre k post Hk ->. revert H.
  induction pre as [|x pre IH]; cbn [app].
  - destruct (marker_no_paren k Hk) as (b & Eb & _).
    pose proof (status_pattern_marker n0 k post Hk) as Hm.
    rewrite Eb in Hm |- *. cbn [app] in Hm |- *. cbn [search_from].
    rewrite Hm. discriminate.
  - cbn [search_from].
    destruct (match_at n0 Client.status_pattern (x :: pre ++ _));
      [discriminate | exact IH].
Qed.

(** The numbers a marker lists. *)
Definition marker_numbers (k : marker) : list str :=
  m_first k :: map snd (m_more k).

(** C2, as the code has it.  Every line reads as markers
    [(n1, n2, .., word)] (numbers separated by commas with any white space
    around them, [word] one of the four status words in any case), each
    after a text that holds no marker, and a last text that holds none.
    The plain-text tier gives for each marker as many entries as the marker
    lists numbers, whatever the numbers are, with the lower-cased status
    word and no reference, in the order of the markers, and nothing for the
    texts; when the line has the item shape with a count [int] takes, the
    markup tier yields nothing and there is at least one marker, these
    entries are the result of [parse_equipment_line].  The line
    "3 T-64: (1, destroyed) (2, destroyed)" has two markers of one number
    each and gives two [destroyed] entries. *)
Theorem text_tier_marker_entries :
  forall date line ctry cat html_line m,
    re_match Client.item_pattern (strip line) = Some m ->
    length (group 1 m) <= int_max_str_digits ->
    let name := strip (group 2 m) in
    markup_yield date ctry name html_line = [] ->
    (exists segs tail, line = render_line segs tail /\ line_ok segs tail) /\
    (forall segs tail,
       line = render_line segs tail -> line_ok segs tail ->
       let found :=
         flat_map (fun sk => marker_entries date ctry name (snd sk)) segs in
       Client.text_tier date ctry name line [] = found /\
       (segs <> [] ->
        Exn.parse_equipment_line date line ctry cat html_line
        = Exn.Ok found) /\
       (forall t k, In (t, k) segs ->
          length (marker_entries date ctry name k)
          = length (marker_numbers k) /\
          forall e, In e (marker_entries date ctry name k) ->
            e = mkEntry (lower ctry) name (lower (m_word k)) None
                  (Some date))) /\
    (line = ("3 T-64: (1, destroyed) (2, destroyed)" : str) ->
     Exn.parse_equipment_line date line ctry cat html_line
     = Exn.Ok (repeat (mkEntry (lower ctry) "T-64" "destroyed" None
                         (Some date)) 2)).
Proof.
  intros date line ctry cat html_line m Hm Hlen name Hmk.
  assert (Hp : Exn.parse_equipment_line date line ctry cat html_line
               = Exn.Ok match text_yield date ctry name line with
                        | [] => repeat (destroyed_entry date ctry name)
                                  (N.to_nat (int_of (group 1 m)))
                        | e :: l => e :: l
                        end).
  { rewrite exn_parse_equipment_line, Hm.
    apply Nat.leb_le in Hlen. fold (short (group 1 m)) in Hlen.
    rewrite Hlen, (markup_yield_anchors_short _ _ _ _ Hmk). cbn [andb].
    rewrite (parse_equipment_line_cases _ _ _ _ _ _ Hm). cbv zeta.
    fold name. rewrite Hmk.
    destruct (text_yield date ctry name line); reflexivity. }
  split; [apply line_reading | split].
  - intros segs tail -> Hok found.
    assert (Htx : Client.text_tier date ctry name (render_line segs tail) []
                  = found)
      by (now rewrite text_tier_line).
    split; [exact Htx | split].
    + intros Hne. rewrite Hp. unfold text_yield. rewrite Htx.
      destruct segs as [|[t k] segs]; [congruence|]. reflexivity.
    + intros t k _. unfold marker_entries, marker_numbers. split.
      * rewrite repeat_length. cbn [length]. now rewrite length_map.
      * intros e He. now apply repeat_spec in He.
  - intros E. rewrite Hp. subst name. rewrite E in Hm |- *.
    clear - Hm. vm_compute in Hm. injection Hm as <-.
    vm_compute. reflexivity.
Qed.

Lemma text_tier_marker_entries_witness :
  Exn.parse_equipment_line "2024-05-01"
    "2 T-72 (Obr): (1, 2, Destroyed) (7 ,captured)." "Russia" "Tanks" None
  = Exn.Ok
      [mkEntry "russia" "T-72 (Obr)" "destroyed" None
         (Some ("2024-05-01" : str));
       mkEntry "russia" "T-72 (Obr)" "destroyed" None
         (Some ("2024-05-01" : str));
       mkEntry "russia" "T-72 (Obr)" "captured" None
         (Some ("2024-05-01" : str))].
Proof.
  assert (Hm : re_match Client.item_pattern
                 (strip "2 T-72 (Obr): (1, 2, Destroyed) (7 ,captured).")
               = Some [(0, "2 T-72 (Obr):" : str); (2, "T-72 (Obr)" : str);
                       (1, "2" : str)])
    by (vm_compute; reflexivity).
  refine (eq_trans
            (proj1 (proj2
               (proj1 (proj2
                  (text_tier_marker_entries "2024-05-01"
                     "2 T-72 (Obr): (1, 2, Destroyed) (7 ,captured)."
                     "Russia" "Tanks" None _ Hm _ _))
                  [("2 T-72 (Obr): " : str,
                    mkMarker "1" [("" : str, " " : str, "2" : str)]
                      "" " " "Destroyed");
                   (" " : str, mkMarker "7" [] " " "" "captured")]
                  "." _ _)) _) _).
  - vm_compute. lia.
  - reflexivity.
  - reflexivity.
  - split; [|apply marker_free_search; vm_compute; reflexivity].
    repeat constructor;
      try (apply marker_free_search; vm_compute; reflexivity);
      try (intros H; simpl in H; intuition discriminate);
      vm_compute; congruence.
  - discriminate.
  - vm_compute. reflexivity.
Defined.

(** The claim as the spec words it fails on its own example: the line has
    two markers of one number each, so there are two entries, not three. *)
Lemma three_t64_gives_two :
  length (Client.parse_equipment_line "2024-05-01"
            "3 T-64: (1, destroyed) (2, destroyed)" "russia" "Tanks" None)
  = 2 /\
  length (Client.parse_equipment_line "2024-05-01"
            "3 T-64: (1, destroyed) (2, destroyed)" "russia" "Tanks" None)
  <> 3.
Proof. split; vm_compute; [reflexivity | discriminate]. Qed.

(** ** Anchors of the markup *)

(** The link pattern after its [[^>]*]: the attribute, the quoted value, the
    rest of the tag and the visible text. *)
Definition href_part : regex :=
  (lit_i "href=" ;; chr dquote ;; Group 1 (star (notc dquote)) ;;
   chr dquote ;; star (notc ">") ;; chr ">" ;; chr "(" ;;
   Group 2 (plus digit) ;; chr "," ;; star space ;;
   Group 3 Client.status_alt ;; chr ")" ;; lit_i "</a>")%re.

Lemma match_at_link n0 s :
  match_at n0 Client.link_pattern s =
  rmatch n0 (lit_i "<a") s []
    (fun s1 c1 =>
       rmatch n0 (star (notc ">")) s1 c1
         (fun s2 c2 =>
            rmatch n0 href_part s2 c2
              (fun s3 c3 =>
                 Some ((0, firstn (length s - length s3) s) :: c3, s3)))).
Proof. reflexivity. Qed.

(** A text the link pattern takes: the letters of the tag as they are
    spelt, what the tag holds before the attribute, the attribute name as it
    is spelt, the quoted value, what the tag holds after the closing quote,
    the number, the white space after the comma, the status word and the
    closing tag as they are spelt. *)
Record anchor : Type := mkAnchor {
  a_tag : str;
  a_before : str;
  a_attr : str;
  a_href : str;
  a_after : str;
  a_num : str;
  a_gap : str;
  a_word : str;
  a_end : str
}.

Definition render_anchor (a : anchor) : str :=
  a_tag a ++ a_before a ++ a_attr a ++ dquote :: a_href a ++ dquote
  :: a_after a ++ ">"%char :: "("%char :: a_num a ++ ","%char :: a_gap a
  ++ a_word a ++ ")"%char :: a_end a.

Definition anchor_shape (a : anchor) : Prop :=
  lower (a_tag a) = ("<a" : str) /\
  ~ In ">"%char (a_before a) /\
  lower (a_attr a) = ("href=" : str) /\
  ~ In dquote (a_href a) /\
  ~ In ">"%char (a_after a) /\
  number_ok (a_num a) /\
  all_in isspace (a_gap a) /\
  is_status (lower (a_word a)) = true /\
  lower (a_end a) = ("</a>" : str).

(** Of the anchors a text begins with, the one the pattern takes: the one
    whose attribute comes last in the tag. *)
Definition chosen (s : str) (a : anchor) : Prop :=
  forall a' s',
    anchor_shape a' -> s = render_anchor a' ++ s' ->
    length (a_before a') <= length (a_before a).

Definition anchor_caps (a : anchor) : caps :=
  [(0, render_anchor a); (3, a_word a); (2, a_num a); (1, a_href a)].

Definition anchor_entry (date ctry name : str) (a : anchor)
    : EquipmentEntry :=
  mkEntry (lower ctry) name (lower (a_word a))
    (if startswith "http" (a_href a) then Some (a_href a) else None)
    (Some date).

Definition notgt (c : ascii) : bool := negb (Ascii.eqb c ">").

(** The characters up to the first [>]. *)
Fixpoint tag_run (s : str) : str :=
  match s with
  | [] => []
  | x :: s' => if notgt x then x :: tag_run s' else []
  end.

Lemma all_in_notc x u :
  all_in (fun c => negb (Ascii.eqb c x)) u -> ~ In x u.
Proof.
  intros H. apply (all_in_not_In _ x u H). now rewrite Ascii.eqb_refl.
Qed.

Lemma tag_run_split s :
  exists rest,
    s = tag_run s ++ rest /\ all_in notgt (tag_run s) /\ stops notgt rest.
Proof.
  induction s as [|x s (rest & E & Ha & Hs)].
  - exists []. repeat split. constructor.
  - cbn [tag_run]. destruct (notgt x) eqn:Hx.
    + exists rest. split; [cbn [app]; now rewrite <- E|].
      split; [now constructor | exact Hs].
    + exists (x :: s). split; [reflexivity|]. split; [constructor | exact Hx].
Qed.

Lemma tag_run_app u r : ~ In ">"%char u -> tag_run (u ++ r) = u ++ tag_run r.
Proof.
  induction u as [|x u IH]; intros H; [reflexivity|].
  cbn [app tag_run]. unfold notgt at 1.
  destruct (Ascii.eqb x ">") eqn:E.
  - apply Ascii.eqb_eq in E. subst x. exfalso. apply H. now left.
  - cbn [negb]. f_equal. apply IH. intros Hin. apply H. now right.
Qed.

Section AnchorSteps.
Context {A : Type}.
Variable n0 : nat.

(** A greedy run fails only when what follows fails at every point. *)
Lemma greedy_run_none_inv p u s c (k : cont A) :
  all_in p u -> stops p s ->
  rmatch n0 (Star true (Chr p)) (u ++ s) c k = None ->
  forall a b, u = a ++ b -> k (b ++ s) c = None.
Proof.
  intros Hu Hs. induction Hu as [|x u Hx Hu IH]; cbn [app].
  - rewrite star_chr_stop by assumption. intros H a b E.
    symmetry in E. apply app_eq_nil in E. destruct E as [-> ->]. exact H.
  - rewrite star_chr_cons by assumption.
    destruct (rmatch n0 (Star true (Chr p)) (u ++ s) c k) eqn:E;
      [discriminate|].
    intros H [|y a] b Eu.
    + cbn [app] in Eu. subst b. exact H.
    + injection Eu as _ Eu. now apply (IH eq_refl a b).
Qed.

(** A greedy run that succeeds does so at the longest point where what
    follows succeeds. *)
Lemma greedy_run_first p u s c (k : cont A) v :
  all_in p u -> stops p s ->
  rmatch n0 (Star true (Chr p)) (u ++ s) c k = Some v ->
  exists a b,
    u = a ++ b /\ k (b ++ s) c = Some v /\
    forall a' b', u = a' ++ b' -> length a < length a' ->
                  k (b' ++ s) c = None.
Proof.
  intros Hu Hs. induction Hu as [|x u Hx Hu IH]; cbn [app].
  - rewrite star_chr_stop by assumption. intros H.
    exists [], []. split; [reflexivity | split; [exact H|]].
    intros a' b' E Hl. symmetry in E. apply app_eq_nil in E.
    destruct E as [-> _]. simpl in Hl. lia.
  - rewrite star_chr_cons by assumption.
    destruct (rmatch n0 (Star true (Chr p)) (u ++ s) c k) as [v'|] eqn:E.
    + intros H. injection H as ->.
      destruct (IH eq_refl) as (a & b & -> & Hk & Hlong).
      exists (x :: a), b. split; [reflexivity | split; [exact Hk|]].
      intros [|y a'] b' Eu Hl; [simpl in Hl; lia|].
      injection Eu as _ Eu. apply (Hlong a' b' Eu). simpl in Hl. lia.
    + intros H. exists [], (x :: u).
      split; [reflexivity | split; [exact H|]].
      intros [|y a'] b' Eu Hl; [simpl in Hl; lia|].
      injection Eu as _ Eu.
      now apply (greedy_run_none_inv p u s c k Hu Hs E a' b').
Qed.

(** The pattern after [[^>]*] on the text of an anchor from its attribute
    on. *)
Lemma href_part_anchor attr u after n g w e s c (k : cont A) v :
  lower attr = ("href=" : str) -> ~ In dquote u -> ~ In ">"%char after ->
  number_ok n -> all_in isspace g -> is_status (lower w) = true ->
  lower e = ("</a>" : str) ->
  k s ((3, w) :: (2, n) :: (1, u) :: c) = Some v ->
  rmatch n0 href_part
    (attr ++ dquote :: u ++ dquote :: after ++ ">"%char :: "("%char
     :: n ++ ","%char :: g ++ w ++ ")"%char :: e ++ s) c k = Some v.
Proof.
  intros Hattr Hu Hafter (Hn0 & Hn) Hg Hw He Hk.
  destruct n as [|d n]; [congruence|]. inversion Hn as [|? ? Hd Hn']; subst.
  destruct (status_word_head w Hw) as (y & w' & Ew & Hy & _).
  unfold href_part. cbn [rmatch].
  apply step_lit_i; [exact Hattr|].
  apply step_chr.
  apply step_star; [now apply all_in_not | reflexivity |].
  apply step_chr.
  apply step_star; [now apply all_in_not | reflexivity|].
  apply step_chr. apply step_chr. cbn [app].
  apply step_plus; [assumption | assumption | reflexivity |].
  apply step_chr.
  apply step_star; [assumption | rewrite Ew; exact Hy |].
  rewrite step_status_alt by assumption.
  apply step_chr. apply step_lit_i; [exact He|].
  rewrite (firstn_consumed w (")"%char :: e ++ s)) by reflexivity.
  rewrite (firstn_consumed (d :: n)
             (","%char :: g ++ w ++ ")"%char :: e ++ s)) by reflexivity.
  rewrite (firstn_consumed u
             (dquote :: after ++ ">"%char :: "("%char :: (d :: n)
              ++ ","%char :: g ++ w ++ ")"%char :: e ++ s)) by reflexivity.
  exact Hk.
Qed.
End AnchorSteps.

(** Whatever the pattern after [[^>]*] takes has that form. *)
Lemma href_part_sound {A : Type} n0 s c (k : cont A) v :
  rmatch n0 href_part s c k = Some v ->
  exists attr u after n g w e s',
    s = attr ++ dquote :: u ++ dquote :: after ++ ">"%char :: "("%char
        :: n ++ ","%char :: g ++ w ++ ")"%char :: e ++ s' /\
    lower attr = ("href=" : str) /\ ~ In dquote u /\ ~ In ">"%char after /\
    number_ok n /\ all_in isspace g /\ is_status (lower w) = true /\
    lower e = ("</a>" : str) /\
    k s' ((3, w) :: (2, n) :: (1, u) :: c) = Some v.
Proof.
  intros H. apply rmatch_sound in H. destruct H as (s' & c' & H & Hk).
  unfold href_part in H.
  apply matches_seq in H. destruct H as (s1 & c1 & H1 & H).
  apply matches_lit_i in H1. destruct H1 as (-> & attr & -> & Hattr).
  apply matches_seq in H. destruct H as (s2 & c2 & H1 & H).
  apply matches_chr in H1. destruct H1 as (-> & x & -> & Hx).
  apply Ascii.eqb_eq in Hx. subst x.
  apply matches_seq in H. destruct H as (s3 & c3 & H1 & H).
  apply matches_group in H1. destruct H1 as (c4 & H1 & ->).
  apply matches_star_chr in H1. destruct H1 as (-> & u & -> & Hu).
  rewrite (firstn_consumed u s3) in H by reflexivity.
  apply matches_seq in H. destruct H as (s4 & c5 & H1 & H).
  apply matches_chr in H1. destruct H1 as (-> & x & -> & Hx).
  apply Ascii.eqb_eq in Hx. subst x.
  apply matches_seq in H. destruct H as (s5 & c6 & H1 & H).
  apply matches_star_chr in H1. destruct H1 as (-> & after & -> & Hafter).
  apply matches_seq in H. destruct H as (s6 & c7 & H1 & H).
  apply matches_chr in H1. destruct H1 as (-> & x & -> & Hx).
  apply Ascii.eqb_eq in Hx. subst x.
  apply matches_seq in H. destruct H as (s7 & c8 & H1 & H).
  apply matches_chr in H1. destruct H1 as (-> & x & -> & Hx).
  apply Ascii.eqb_eq in Hx. subst x.
  apply matches_seq in H. destruct H as (s8 & c9 & H1 & H).
  apply matches_group in H1. destruct H1 as (c10 & H1 & ->).
  apply matches_plus_chr in H1. destruct H1 as (-> & d & n & -> & Hd & Hn).
  rewrite (firstn_consumed (d :: n) s8) in H by reflexivity.
  apply matches_seq in H. destruct H as (s9 & c11 & H1 & H).
  apply matches_chr in H1. destruct H1 as (-> & x & -> & Hx).
  apply Ascii.eqb_eq in Hx. subst x.
  apply matches_seq in H. destruct H as (s10 & c12 & H1 & H).
  apply matches_star_chr in H1. destruct H1 as (-> & g & -> & Hg).
  apply matches_seq in H. destruct H as (s11 & c13 & H1 & H).
  apply matches_group in H1. destruct H1 as (c14 & H1 & ->).
  apply matches_status_alt in H1. destruct H1 as (-> & w & -> & Hw).
  rewrite (firstn_consumed w s11) in H by reflexivity.
  apply matches_seq in H. destruct H as (s12 & c15 & H1 & H).
  apply matches_chr in H1. destruct H1 as (-> & x & -> & Hx).
  apply Ascii.eqb_eq in Hx. subst x.
  apply matches_lit_i in H. destruct H as (-> & e & -> & He).
  exists attr, u, after, (d :: n), g, w, e, s'.
  split; [repeat (rewrite <- ?app_assoc; cbn [app]); reflexivity|].
  split; [exact Hattr|]. split; [now apply all_in_notc|].
  split; [now apply all_in_notc|].
  split; [split; [discriminate | now constructor]|].
  repeat split; assumption.
Qed.

Lemma app_eq_length {T : Type} (a a' b b' : list T) :
  a ++ b = a' ++ b' -> length a = length a' -> a = a' /\ b = b'.
Proof.
  revert a'. induction a as [|x a IH]; intros [|y a'] E Hl;
    try discriminate; [now split|].
  injection E as -> E. injection Hl as Hl.
  destruct (IH a' E Hl) as [-> ->]. now split.
Qed.

Lemma lower_length s : length (lower s) = length s.
Proof. apply length_map. Qed.

Lemma tag_length t : lower t = ("<a" : str) -> length t = 2.
Proof. intros H. rewrite <- lower_length, H. reflexivity. Qed.

Lemma attr_no_gt attr : lower attr = ("href=" : str) -> ~ In ">"%char attr.
Proof.
  intros H Hin. apply (in_map lower_char) in Hin. fold (lower attr) in Hin.
  rewrite H in Hin. simpl in Hin. intuition discriminate.
Qed.

(** The text of an anchor after its tag letters, in two parts. *)
Definition anchor_rest (a : anchor) (s : str) : str :=
  a_attr a ++ dquote :: a_href a ++ dquote :: a_after a ++ ">"%char
  :: "("%char :: a_num a ++ ","%char :: a_gap a ++ a_word a ++ ")"%char
  :: a_end a ++ s.

Lemma render_anchor_rest a s :
  render_anchor a ++ s = a_tag a ++ a_before a ++ anchor_rest a s.
Proof.
  unfold render_anchor, anchor_rest.
  repeat (rewrite <- ?app_assoc; cbn [app]). reflexivity.
Qed.

Lemma href_part_rest {A : Type} n0 a s c (k : cont A) v :
  anchor_shape a ->
  k s ((3, a_word a) :: (2, a_num a) :: (1, a_href a) :: c) = Some v ->
  rmatch n0 href_part (anchor_rest a s) c k = Some v.
Proof.
  intros (_ & _ & H3 & H4 & H5 & H6 & H7 & H8 & H9) Hk.
  unfold anchor_rest. now apply href_part_anchor.
Qed.

(** The link pattern takes the chosen anchor at the start of a text. *)
Lemma link_pattern_anchor n0 a s :
  anchor_shape a -> chosen (render_anchor a ++ s) a ->
  match_at n0 Client.link_pattern (render_anchor a ++ s)
  = Some (anchor_caps a, s).
Proof.
  intros Hshape Hchosen. pose proof Hshape as (Htag & Hbefore & Hattr & _).
  rewrite match_at_link. rewrite render_anchor_rest in Hchosen |- *.
  apply step_lit_i; [exact Htag|].
  match goal with
  | |- rmatch _ _ _ _ ?k = _ => set (K := k)
  end.
  destruct (tag_run_split (anchor_rest a s)) as (rest & E & Hrun & Hstop).
  pose proof E as E0. revert E0.
  generalize (anchor_rest a s) at 1 3. intros whole E0. rewrite E0.
  apply (greedy_run_back n0 notgt (a_before a)
           (tag_run (anchor_rest a s)) rest).
  - apply Forall_app. split; [now apply all_in_not | exact Hrun].
  - exact Hstop.
  - rewrite <- E. unfold K. apply href_part_rest; [exact Hshape|].
    unfold anchor_caps. do 3 f_equal.
    rewrite <- render_anchor_rest.
    now rewrite (firstn_consumed (render_anchor a) s).
  - intros a0 b Erun Ha0. unfold K.
    match goal with
    | |- ?lhs = None => destruct lhs as [v|] eqn:Ek; [|reflexivity]
    end.
    exfalso. apply href_part_sound in Ek.
    destruct Ek as (attr & u & after & n & g & w & e & s' & Eb & H3 & H4
                    & H5 & H6 & H7 & H8 & H9 & _).
    assert (Hlen : length (a_before a ++ a0) <= length (a_before a)).
    { apply (Hchosen (mkAnchor (a_tag a) (a_before a ++ a0) attr u after
                        n g w e) s').
      - refine (conj Htag (conj _ (conj H3 (conj H4 (conj H5 (conj H6
                 (conj H7 (conj H8 H9)))))))).
        cbn. intros Hin. apply in_app_or in Hin. destruct Hin as [Hin | Hin].
        + now apply Hbefore.
        + apply (all_in_notc ">"%char (tag_run (anchor_rest a s)));
            [exact Hrun|].
          rewrite Erun. apply in_or_app. now left.
      - rewrite render_anchor_rest. unfold anchor_rest at 2. cbn.
        rewrite <- Eb. rewrite E at 1. rewrite Erun.
        now rewrite <- !app_assoc. }
    rewrite length_app in Hlen. destruct a0; [congruence | simpl in Hlen; lia].
Qed.

(** Every match of the link pattern is the chosen anchor at the start of
    the text. *)
Lemma link_pattern_sound n0 s c s' :
  match_at n0 Client.link_pattern s = Some (c, s') ->
  exists a,
    anchor_shape a /\ s = render_anchor a ++ s' /\ chosen s a /\
    c = anchor_caps a.
Proof.
  rewrite match_at_link. intros H. apply rmatch_sound in H.
  destruct H as (s1 & c1 & H1 & H).
  apply matches_lit_i in H1. destruct H1 as (-> & tag & -> & Htag).
  destruct (tag_run_split s1) as (rest & E & Hrun & Hstop).
  rewrite E in H at 1.
  apply (greedy_run_first n0 notgt) in H; [|exact Hrun | exact Hstop].
  destruct H as (a0 & b & Erun & Hk & Hlong).
  assert (Ha0 : ~ In ">"%char a0).
  { intros Hin.
    apply (all_in_notc ">"%char (tag_run s1)); [exact Hrun|].
    rewrite Erun. apply in_or_app. now left. }
  apply href_part_sound in Hk.
  destruct Hk as (attr & u & after & n & g & w & e & s'' & Eb & H3 & H4
                  & H5 & H6 & H7 & H8 & H9 & Hfin).
  injection Hfin as Ec Es'. subst c s''.
  set (a := mkAnchor tag a0 attr u after n g w e).
  assert (Es1 : s1 = a0 ++ anchor_rest a s').
  { rewrite E at 1. rewrite Erun, <- app_assoc, Eb. reflexivity. }
  assert (Es : tag ++ s1 = render_anchor a ++ s').
  { rewrite render_anchor_rest. cbn [a_tag a_before a]. now rewrite Es1. }
  exists a. split; [|split; [exact Es | split]].
  - exact (conj Htag (conj Ha0 (conj H3 (conj H4 (conj H5 (conj H6
             (conj H7 (conj H8 H9)))))))).
  - intros a' t' (Htag' & Hbefore' & Hshape') E'.
    rewrite render_anchor_rest in E'.
    assert (Etag : tag = a_tag a' /\ s1 = a_before a' ++ anchor_rest a' t').
    { apply app_eq_length; [exact E'|].
      rewrite (tag_length _ Htag), (tag_length _ Htag'). reflexivity. }
    destruct Etag as [_ Es1'].
    destruct (Nat.le_gt_cases (length (a_before a')) (length a0))
      as [Hle | Hgt]; [exact Hle|].
    exfalso.
    assert (Erun' : tag_run s1
                    = a_before a' ++ tag_run (anchor_rest a' t')).
    { rewrite Es1' at 1. now apply tag_run_app. }
    assert (Erest : anchor_rest a' t'
                    = tag_run (anchor_rest a' t') ++ rest).
    { apply (app_inv_head (a_before a')). rewrite app_assoc, <- Erun'.
      now rewrite <- E, <- Es1'. }
    specialize (Hlong _ _ Erun' Hgt). rewrite <- Erest in Hlong.
    rewrite (href_part_rest n0 a' t' [] _ _
               (conj Htag' (conj Hbefore' Hshape')) eq_refl) in Hlong.
    discriminate.
  - unfold anchor_caps. cbn [a_word a_num a_href a]. do 2 f_equal.
    rewrite Es. now rewrite (firstn_consumed (render_anchor a) s').
Qed.

(** Where the link pattern does not match, no anchor begins. *)
Lemma link_pattern_none n0 s :
  match_at n0 Client.link_pattern s = None ->
  forall a s', anchor_shape a -> s <> render_anchor a ++ s'.
Proof.
  intros H a s' Hshape ->. pose proof Hshape as (Htag & Hbefore & _).
  rewrite match_at_link, render_anchor_rest in H.
  rewrite (rmatch_lit_i n0 "<a" (a_tag a)) in H by exact Htag.
  destruct (tag_run_split (a_before a ++ anchor_rest a s'))
    as (rest & E & Hrun & Hstop).
  rewrite E in H at 1.
  rewrite tag_run_app in E, Hrun, H by assumption.
  pose proof (greedy_run_none_inv n0 notgt _ rest [] _ Hrun Hstop H
                (a_before a) (tag_run (anchor_rest a s')) eq_refl) as Hk.
  rewrite <- app_assoc in E. apply app_inv_head in E. rewrite <- E in Hk.
  rewrite (href_part_rest n0 a s' [] _ _ Hshape eq_refl) in Hk.
  discriminate.
Qed.

(** ** The markup of a line *)

(** No anchor begins inside the text [t], [rest] being what follows it. *)
Definition no_start (t rest : str) : Prop :=
  forall t1 t2 a s',
    t = t1 ++ t2 -> t2 <> [] -> anchor_shape a ->
    t2 ++ rest <> render_anchor a ++ s'.

(** A markup read as anchors, each after a text inside which no anchor
    begins, and a last text inside which none begins. *)
Definition render_markup (segs : list (str * anchor)) (tail : str) : str :=
  flat_map (fun sa => fst sa ++ render_anchor (snd sa)) segs ++ tail.

Fixpoint markup_ok (segs : list (str * anchor)) (tail : str) : Prop :=
  match segs with
  | [] => no_start tail []
  | (t, a) :: segs' =>
      let rest := render_markup segs' tail in
      no_start t (render_anchor a ++ rest) /\
      anchor_shape a /\
      chosen (render_anchor a ++ rest) a /\
      markup_ok segs' tail
  end.

Lemma render_markup_cons t a segs tail :
  render_markup ((t, a) :: segs) tail
  = t ++ render_anchor a ++ render_markup segs tail.
Proof.
  unfold render_markup. cbn [flat_map fst snd]. now rewrite <- !app_assoc.
Qed.

Lemma no_start_nil rest : no_start [] rest.
Proof.
  intros t1 t2 a s' E Hne. symmetry in E. apply app_eq_nil in E.
  destruct E as [_ ->]. congruence.
Qed.

Lemma no_start_tail x t rest : no_start (x :: t) rest -> no_start t rest.
Proof.
  intros H t1 t2 a s' E. apply (H (x :: t1) t2 a s'). now rewrite E.
Qed.

Lemma no_start_cons x t rest :
  (forall a s', anchor_shape a -> (x :: t) ++ rest <> render_anchor a ++ s') ->
  no_start t rest -> no_start (x :: t) rest.
Proof.
  intros Hhead Ht [|y t1] t2 a s' E Hne Ha.
  - cbn [app] in E. subst t2. now apply Hhead.
  - injection E as _ E. now apply (Ht t1 t2 a s').
Qed.

Lemma link_pattern_quiet n0 x t rest :
  no_start (x :: t) rest ->
  match_at n0 Client.link_pattern ((x :: t) ++ rest) = None.
Proof.
  intros H.
  destruct (match_at n0 Client.link_pattern ((x :: t) ++ rest))
    as [[c s']|] eqn:E; [|reflexivity].
  exfalso. apply link_pattern_sound in E.
  destruct E as (a & Ha & E & _).
  now apply (H [] (x :: t) a s' eq_refl ltac:(discriminate) Ha).
Qed.

Lemma finditer_quiet n0 rest : forall t fuel,
  no_start t rest ->
  length (t ++ rest) < fuel ->
  finditer_from fuel n0 Client.link_pattern (t ++ rest)
  = finditer_from (S (length rest)) n0 Client.link_pattern rest.
Proof.
  induction t as [|x t IH]; intros fuel Hq Hf.
  - apply finditer_fuel; simpl in *; lia.
  - rewrite (finditer_miss n0 _ x (t ++ rest) fuel).
    + apply IH; [now apply (no_start_tail x) | simpl in Hf; lia].
    + now apply (link_pattern_quiet n0 x t rest).
    + exact Hf.
Qed.

Lemma render_anchor_length a s : length s < length (render_anchor a ++ s).
Proof.
  rewrite length_app. unfold render_anchor.
  repeat (rewrite length_app; cbn [length]). lia.
Qed.

Lemma finditer_markup n0 segs : forall tail,
  markup_ok segs tail ->
  forall fuel,
    length (render_markup segs tail) < fuel ->
    finditer_from fuel n0 Client.link_pattern (render_markup segs tail)
    = map (fun sa => anchor_caps (snd sa)) segs.
Proof.
  induction segs as [|[t a] segs IH]; intros tail Hok fuel Hf.
  - cbn [markup_ok render_markup flat_map app map] in *.
    rewrite <- (app_nil_r tail) in Hf |- *.
    rewrite finditer_quiet; [reflexivity | assumption | exact Hf].
  - cbn [markup_ok] in Hok. destruct Hok as (Hq & Ha & Hc & Hok).
    rewrite render_markup_cons in Hf |- *. cbn [map snd].
    rewrite finditer_quiet; [| assumption | exact Hf].
    rewrite (finditer_hit n0 _ _ _ (render_markup segs tail) _
               (link_pattern_anchor n0 a (render_markup segs tail) Ha Hc)
               (render_anchor_length a (render_markup segs tail))
               (Nat.lt_succ_diag_r _)).
    f_equal. apply IH; [exact Hok | lia].
Qed.

(** The markup tier: one entry for each anchor, in their order. *)
Lemma markup_tier_markup date ctry name segs tail es :
  markup_ok segs tail ->
  Client.markup_tier date ctry name (render_markup segs tail) es
  = es ++ map (fun sa => anchor_entry date ctry name (snd sa)) segs.
Proof.
  intros H. rewrite markup_tier_map. f_equal.
  unfold finditer. rewrite (finditer_markup _ _ _ H) by lia.
  rewrite map_map. reflexivity.
Qed.

(** In every text no anchor begins, or there is a first one. *)
Lemma first_anchor s :
  no_start s [] \/
  exists t a rest,
    s = t ++ render_anchor a ++ rest /\
    no_start t (render_anchor a ++ rest) /\
    anchor_shape a /\ chosen (render_anchor a ++ rest) a.
Proof.
  induction s as [|x s IH]; [left; apply no_start_nil|].
  destruct (match_at 0 Client.link_pattern (x :: s)) as [[c s']|] eqn:E.
  - right. apply link_pattern_sound in E.
    destruct E as (a & Ha & E & Hc & _).
    exists [], a, s'. split; [exact E|]. split; [apply no_start_nil|].
    split; [exact Ha | now rewrite <- E].
  - pose proof (link_pattern_none 0 _ E) as Hhead.
    destruct IH as [IH | (t & a & rest & -> & Ht & Ha & Hc)].
    + left. apply no_start_cons; [|exact IH].
      intros a s' Ha. rewrite app_nil_r. now apply Hhead.
    + right. exists (x :: t), a, rest. split; [reflexivity|].
      split; [|now split].
      apply no_start_cons; [|exact Ht].
      intros a' s' Ha'. now apply Hhead.
Qed.

(** Every markup can be read so. *)
Lemma markup_reading : forall html,
  exists segs tail, html = render_markup segs tail /\ markup_ok segs tail.
Proof.
  assert (H : forall n html, length html < n ->
            exists segs tail, html = render_markup segs tail
                              /\ markup_ok segs tail).
  { induction n as [|n IH]; intros html Hn; [lia|].
    destruct (first_anchor html)
      as [Hq | (t & a & rest & -> & Ht & Ha & Hc)].
    - exists [], html. split; [reflexivity | exact Hq].
    - destruct (IH rest) as (segs & tail & -> & Hok).
      { pose proof (render_anchor_length a rest) as Hl.
        rewrite length_app in Hn. lia. }
      exists ((t, a) :: segs), tail. split.
      + now rewrite render_markup_cons.
      + cbn [markup_ok]. exact (conj Ht (conj Ha (conj Hc Hok))). }
  intros html. apply (H (S (length html))). lia.
Qed.

(** *** Two tests *)

(** The link pattern matches nowhere inside [t]. *)
Fixpoint quiet (t rest : str) : bool :=
  match t with
  | [] => true
  | x :: t' =>
      match match_at 0 Client.link_pattern (t ++ rest) with
      | None => quiet t' rest
      | Some _ => false
      end
  end.

Lemma quiet_no_start t rest : quiet t rest = true -> no_start t rest.
Proof.
  induction t as [|x t IH]; intros H; [apply no_start_nil|].
  cbn [quiet] in H.
  destruct (match_at 0 Client.link_pattern ((x :: t) ++ rest)) eqn:E;
    [discriminate|].
  apply no_start_cons; [|now apply IH].
  now apply (link_pattern_none 0).
Qed.

(** The attribute name and the quote after it. *)
Definition href_quote : str := ("href=" : str) ++ [dquote].

Lemma startswith_app p s : startswith p (p ++ s) = true.
Proof.
  induction p as [|x p IH]; [reflexivity|].
  cbn [app startswith]. now rewrite Ascii.eqb_refl.
Qed.

Lemma contains_app sub a b : contains sub (a ++ sub ++ b) = true.
Proof.
  induction a as [|x a IH]; cbn [app].
  - destruct (sub ++ b) eqn:E; cbn [contains];
      rewrite <- E, startswith_app; reflexivity.
  - cbn [contains]. rewrite IH. apply orb_true_r.
Qed.

Lemma tag_run_cut x y : tag_run (x ++ ">"%char :: y) = tag_run x.
Proof.
  induction x as [|c x IH]; [reflexivity|].
  cbn [app tag_run]. destruct (notgt c); [now rewrite IH | reflexivity].
Qed.

Lemma lower_app a b : lower (a ++ b) = lower a ++ lower b.
Proof. apply map_app. Qed.

(** An anchor whose tag does not hold the attribute name and a quote once
    more, after its value and before the first [>], is the chosen one. *)
Lemma chosen_last a s :
  anchor_shape a ->
  contains href_quote (lower (tag_run (a_href a ++ dquote :: a_after a)))
  = false ->
  chosen (render_anchor a ++ s) a.
Proof.
  intros (Htag & Hbefore & Hattr & _) Hno a' s'
         (Htag' & Hbefore' & Hattr' & _) E.
  destruct (Nat.le_gt_cases (length (a_before a')) (length (a_before a)))
    as [Hle | Hgt]; [exact Hle|].
  exfalso. rewrite !render_anchor_rest in E.
  apply app_eq_length in E;
    [|rewrite (tag_length _ Htag), (tag_length _ Htag'); reflexivity].
  destruct E as [_ E]. unfold anchor_rest in E.
  destruct a as [tag before attr href after num gap word cl].
  destruct a' as [tag' before' attr' href' after' num' gap' word' cl'].
  cbn [a_tag a_before a_attr a_href a_after a_num a_gap a_word a_end] in *.
  set (V := "("%char :: num ++ ","%char :: gap ++ word ++ ")"%char
            :: cl ++ s) in E.
  set (Z' := href' ++ dquote :: after' ++ ">"%char :: "("%char
             :: num' ++ ","%char :: gap' ++ word' ++ ")"%char
             :: cl' ++ s') in E.
  clearbody V Z'.
  apply app_eq_app in E.
  destruct E as (l & [[E1 E2] | [E1 E2]]).
  { rewrite E1, length_app in Hgt. lia. }
  assert (Hl : ~ In ">"%char l).
  { intros Hin. apply Hbefore'. rewrite E1. apply in_or_app. now right. }
  assert (Hl0 : l <> []).
  { intros ->. rewrite app_nil_r in E1. rewrite E1 in Hgt. lia. }
  pose proof Hattr as Ha. pose proof Hattr' as Ha'.
  change ("href=" : str) with ["h"; "r"; "e"; "f"; "="]%char in Ha, Ha'.
  spell Ha. spell Ha'.
  destruct l as [|l1 [|l2 [|l3 [|l4 [|l5 [|l6 l]]]]]]; [congruence|..];
    cbn [app] in E2; injection E2; intros; subst;
    try (match goal with
         | H1 : lower_char ?c = _, H2 : lower_char ?c = _ |- _ =>
             rewrite H1 in H2; discriminate H2
         end);
    try (match goal with
         | H : lower_char dquote = _ |- _ => discriminate H
         end).
  match goal with
  | H : href ++ dquote :: after ++ ">"%char :: V = _ |- _ =>
      rename H into Erun
  end.
  change (href ++ dquote :: after ++ ">"%char :: V)
    with (href ++ (dquote :: after) ++ ">"%char :: V) in Erun.
  rewrite app_assoc in Erun.
  apply (f_equal tag_run) in Erun.
  rewrite tag_run_cut in Erun.
  match type of Erun with
  | _ = tag_run (l ++ ?y1 :: ?y2 :: ?y3 :: ?y4 :: ?y5 :: dquote :: Z') =>
      change (l ++ y1 :: y2 :: y3 :: y4 :: y5 :: dquote :: Z')
        with (l ++ [y1; y2; y3; y4; y5; dquote] ++ Z') in Erun;
      rewrite (app_assoc l) in Erun;
      assert (Er : ~ In ">"%char (l ++ [y1; y2; y3; y4; y5; dquote]))
  end.
  { intros Hin. apply in_app_or in Hin. destruct Hin as [Hin | Hin].
    - apply Hl. now do 6 right.
    - apply (in_map lower_char) in Hin.
      cbn [map] in Hin.
      repeat match goal with
             | H : lower_char _ = _ |- _ => rewrite H in Hin; clear H
             end.
      simpl in Hin. intuition discriminate. }
  apply (tag_run_app _ Z') in Er. rewrite Er in Erun.
  rewrite Erun, <- app_assoc, !lower_app in Hno.
  match type of Hno with
  | context [lower [?y1; ?y2; ?y3; ?y4; ?y5; dquote]] =>
      change (lower [y1; y2; y3; y4; y5; dquote])
        with (lower [y1; y2; y3; y4; y5] ++ [dquote]) in Hno
  end.
  rewrite Hattr' in Hno. fold href_quote in Hno.
  rewrite contains_app in Hno. discriminate Hno.
Qed.

Lemma render_markup_nonempty t a segs tail :
  render_markup ((t, a) :: segs) tail <> [].
Proof.
  rewrite render_markup_cons. intros E. apply (f_equal (@length ascii)) in E.
  rewrite length_app in E.
  pose proof (render_anchor_length a (render_markup segs tail)).
  simpl in E. lia.
Qed.

Lemma forallb_anchor_caps segs :
  forallb (fun c => short (group 2 c))
    (map (fun sa : str * anchor => anchor_caps (snd sa)) segs)
  = forallb (fun sa : str * anchor => short (a_num (snd sa))) segs.
Proof.
  induction segs as [|[t a] segs IH]; [reflexivity|].
  cbn [map forallb snd]. now rewrite IH.
Qed.

(** C3, as the code has it.  An anchor, for the markup tier, is a text
    [<a .. href=Q..Q ..>(n, word)</a>] (Q the double quote): the letters
    [<a], any characters but [>], the attribute name [href=] and a quoted
    value without quote, any characters but [>], the [>], a marker of one
    number ([n] digits, white space or none after the comma, [word] one of
    the four status words) and the closing tag, names and word in any case.
    Every markup reads as such anchors, each taken where it begins with the
    last [href=] of its tag, each after a text inside which no anchor begins,
    and a last text inside which none begins.  The markup tier gives one
    entry for each anchor, in the order of the anchors, with the lower-cased
    status word, and with the quoted value as reference when it starts with
    [http] and no reference otherwise; nothing else of the markup gives an
    entry.  When no number of an anchor has more digits than [int] takes
    these entries are what the tier returns, and on a line of the item shape
    with a count [int] takes and at least one anchor they are the result of
    [parse_equipment_line]; a number of more digits is a [ValueError].  An
    anchor whose tag does not hold [href=] and a quote once more between its
    quoted value and the first [>] after it is read with that value. *)
Theorem markup_tier_anchor_entries :
  forall date line ctry cat html m,
    re_match Client.item_pattern (strip line) = Some m ->
    length (group 1 m) <= int_max_str_digits ->
    let name := strip (group 2 m) in
    (exists segs tail,
       html = render_markup segs tail /\ markup_ok segs tail) /\
    (forall segs tail,
       html = render_markup segs tail -> markup_ok segs tail ->
       let found :=
         map (fun sa => anchor_entry date ctry name (snd sa)) segs in
       Client.markup_tier date ctry name html [] = found /\
       ((forall t a, In (t, a) segs ->
           length (a_num a) <= int_max_str_digits) ->
        Exn.markup_tier date ctry name html [] = Exn.Ok found /\
        (segs <> [] ->
         Exn.parse_equipment_line date line ctry cat (Some html)
         = Exn.Ok found)) /\
       ((exists t a, In (t, a) segs /\
                     int_max_str_digits < length (a_num a)) ->
        Exn.markup_tier date ctry name html [] = Exn.Raise Exn.ValueError /\
        Exn.parse_equipment_line date line ctry cat (Some html)
        = Exn.Raise Exn.ValueError)) /\
    (forall a s,
       anchor_shape a ->
       contains href_quote
         (lower (tag_run (a_href a ++ dquote :: a_after a))) = false ->
       chosen (render_anchor a ++ s) a).
Proof.
  intros date line ctry cat html m Hm Hlen name.
  split; [apply markup_reading | split; [|intros a s; apply chosen_last]].
  intros segs tail -> Hok found.
  assert (Hmk : Client.markup_tier date ctry name (render_markup segs tail) []
                = found)
    by (now rewrite markup_tier_markup).
  assert (Hfind : forallb (fun c => short (group 2 c))
                    (finditer Client.link_pattern (render_markup segs tail))
                  = forallb (fun sa : str * anchor => short (a_num (snd sa)))
                      segs).
  { unfold finditer. rewrite (finditer_markup _ _ _ Hok) by lia.
    apply forallb_anchor_caps. }
  apply Nat.leb_le in Hlen. fold (short (group 1 m)) in Hlen.
  split; [exact Hmk | split].
  - intros Hshort.
    assert (Hall : forallb (fun sa : str * anchor => short (a_num (snd sa)))
                     segs = true).
    { apply forallb_forall. intros [t a] Hin. apply Nat.leb_le.
      now apply (Hshort t a). }
    split.
    + now rewrite exn_markup_tier, Hfind, Hall, Hmk.
    + intros Hne. destruct segs as [|[t a] segs]; [congruence|].
      pose proof (render_markup_nonempty t a segs tail) as Hh.
      rewrite exn_parse_equipment_line, Hm, Hlen.
      rewrite (parse_equipment_line_cases _ _ _ _ _ _ Hm). cbv zeta.
      fold name.
      destruct (render_markup ((t, a) :: segs) tail) as [|x h] eqn:Eh;
        [congruence|].
      cbn [anchors_short markup_yield]. rewrite Hfind, Hall, Hmk.
      reflexivity.
  - intros (t & a & Hin & Hlong).
    assert (Hall : forallb (fun sa : str * anchor => short (a_num (snd sa)))
                     segs = false).
    { apply not_true_is_false. intros H. rewrite forallb_forall in H.
      apply H in Hin. cbn [snd] in Hin. apply Nat.leb_le in Hin. lia. }
    split.
    + now rewrite exn_markup_tier, Hfind, Hall.
    + destruct segs as [|[t0 a0] segs]; [destruct Hin|].
      pose proof (render_markup_nonempty t0 a0 segs tail) as Hh.
      rewrite exn_parse_equipment_line, Hm, Hlen.
      destruct (render_markup ((t0, a0) :: segs) tail) as [|x h] eqn:Eh;
        [congruence|].
      cbn [anchors_short]. rewrite Hfind, Hall. reflexivity.
Qed.

Lemma markup_tier_anchor_entries_witness :
  Exn.parse_equipment_line "2024-05-01"
    "2 T-72: (1, damaged) (2,Captured)" "Russia" "Tanks"
    (Some
       (render_markup
          [(("<li>2 T-72: <a href=" : str) ++ dquote :: ("/t72" : str)
            ++ dquote :: (">T-72</a> " : str),
            mkAnchor "<A"
              ((" class=" : str) ++ dquote :: ("x" : str) ++ dquote
               :: (" " : str))
              "HREF=" "http://x/1?a>b"
              ((" rel=" : str) ++ dquote :: ("n" : str) ++ [dquote])
              "1" " " "damaged" "</A>");
           (" " : str,
            mkAnchor "<a" " data-" "href=" "/rel/2" "" "2" "" "Captured"
              "</a>")]
          "</li>"))
  = Exn.Ok
      [mkEntry "russia" "T-72" "damaged" (Some ("http://x/1?a>b" : str))
         (Some ("2024-05-01" : str));
       mkEntry "russia" "T-72" "captured" None (Some ("2024-05-01" : str))].
Proof.
  assert (Hm : re_match Client.item_pattern
                 (strip "2 T-72: (1, damaged) (2,Captured)")
               = Some [(0, "2 T-72:" : str); (2, "T-72" : str);
                       (1, "2" : str)])
    by (vm_compute; reflexivity).
  refine (eq_trans
            (proj2 (proj1 (proj2
               (proj1 (proj2
                  (markup_tier_anchor_entries "2024-05-01"
                     "2 T-72: (1, damaged) (2,Captured)" "Russia" "Tanks"
                     _ _ Hm _))
                  _ "</li>" eq_refl _)) _) _) _).
  - vm_compute. lia.
  - cbn [markup_ok].
    repeat match goal with
           | |- _ /\ _ => split
           | |- no_start _ _ => apply quiet_no_start; vm_compute; reflexivity
           | |- chosen _ _ =>
               apply chosen_last;
               [repeat split; try (vm_compute; congruence);
                try (intros H; simpl in H; intuition discriminate);
                repeat constructor
               | vm_compute; reflexivity]
           | |- anchor_shape _ =>
               repeat split; try (vm_compute; congruence);
               try (intros H; simpl in H; intuition discriminate);
               repeat constructor
           end.
  - intros t a [E | [E | []]]; injection E as <- <-; vm_compute; lia.
  - discriminate.
  - vm_compute. reflexivity.
Defined.

(** The claim as the spec words it fails on anchors the link pattern does
    not cover, and on what it takes for absolute.  An anchor without [href]
    whose text is a marker gives no entry, nor does one whose [href] is in
    single quotes; the reference [ftp://x/1] is absolute and is dropped, the
    reference [httpd.html] is relative and is kept; and when a quoted value
    ends with [href=] the pattern runs on into the next anchor, so that two
    anchors give one entry. *)
Lemma markup_tier_misses_anchors :
  Client.markup_tier "2024-05-01" "russia" "T-72"
    (("<a name=" : str) ++ dquote :: ("x" : str) ++ dquote
     :: (">(1, damaged)</a>" : str)) [] = [] /\
  Client.markup_tier "2024-05-01" "russia" "T-72"
    "<a href='http://x/1'>(1, damaged)</a>" [] = [] /\
  Client.markup_tier "2024-05-01" "russia" "T-72"
    (("<a href=" : str) ++ dquote :: ("ftp://x/1" : str) ++ dquote
     :: (">(1, damaged)</a>" : str)) []
  = [mkEntry "russia" "T-72" "damaged" None (Some ("2024-05-01" : str))] /\
  Client.markup_tier "2024-05-01" "russia" "T-72"
    (("<a href=" : str) ++ dquote :: ("httpd.html" : str) ++ dquote
     :: (">(1, damaged)</a>" : str)) []
  = [mkEntry "russia" "T-72" "damaged" (Some ("httpd.html" : str))
       (Some ("2024-05-01" : str))] /\
  Client.markup_tier "2024-05-01" "russia" "T-72"
    (("<a href=" : str) ++ dquote :: ("http://x/?href=" : str) ++ dquote
     :: (">(1, damaged)</a><a href=" : str) ++ dquote
     :: ("http://x/2" : str) ++ dquote :: (">(2, destroyed)</a>" : str)) []
  = [mkEntry "russia" "T-72" "destroyed" None (Some ("2024-05-01" : str))].
Proof. repeat split; vm_compute; reflexivity. Qed.

(** * Further properties of the scanner *)

Lemma parse_equipment_line_ok date line ctry cat html_line e :
  In e (Client.parse_equipment_line date line ctry cat html_line) ->
  exists m, re_match Client.item_pattern (strip line) = Some m /\
            entry_ok date ctry (strip (group 2 m)) e.
Proof.
  intros He.
  destruct (re_match Client.item_pattern (strip line)) as [m|] eqn:Hm.
  2:{ unfold Client.parse_equipment_line in He. rewrite Hm in He.
      destruct He. }
  exists m. split; [reflexivity|].
  rewrite (parse_equipment_line_cases _ _ _ _ _ _ Hm) in He.
  cbv zeta in He.
  destruct (markup_yield date ctry (strip (group 2 m)) html_line)
    as [|e1 mk] eqn:Emk.
  - destruct (text_yield date ctry (strip (group 2 m)) line)
      as [|e2 tx] eqn:Etx.
    + apply repeat_spec in He. subst e. unfold entry_ok, destroyed_entry.
      cbn [status country equipment_type date_recorded url].
      repeat split; try reflexivity; [now left | now left].
    + apply (text_yield_ok _ _ _ line). now rewrite Etx.
  - apply (markup_yield_ok _ _ _ html_line). now rewrite Emk.
Qed.

(** One round of the loop keeps the entries it has and may add some. *)
Lemma scan_block_entries date ctry cl st b :
  exists st' added,
    (Client.scan_block date ctry cl st b = Next st'
     \/ Client.scan_block date ctry cl st b = Stop st') /\
    entries st' = entries st ++ added /\
    (forall e, In e added ->
       in_country_section st = true /\
       exists cat, current_category st = Some cat /\ truthy cat = true /\
         re_search Client.category_pattern (text b) = None /\
         In e (Client.parse_equipment_line date (text b) ctry cat
                 (Some (html_str b)))).
Proof.
  assert (Hnone : forall st' : scan_state,
            entries st' = entries st ->
            entries st' = entries st ++ [] /\
            (forall e, In e (@nil EquipmentEntry) ->
               in_country_section st = true /\
               exists cat, current_category st = Some cat /\
                 truthy cat = true /\
                 re_search Client.category_pattern (text b) = None /\
                 In e (Client.parse_equipment_line date (text b) ctry cat
                         (Some (html_str b))))).
  { intros st' E. split; [now rewrite app_nil_r | intros e []]. }
  destruct (truthy (text b)) eqn:Ht.
  2:{ exists st, []. rewrite scan_block_blank by assumption.
      split; [now left | now apply Hnone]. }
  destruct (Client.is_section_header cl (text b)) eqn:Hh.
  { eexists _, []. rewrite scan_block_header by assumption.
    split; [now left | now apply Hnone]. }
  rewrite (scan_block_rest _ _ _ _ _ Ht Hh).
  destruct (leaves_section cl st (text b)).
  { exists st, []. split; [now right | now apply Hnone]. }
  destruct (re_search Client.category_pattern (text b)) eqn:Hc.
  { eexists _, []. split; [now left | now apply Hnone]. }
  destruct (in_country_section st) eqn:Hin;
    [|exists st, []; split; [now left | now apply Hnone]].
  destruct (current_category st) as [[|x cat]|] eqn:Hcat;
    try (exists st, []; split; [now left | now apply Hnone]).
  destruct (re_match Client.item_pattern (text b));
    [|exists st, []; split; [now left | now apply Hnone]].
  eexists _, _. split; [left; reflexivity|]. split; [reflexivity|].
  intros e He. split; [reflexivity|]. exists (x :: cat). now repeat split.
Qed.

Lemma scan_blocks_entries date ctry cl els : forall st,
  exists added,
    entries (fst (Client.scan_blocks date ctry cl st els))
    = entries st ++ added /\
    (forall e, In e added ->
       exists b cat, In b els /\
         re_search Client.category_pattern (text b) = None /\
         In e (Client.parse_equipment_line date (text b) ctry cat
                 (Some (html_str b)))).
Proof.
  induction els as [|b els IH]; intros st.
  - exists []. simpl. split; [now rewrite app_nil_r | intros e []].
  - destruct (scan_block_entries date ctry cl st b)
      as (st' & added & Hstep & Hent & Hadd).
    cbn [Client.scan_blocks].
    destruct Hstep as [-> | ->].
    + destruct (IH st') as (more & Hm & Hmore).
      exists (added ++ more). rewrite Hm, Hent, app_assoc.
      split; [reflexivity|]. intros e He. apply in_app_or in He.
      destruct He as [He | He].
      * destruct (Hadd e He) as (_ & cat & _ & _ & Hc & Hp).
        exists b, cat. repeat split; [now left | assumption..].
      * destruct (Hmore e He) as (b' & cat & Hb & Hc & Hp).
        exists b', cat. repeat split; [now right | assumption..].
    + exists added. split; [exact Hent|]. intros e He.
      destruct (Hadd e He) as (_ & cat & _ & _ & Hc & Hp).
      exists b, cat. repeat split; [now left | assumption..].
Qed.

(** X1. On a page whose characters are below U+0100, every entry that
    [scrape_equipment_entries] returns for a country comes from the parser
    on one of the blocks: its country is the lower-cased country asked for,
    its status is one of the four words and its date is the current
    date. *)
Theorem scrape_equipment_entries_ok :
  forall date els ctry e,
    In e (Client.scrape_equipment_entries date els ctry) ->
    country e = lower ctry /\
    In (status e) status_names /\
    date_recorded e = Some date /\
    exists b cat,
      In b els /\
      In e (Client.parse_equipment_line date (text b) ctry cat
              (Some (html_str b))).
Proof.
  intros date els ctry e He. unfold Client.scrape_equipment_entries in He.
  destruct (scan_blocks_entries date ctry (lower ctry) els
              (mkState [] None false)) as (added & Hent & Hadd).
  rewrite Hent in He. cbn [entries app] in He.
  destruct (Hadd e He) as (b & cat & Hb & _ & Hp).
  destruct (parse_equipment_line_ok _ _ _ _ _ _ Hp)
    as (m & _ & Hs & Hc & _ & Hd & _).
  repeat split; try assumption. now exists b, cat.
Qed.

Lemma scrape_equipment_entries_ok_witness :
  country (mkEntry "russia" "T-72" "destroyed" None
             (Some ("2024-05-01" : str))) = lower "Russia".
Proof.
  refine (proj1 (scrape_equipment_entries_ok "2024-05-01"
                   [mkBlock "Russia - total losses" "";
                    mkBlock "Tanks (5)" ""; mkBlock "2 T-72:" ""]
                   "Russia" _ _)).
  vm_compute. left. reflexivity.
Defined.

(** X2. Nothing is parsed before the scan is inside the country section
    and has seen a category header: without a block that passes the
    section-header test, or without a block that matches the category
    pattern, [scrape_equipment_entries] returns no entry, whatever item
    lines the blocks hold. *)
Theorem scrape_needs_header_and_category :
  forall date els ctry,
    (forall b, In b els ->
       Client.is_section_header (lower ctry) (text b) = false) \/
    (forall b, In b els ->
       re_search Client.category_pattern (text b) = None) ->
    Client.scrape_equipment_entries date els ctry = [].
Proof.
  intros date els ctry H. unfold Client.scrape_equipment_entries.
  assert (G : forall st,
            entries st = [] ->
            ((forall b, In b els ->
                Client.is_section_header (lower ctry) (text b) = false)
             /\ in_country_section st = false) \/
            ((forall b, In b els ->
                re_search Client.category_pattern (text b) = None)
             /\ current_category st = None) ->
            entries (fst (Client.scan_blocks date ctry (lower ctry) st els))
            = []).
  { clear H. induction els as [|b els IH]; intros st He Hst;
      [exact He|].
    cbn [Client.scan_blocks].
    destruct (truthy (text b)) eqn:Ht.
    2:{ rewrite scan_block_blank by assumption. apply IH; [assumption|].
        destruct Hst as [[Hh Hs] | [Hc Hs]]; [left | right];
          (split; [intros b' Hb'; (apply Hh || apply Hc); now right
                  | assumption]). }
    destruct (Client.is_section_header (lower ctry) (text b)) eqn:Hh.
    { rewrite scan_block_header by assumption.
      destruct Hst as [[Hh' Hs] | [Hc Hs]].
      - rewrite (Hh' b (or_introl eq_refl)) in Hh. discriminate.
      - apply IH; [assumption|]. right.
        split; [intros b' Hb'; apply Hc; now right | assumption]. }
    rewrite (scan_block_rest _ _ _ _ _ Ht Hh).
    destruct (leaves_section (lower ctry) st (text b)); [exact He|].
    destruct (re_search Client.category_pattern (text b)) eqn:Hc.
    { destruct Hst as [[Hh' Hs] | [Hc' Hs]].
      - apply IH; [assumption|]. left.
        split; [intros b' Hb'; apply Hh'; now right | assumption].
      - rewrite (Hc' b (or_introl eq_refl)) in Hc. discriminate. }
    assert (Hst' : ((forall b0, In b0 els ->
                       Client.is_section_header (lower ctry) (text b0)
                       = false)
                    /\ in_country_section st = false) \/
                   ((forall b0, In b0 els ->
                       re_search Client.category_pattern (text b0) = None)
                    /\ current_category st = None)).
    { destruct Hst as [[Hh' Hs] | [Hc' Hs]]; [left | right];
        (split; [intros b' Hb'; (apply Hh' || apply Hc'); now right
                | assumption]). }
    destruct Hst as [[_ Hs] | [_ Hs]]; rewrite Hs.
    - now apply IH.
    - set (i := in_country_section st) in |- *. clearbody i.
      destruct i; now apply IH. }
  apply G; [reflexivity|].
  destruct H as [H | H]; [left | right]; now split.
Qed.

Lemma scrape_needs_header_and_category_witness :
  Client.scrape_equipment_entries "2024-05-01"
    [mkBlock "Tanks (5)" ""; mkBlock "2 T-72:" ""] "russia" = [].
Proof.
  apply scrape_needs_header_and_category. left.
  intros b [<- | [<- | []]]; vm_compute; reflexivity.
Defined.

(** X3. The scan only appends: the entries of the first blocks of a page
    are the first entries of the whole page. *)
Theorem scrape_prefix :
  forall date pre post ctry,
    exists more,
      Client.scrape_equipment_entries date (pre ++ post) ctry
      = Client.scrape_equipment_entries date pre ctry ++ more.
Proof.
  intros date pre post ctry. unfold Client.scrape_equipment_entries.
  rewrite scan_blocks_app.
  destruct (Client.scan_blocks date ctry (lower ctry)
              (mkState [] None false) pre) as [st [|]] eqn:E.
  - exists []. cbn [fst]. now rewrite app_nil_r.
  - cbn [fst].
    destruct (scan_blocks_entries date ctry (lower ctry) post st)
      as (added & Hent & _).
    exists added. exact Hent.
Qed.

(** X4. For a country other than the two the exit test names, the scan
    never stops early: every block of the page is examined. *)
Theorem scan_never_stops_for_other_countries :
  forall date ctry els st,
    other_country (lower ctry) = None ->
    snd (Client.scan_blocks date ctry (lower ctry) st els) = false.
Proof.
  intros date ctry els st Ho. revert st.
  induction els as [|b els IH]; intros st; [reflexivity|].
  cbn [Client.scan_blocks].
  destruct (truthy (text b)) eqn:Ht;
    [|rewrite scan_block_blank by assumption; apply IH].
  destruct (Client.is_section_header (lower ctry) (text b)) eqn:Hh;
    [rewrite scan_block_header by assumption; apply IH|].
  rewrite (scan_block_rest _ _ _ _ _ Ht Hh).
  assert (leaves_section (lower ctry) st (text b) = false) as ->.
  { unfold leaves_section. unfold other_country in Ho.
    destruct (str_eqb (lower ctry) "russia"); [discriminate|].
    destruct (str_eqb (lower ctry) "ukraine"); [discriminate|].
    rewrite !andb_false_r. reflexivity. }
  destruct (re_search Client.category_pattern (text b)); [apply IH|].
  destruct (in_country_section st); [|apply IH].
  destruct (current_category st) as [[|x cat]|]; try apply IH.
  destruct (re_match Client.item_pattern (text b)); apply IH.
Qed.

Lemma scan_never_stops_for_other_countries_witness :
  snd (Client.scan_blocks "2024-05-01" "Belarus" (lower "Belarus")
         initial_state
         [mkBlock "Belarus losses" ""; mkBlock "Ukraine and Russia" ""])
  = false.
Proof.
  apply scan_never_stops_for_other_countries. vm_compute. reflexivity.
Defined.

Lemma parse_equipment_line_lower date line ctry ctry' cat html_line :
  lower ctry = lower ctry' ->
  Client.parse_equipment_line date line ctry cat html_line
  = Client.parse_equipment_line date line ctry' cat html_line.
Proof.
  intros H.
  unfold Client.parse_equipment_line, Client.markup_tier, Client.text_tier,
    Client.fallback_tier, Client.link_entry, Client.status_entries.
  rewrite H. reflexivity.
Qed.

Lemma scan_blocks_lower date ctry ctry' cl els : forall st,
  lower ctry = lower ctry' ->
  Client.scan_blocks date ctry cl st els
  = Client.scan_blocks date ctry' cl st els.
Proof.
  induction els as [|b els IH]; intros st H; [reflexivity|].
  cbn [Client.scan_blocks].
  assert (E : Client.scan_block date ctry cl st b
              = Client.scan_block date ctry' cl st b).
  { unfold Client.scan_block.
    destruct (current_category st) as [cat|]; [|reflexivity].
    now rewrite (parse_equipment_line_lower date (text b) ctry ctry' cat
                   (Some (html_str b)) H). }
  rewrite E. destruct (Client.scan_block date ctry' cl st b);
    [now apply IH | reflexivity].
Qed.

(** X5. The country asked for counts only up to case: two spellings with
    the same lower-case form give the same entries. *)
Theorem scrape_country_case :
  forall date els ctry ctry',
    lower ctry = lower ctry' ->
    Client.scrape_equipment_entries date els ctry
    = Client.scrape_equipment_entries date els ctry'.
Proof.
  intros date els ctry ctry' H. unfold Client.scrape_equipment_entries.
  rewrite <- H. now rewrite (scan_blocks_lower date ctry ctry').
Qed.

Lemma scrape_country_case_witness :
  Client.scrape_equipment_entries "2024-05-01"
    [mkBlock "Russia - total losses" ""; mkBlock "Tanks (5)" "";
     mkBlock "2 T-72:" ""] "RUSSIA"
  = Client.scrape_equipment_entries "2024-05-01"
      [mkBlock "Russia - total losses" ""; mkBlock "Tanks (5)" "";
       mkBlock "2 T-72:" ""] "russia".
Proof. apply scrape_country_case. vm_compute. reflexivity. Defined.

(** ** Item lines that are taken for category headers *)

Lemma span_class (p : ascii -> bool) (s : str) :
  exists u t, s = u ++ t /\ all_in p u /\ stops p t.
Proof.
  induction s as [|x s (u & t & -> & Hu & Ht)].
  - exists [], []. repeat split. constructor.
  - destruct (p x) eqn:E.
    + exists (x :: u), t. repeat split; [now constructor | assumption].
    + exists [], (x :: u ++ t). repeat split; [constructor | exact E].
Qed.

Lemma lazy_run_some {A : Type} n0 p u : forall s c (k : cont A),
  all_in p u ->
  (exists v, k s c = Some v) ->
  exists v, rmatch n0 (Star false (Chr p)) (u ++ s) c k = Some v.
Proof.
  induction u as [|x u IH]; intros s c k Hu Hk; rewrite rmatch_star;
    cbv zeta; cbn [app].
  - destruct Hk as [v ->]. now exists v.
  - destruct (k (x :: u ++ s) c) as [v|]; [now exists v|].
    inversion Hu; subst. cbn [rmatch].
    match goal with H : p x = true |- _ => rewrite H end.
    assert ((length (u ++ s) <? length (x :: u ++ s)) = true) as ->
      by (apply Nat.ltb_lt; simpl; lia).
    now apply IH.
Qed.

Lemma plus_lazy_some {A : Type} n0 p x u s c (k : cont A) :
  p x = true -> all_in p u ->
  (exists v, k s c = Some v) ->
  exists v, rmatch n0 (plus_lazy (Chr p)) (x :: u ++ s) c k = Some v.
Proof.
  intros Hx Hu Hk. unfold plus_lazy.
  change (rmatch n0 (Seq (Chr p) (Star false (Chr p))) (x :: u ++ s) c k)
    with (if p x then rmatch n0 (Star false (Chr p)) (u ++ s) c k
          else None).
  rewrite Hx. now apply lazy_run_some.
Qed.

(** A text that opens with characters other than a parenthesis, then has
    a parenthesis and a digit, matches the category pattern. *)
Lemma category_pattern_marker p d rest :
  p <> [] -> ~ In "("%char p -> isdigit d = true ->
  exists m,
    re_search Client.category_pattern (p ++ "("%char :: d :: rest) = Some m.
Proof.
  intros Hp Hno Hd. destruct p as [|x p]; [congruence|].
  unfold re_search.
  set (text := (x :: p) ++ "("%char :: d :: rest).
  assert (exists f, match_at (length text) Client.category_pattern text
                    = Some f) as [f Hf].
  { unfold match_at, Client.category_pattern. cbn [rmatch].
    rewrite Nat.eqb_refl. unfold text. cbn [app].
    apply (plus_lazy_some _ (fun c => negb (Ascii.eqb c "(")) x p
             ("("%char :: d :: rest) []).
    { destruct (Ascii.eqb x "(") eqn:E; [|reflexivity].
      apply Ascii.eqb_eq in E. exfalso. apply Hno. now left. }
    { apply all_in_not. intros H. apply Hno. now right. }
    destruct (span_class isdigit rest) as (u & t & -> & Hu & Ht).
    eexists.
    apply (step_star _ isspace []); [constructor | reflexivity|].
    apply step_chr.
    apply (step_plus _ isdigit); [assumption | assumption | assumption|].
    reflexivity. }
  destruct text; cbn [search_from]; rewrite Hf; eauto.
Qed.

(** X6. A block whose text opens with characters other than a parenthesis
    and then has a parenthesis followed by a digit matches the category
    pattern, so the loop never parses it as an item line: it adds no entry.
    This is the shape of every item line that carries markers, such as
    "154 T-62M: (1, destroyed)"; [scrape_equipment_entries] takes entries
    only from blocks that do not match the category pattern, and returns
    none when every block of the item shape has this form. *)
Theorem marked_item_lines_are_skipped :
  forall date ctry,
    (forall cl st b p d rest st',
       text b = p ++ "("%char :: d :: rest ->
       p <> [] -> ~ In "("%char p -> isdigit d = true ->
       Client.scan_block date ctry cl st b = Next st'
       \/ Client.scan_block date ctry cl st b = Stop st' ->
       entries st' = entries st) /\
    (forall els,
       (forall b m, In b els ->
          re_match Client.item_pattern (strip (text b)) = Some m ->
          exists p d rest,
            text b = p ++ "("%char :: d :: rest /\
            p <> [] /\ ~ In "("%char p /\ isdigit d = true) ->
       Client.scrape_equipment_entries date els ctry = []).
Proof.
  intros date ctry. split.
  - intros cl st b p d rest st' Ht Hp Hno Hd Hstep.
    destruct (category_pattern_marker p d rest Hp Hno Hd) as [m Hm].
    rewrite <- Ht in Hm.
    destruct (scan_block_entries date ctry cl st b)
      as (st1 & added & Hs1 & Hent & Hadd).
    assert (st1 = st') as ->.
    { destruct Hs1 as [E | E], Hstep as [E' | E']; congruence. }
    destruct added as [|e added]; [now rewrite app_nil_r in Hent|].
    destruct (Hadd e (or_introl eq_refl)) as (_ & cat & _ & _ & Hc & _).
    congruence.
  - intros els H. unfold Client.scrape_equipment_entries.
    destruct (scan_blocks_entries date ctry (lower ctry) els
                (mkState [] None false)) as (added & -> & Hadd).
    cbn [entries app]. destruct added as [|e added]; [reflexivity|].
    destruct (Hadd e (or_introl eq_refl)) as (b & cat & Hb & Hc & Hp).
    destruct (parse_equipment_line_ok _ _ _ _ _ _ Hp) as (m & Hm & _).
    destruct (H b m Hb Hm) as (p & d & rest & Ht & Hp' & Hno & Hd).
    destruct (category_pattern_marker p d rest Hp' Hno Hd) as [m' Hm'].
    rewrite <- Ht in Hm'. congruence.
Qed.

Lemma marked_item_lines_are_skipped_witness :
  Client.scrape_equipment_entries "2024-05-01"
    [mkBlock "Russia - total losses" ""; mkBlock "Tanks (5)" "";
     mkBlock "154 T-62M: (1, destroyed) (2, captured)" ""] "russia" = [].
Proof.
  apply (proj2 (marked_item_lines_are_skipped "2024-05-01" "russia")).
  intros b m [<- | [<- | [<- | []]]] Hm; try (vm_compute in Hm; discriminate).
  exists ("154 T-62M: " : str), "1"%char,
    (", destroyed) (2, captured)" : str).
  repeat split; try discriminate.
  intros H. simpl in H. intuition discriminate.
Defined.

(** * Further properties of the aggregator *)

Section KeySums.
Context {K : Type} (keqb : K -> K -> bool).
Hypothesis keqb_eq : forall a b, keqb a b = true <-> a = b.
Variable keyf : EquipmentEntry -> K.

Lemma list_sum_zero {T : Type} (l : list T) :
  list_sum (map (fun _ => 0) l) = 0.
Proof. induction l; simpl; auto. Qed.

Lemma list_sum_plus {T : Type} (f g : T -> nat) (l : list T) :
  list_sum (map (fun x => f x + g x) l)
  = list_sum (map f l) + list_sum (map g l).
Proof. induction l as [|x l IH]; simpl; [reflexivity | rewrite IH; lia]. Qed.

Lemma indicator_sum (x : K) (b : bool) (ks : list K) :
  NoDup ks ->
  list_sum (map (fun k => if keqb x k && b then 1 else 0) ks)
  = if b && existsb (keqb x) ks then 1 else 0.
Proof.
  induction 1 as [|k ks Hk Hnd IH]; simpl.
  - now rewrite andb_false_r.
  - rewrite IH. destruct b; simpl; [|now rewrite andb_false_r].
    rewrite !andb_true_r.
    destruct (keqb x k) eqn:E; simpl; [|reflexivity].
    apply keqb_eq in E. subst k.
    destruct (existsb (keqb x) ks) eqn:E'; [|reflexivity].
    apply existsb_exists in E'. destruct E' as (k' & Hin & Ek).
    apply keqb_eq in Ek. subst k'. contradiction.
Qed.

(** Counting the entries key by key, over keys that are all different,
    counts each entry whose key is among them once. *)
Lemma count_by_keys (q : EquipmentEntry -> bool) (ks : list K) es :
  NoDup ks ->
  list_sum
    (map (fun k => length (filter (fun e => keqb (keyf e) k && q e) es)) ks)
  = length (filter (fun e => q e && existsb (keqb (keyf e)) ks) es).
Proof.
  intros Hnd. induction es as [|e es IH].
  - simpl. apply list_sum_zero.
  - cbn [filter].
    rewrite (map_ext
               (fun k => length (if keqb (keyf e) k && q e
                                 then e :: filter (fun e0 =>
                                        keqb (keyf e0) k && q e0) es
                                 else filter (fun e0 =>
                                        keqb (keyf e0) k && q e0) es))
               (fun k => (if keqb (keyf e) k && q e then 1 else 0)
                         + length (filter (fun e0 =>
                                     keqb (keyf e0) k && q e0) es))).
    + rewrite list_sum_plus, IH, indicator_sum by assumption.
      destruct (q e && existsb (keqb (keyf e)) ks); reflexivity.
    + intros k. destruct (keqb (keyf e) k && q e); reflexivity.
Qed.

Lemma keys_of_cover es e :
  In e es -> existsb (keqb (keyf e)) (keys_of keqb keyf es) = true.
Proof.
  intros H. apply existsb_exists. exists (keyf e).
  split; [|now apply keqb_eq].
  apply (keys_of_In keqb keqb_eq). now apply in_map.
Qed.

(** Over the keys of the entries themselves every entry is counted. *)
Lemma key_count_total es :
  list_sum (map (key_count keqb keyf es) (keys_of keqb keyf es))
  = length es.
Proof.
  unfold key_count.
  rewrite (map_ext _
             (fun k => length (filter (fun e => keqb (keyf e) k && true)
                                 es)))
    by (intros k; f_equal; apply filter_ext; intros e;
        now rewrite andb_true_r).
  rewrite count_by_keys by apply (keys_of_NoDup keqb keqb_eq).
  f_equal. rewrite <- (filter_ext_in (fun _ => true)).
  - clear. induction es; simpl; congruence.
  - intros e He. cbn [andb]. symmetry. now apply keys_of_cover.
Qed.


End KeySums.





Lemma daily_of_total date es k :
  all_status es = true ->
  d_type_total (daily_of date es k)
  = key_count key3_eqb (Client.daily_key date) es k.
Proof. intros H. now apply tally_sum. Qed.

Lemma totals_of_total es k :
  all_status es = true ->
  t_total (totals_of es k) = key_count key2_eqb Client.totals_key es k.
Proof. intros H. now apply tally_sum. Qed.





Lemma existsb_filter {T : Type} (f g : T -> bool) (l : list T) :
  existsb f (filter g l) = existsb (fun x => g x && f x) l.
Proof.
  induction l as [|x l IH]; simpl; [reflexivity|].
  destruct (g x); simpl; [now rewrite IH | exact IH].
Qed.

Lemma filter_map_swap {T U : Type} (f : T -> U) (g : U -> bool)
    (l : list T) :
  filter g (map f l) = map f (filter (fun x => g (f x)) l).
Proof.
  induction l as [|x l IH]; simpl; [reflexivity|].
  destruct (g (f x)); simpl; now rewrite IH.
Qed.

(** The daily rows of one (country, equipment_type). *)
Definition rows_of_type (c t : str) (daily : list DailyRow)
    : list DailyRow :=
  filter (fun d => key2_eqb (d_country d, d_equipment_type d) (c, t)) daily.

Lemma tally_over_dates date es c t s :
  tally key2_eqb Client.totals_key es (c, t) s
  = list_sum
      (map (fun k => tally key3_eqb (Client.daily_key date) es k s)
         (filter (fun k => key2_eqb (fst k) (c, t))
            (keys_of key3_eqb (Client.daily_key date) es))).
Proof.
  unfold tally at 2.
  rewrite (count_by_keys key3_eqb key3_eqb_eq (Client.daily_key date)
             (fun e => str_eqb (status e) s))
    by (apply NoDup_filter, (keys_of_NoDup _ key3_eqb_eq)).
  unfold tally. f_equal. apply filter_ext_in. intros e He.
  rewrite andb_comm. f_equal. rewrite existsb_filter.
  destruct (key2_eqb (Client.totals_key e) (c, t)) eqn:E.
  - symmetry. apply existsb_exists. exists (Client.daily_key date e).
    split; [|apply andb_true_iff; split;
             [exact E | now apply key3_eqb_eq]].
    apply (keys_of_In _ key3_eqb_eq). now apply in_map.
  - symmetry. destruct (existsb _ _) eqn:E'; [|reflexivity].
    apply existsb_exists in E'. destruct E' as (k & _ & Hk).
    apply andb_true_iff in Hk. destruct Hk as [Hk1 Hk2].
    apply key3_eqb_eq in Hk2. subst k.
    change (fst (Client.daily_key date e)) with (Client.totals_key e) in Hk1.
    congruence.
Qed.

(** X9. The totals-by-type table is the daily-count table with the dates
    summed out: each count and the total of a totals row is the sum of
    that column over the daily rows of the same country and equipment
    type. *)
Theorem totals_sum_daily_rows :
  forall date es daily totals r,
    Client.generate_daily_count_csv date es = Some daily ->
    Client.generate_totals_by_type_csv es = Some totals ->
    In r totals ->
    let mine := rows_of_type (t_country r) (t_type r) daily in
    t_destroyed r = list_sum (map d_destroyed mine) /\
    t_abandoned r = list_sum (map d_abandoned mine) /\
    t_captured r = list_sum (map d_captured mine) /\
    t_damaged r = list_sum (map d_damaged mine) /\
    t_total r = list_sum (map d_type_total mine).
Proof.
  intros date es daily totals r.
  rewrite generate_daily_count_csv_spec, generate_totals_by_type_csv_spec.
  destruct (all_status es) eqn:Hv; [|discriminate].
  intros E E' Hr. injection E as <-. injection E' as <-.
  apply in_map_iff in Hr. destruct Hr as ([c t] & <- & _).
  cbn [totals_of t_country t_type t_destroyed t_abandoned t_captured
       t_damaged t_total fst snd]. cbv zeta.
  unfold rows_of_type. rewrite filter_map_swap.
  rewrite (filter_ext _ (fun k : str * str * str => key2_eqb (fst k) (c, t)))
    by (intros [[c' t'] d']; reflexivity).
  rewrite !map_map.
  assert (Hs : forall s,
            tally key2_eqb Client.totals_key es (c, t) s
            = list_sum
                (map (fun k => tally key3_eqb (Client.daily_key date) es k s)
                   (filter (fun k => key2_eqb (fst k) (c, t))
                      (keys_of key3_eqb (Client.daily_key date) es))))
    by (intros s; apply tally_over_dates).
  repeat split; try apply Hs.
  unfold sum_values, counts_of. cbn [Dict.values map snd list_sum].
  rewrite !Hs.
  rewrite (map_ext
             (fun x => d_type_total (daily_of date es x))
             (fun k =>
                tally key3_eqb (Client.daily_key date) es k "destroyed"
                + (tally key3_eqb (Client.daily_key date) es k "abandoned"
                   + (tally key3_eqb (Client.daily_key date) es k "captured"
                      + (tally key3_eqb (Client.daily_key date) es k
                           "damaged" + 0)))))
    by (intros k; reflexivity).
  rewrite !list_sum_plus. rewrite list_sum_zero. reflexivity.
Qed.

Lemma totals_sum_daily_rows_witness :
  let es := [mkEntry "russia" "T-72" "destroyed" None
               (Some ("2024-05-01" : str));
             mkEntry "russia" "T-72" "destroyed" None
               (Some ("2024-05-02" : str));
             mkEntry "russia" "T-72" "captured" None None] in
  t_destroyed (mkTotals "russia" "T-72" 2 0 1 0 3)
  = list_sum (map d_destroyed
                (rows_of_type "russia" "T-72"
                   [mkDaily "russia" "T-72" 1 0 0 0 1 "2024-05-01";
                    mkDaily "russia" "T-72" 1 0 0 0 1 "2024-05-02";
                    mkDaily "russia" "T-72" 0 0 1 0 1 "2024-05-03"])).
Proof.
  intros es.
  refine (proj1 (totals_sum_daily_rows "2024-05-03" es _ _
                   (mkTotals "russia" "T-72" 2 0 1 0 3) _ _ _)).
  - vm_compute. reflexivity.
  - vm_compute. reflexivity.
  - left. reflexivity.
Defined.

(** * The whole run, with its exceptions *)

Lemma scrape_entry_ok date els ctry e :
  In e (Client.scrape_equipment_entries date els ctry) ->
  country e = lower ctry /\ is_status (status e) = true /\
  date_recorded e = Some date.
Proof.
  intros He. unfold Client.scrape_equipment_entries in He.
  destruct (scan_blocks_entries date ctry (lower ctry) els
              (mkState [] None false)) as (added & Hent & Hadd).
  rewrite Hent in He. cbn [entries app] in He.
  destruct (Hadd e He) as (b & cat & _ & _ & Hp).
  destruct (parse_equipment_line_ok _ _ _ _ _ _ Hp)
    as (m & _ & Hs & Hc & _ & Hd & _).
  repeat split; try assumption.
  unfold is_status. apply existsb_exists. exists (status e).
  split; [assumption | apply str_eqb_refl].
Qed.

Lemma str_or_same date : str_or (Some date) date = date.
Proof. now destruct date. Qed.

(** Every number a call of [parse_equipment_line] converts is within the
    limit of [int]. *)
Definition converts (line : str) (html_line : option str) : bool :=
  match re_match Client.item_pattern (strip line) with
  | None => true
  | Some m => short (group 1 m) && anchors_short html_line
  end.

Lemma exn_parse_converts date line ctry cat html_line :
  Exn.parse_equipment_line date line ctry cat html_line =
  if converts line html_line
  then Exn.Ok (Client.parse_equipment_line date line ctry cat html_line)
  else Exn.Raise Exn.ValueError.
Proof.
  rewrite exn_parse_equipment_line. unfold converts.
  destruct (re_match Client.item_pattern (strip line)) as [m|] eqn:Hm;
    [reflexivity|].
  unfold Client.parse_equipment_line. now rewrite Hm.
Qed.

(** One round of the loop raises nothing but [ValueError], and when it
    raises nothing it does what [Client.scan_block] says. *)
Lemma exn_scan_block date ctry cl st b :
  Exn.scan_block date ctry cl st b
  = Exn.Ok (Client.scan_block date ctry cl st b)
  \/ (Exn.scan_block date ctry cl st b = Exn.Raise Exn.ValueError /\
      converts (text b) (Some (html_str b)) = false).
Proof.
  unfold Exn.scan_block, Client.scan_block.
  destruct (negb (truthy (text b))); [now left|].
  destruct (Client.is_section_header cl (text b)); [now left|].
  match goal with
  | |- context [if ?l then Exn.Ok (Stop st) else _] => destruct l
  end; [now left|].
  destruct (re_search Client.category_pattern (text b)); [now left|].
  destruct (in_country_section st && opt_truthy (current_category st));
    [|now left].
  destruct (re_match Client.item_pattern (text b)); [|now left].
  destruct (current_category st) as [cat|]; [|now left].
  rewrite exn_parse_converts.
  destruct (converts (text b) (Some (html_str b))); [now left|].
  right. split; reflexivity.
Qed.

Lemma exn_scan_blocks date ctry cl els : forall st,
  (Exn.scan_blocks date ctry cl st els
   = Exn.Ok (Client.scan_blocks date ctry cl st els)
   \/ Exn.scan_blocks date ctry cl st els = Exn.Raise Exn.ValueError) /\
  ((forall b, In b els -> converts (text b) (Some (html_str b)) = true) ->
   Exn.scan_blocks date ctry cl st els
   = Exn.Ok (Client.scan_blocks date ctry cl st els)).
Proof.
  induction els as [|b els IH]; intros st.
  - split; [now left | reflexivity].
  - cbn [Exn.scan_blocks Client.scan_blocks].
    destruct (exn_scan_block date ctry cl st b) as [E | [E Hc]]; rewrite E;
      cbn [Exn.bind].
    + destruct (Client.scan_block date ctry cl st b) as [st'|st'].
      * destruct (IH st') as [H1 H2]. split; [exact H1|].
        intros H. apply H2. intros b' Hb'. apply H. now right.
      * split; [now left | reflexivity].
    + split; [now right|]. intros H.
      rewrite (H b (or_introl eq_refl)) in Hc. discriminate.
Qed.

(** What holds of every captured text: it is no longer than the subject. *)
Lemma matches_bound n0 r s c s' c' (n : nat) :
  matches n0 r s c s' c' ->
  length s' <= length s /\
  (length s <= n -> Forall (fun p => length (snd p) <= n) c ->
   Forall (fun p => length (snd p) <= n) c').
Proof.
  induction 1 as [s c|s c E|p x s c Hp
                  |r1 r2 s c s1 c1 s2 c2 H1 IH1 H2 IH2
                  |r1 r2 s c s' c' H1 IH1|r1 r2 s c s' c' H1 IH1
                  |g r s c|g r s c s1 c1 s2 c2 H1 IH1 H2 IH2
                  |i r s c s' c' H1 IH1].
  - split; [lia | auto].
  - split; [lia | auto].
  - split; [simpl; lia | auto].
  - destruct IH1 as [L1 B1], IH2 as [L2 B2]. split; [lia|].
    intros Hn Hc. apply B2; [lia | now apply B1].
  - exact IH1.
  - exact IH1.
  - split; [lia | auto].
  - destruct IH1 as [L1 B1], IH2 as [L2 B2]. split; [lia|].
    intros Hn Hc. apply B2; [lia | now apply B1].
  - destruct IH1 as [L1 B1]. split; [exact L1|].
    intros Hn Hc. constructor; [|now apply B1].
    cbn [snd]. rewrite length_firstn. lia.
Qed.

Lemma group_bound n i c :
  Forall (fun p => length (snd p) <= n) c -> length (group i c) <= n.
Proof.
  induction 1 as [|[j v] c Hv Hc IH]; cbn [group]; [simpl; lia|].
  destruct (j =? i); [exact Hv | exact IH].
Qed.

Lemma match_at_bound n0 r s c s' i :
  match_at n0 r s = Some (c, s') ->
  length (group i c) <= length s /\ length s' <= length s.
Proof.
  unfold match_at. intros H. apply rmatch_sound in H.
  destruct H as (s1 & c1 & Hm & Hk). injection Hk as <- <-.
  destruct (matches_bound n0 _ _ _ _ _ (length s) Hm) as [L B].
  split; [|exact L]. apply group_bound. apply B; [lia | constructor].
Qed.

Lemma finditer_from_bound n0 r c i : forall fuel s,
  In c (finditer_from fuel n0 r s) -> length (group i c) <= length s.
Proof.
  induction fuel as [|fuel IH]; intros s H; [destruct H|].
  rewrite finditer_unfold in H.
  destruct (match_at n0 r s) as [[c0 s0]|] eqn:E.
  - destruct (match_at_bound n0 r s c0 s0 i E) as [B L].
    destruct (length s0 <? length s).
    + destruct H as [<- | H]; [exact B|]. apply IH in H. lia.
    + destruct H as [<- | []]. exact B.
  - destruct s as [|x t]; [destruct H|]. apply IH in H. simpl. lia.
Qed.

Lemma lstrip_length s : length (lstrip s) <= length s.
Proof.
  induction s as [|x s IH]; [reflexivity|]. cbn [lstrip].
  destruct (isspace x); simpl in *; lia.
Qed.

Lemma strip_length s : length (strip s) <= length s.
Proof.
  unfold strip, rstrip. rewrite length_rev.
  pose proof (lstrip_length (rev (lstrip s))) as H1.
  rewrite length_rev in H1. pose proof (lstrip_length s). lia.
Qed.

(** A line and a markup of no more characters than the limit of [int] hold
    no number that [int] refuses. *)
Lemma converts_short line html_line :
  length line <= int_max_str_digits ->
  (forall h, html_line = Some h -> length h <= int_max_str_digits) ->
  converts line html_line = true.
Proof.
  intros Hl Hh. unfold converts.
  destruct (re_match Client.item_pattern (strip line)) as [m|] eqn:Hm;
    [|reflexivity].
  apply andb_true_intro. split.
  - unfold re_match in Hm.
    destruct (match_at (length (strip line)) Client.item_pattern (strip line))
      as [[c s']|] eqn:E; [|discriminate].
    injection Hm as <-.
    destruct (match_at_bound _ _ _ _ _ 1 E) as [B _].
    apply Nat.leb_le. pose proof (strip_length line). cbn [fst]. lia.
  - apply anchors_short_iff. intros x h c -> Hc.
    apply (finditer_from_bound _ _ _ 2) in Hc.
    specialize (Hh _ eq_refl). lia.
Qed.

Lemma exn_collect_ok date fetch cs : forall n all res,
  Exn.collect date fetch n cs all = Exn.Ok res ->
  exists more,
    res = all ++ more /\
    forall e, In e more ->
      (exists c, In c cs /\ country e = lower c) /\
      is_status (status e) = true /\ date_recorded e = Some date.
Proof.
  induction cs as [|c cs IH]; intros n all res H; cbn [Exn.collect] in H.
  - injection H as <-. exists []. split; [now rewrite app_nil_r|].
    intros e [].
  - destruct (fetch n) as [[els|]|];
      cbn [Exn.scrape_equipment_entries Exn.bind] in H; try discriminate.
    destruct (proj1 (exn_scan_blocks date c (lower c) els
                       (mkState [] None false))) as [E | E];
      rewrite E in H; cbn [Exn.bind] in H; [|discriminate].
    fold (Client.scrape_equipment_entries date els c) in H.
    apply IH in H. destruct H as (more & -> & Hmore).
    exists (Client.scrape_equipment_entries date els c ++ more).
    split; [now rewrite app_assoc|]. intros e He.
    apply in_app_or in He. destruct He as [He | He].
    + apply scrape_entry_ok in He. destruct He as (Hc & Hs & Hd).
      split; [exists c; split; [now left | assumption] | now split].
    + destruct (Hmore e He) as ((c' & Hc' & Ec) & Hs & Hd).
      split; [exists c'; split; [now right | assumption] | now split].
Qed.

(** The aggregation of collected entries does not fail. *)
Lemma exn_collect_tables date fetch cs n all0 all :
  all0 = [] ->
  Exn.collect date fetch n cs all0 = Exn.Ok all ->
  Client.generate_daily_count_csv date all
  = Some (map (daily_of date all)
            (keys_of key3_eqb (Client.daily_key date) all)) /\
  Client.generate_totals_by_type_csv all
  = Some (map (totals_of all) (keys_of key2_eqb Client.totals_key all)).
Proof.
  intros -> H. apply exn_collect_ok in H. destruct H as (more & -> & Hmore).
  cbn [app].
  assert (Hv : all_status more = true).
  { apply forallb_forall. intros e He. now apply Hmore. }
  rewrite generate_daily_count_csv_spec, generate_totals_by_type_csv_spec, Hv.
  split; reflexivity.
Qed.

(** X10. On pages whose characters are below U+0100, [scrape] never fails
    with a [KeyError] in the aggregation, and a report it returns is
    consistent: [total_entries] is the sum of [type_total] over the
    daily-count rows and the sum of [total] over the totals-by-type rows,
    every daily row bears the date of the run, and the country of every row
    is one of the countries asked for, in lower case. *)
Theorem scrape_report_consistent :
  forall date fetch countries,
    Exn.scrape date fetch countries <> Exn.Raise Exn.KeyError /\
    (forall rep,
       Exn.scrape date fetch countries = Exn.Ok rep ->
       Run.total_entries rep
       = list_sum (map d_type_total (Run.daily_count rep)) /\
       Run.total_entries rep
       = list_sum (map t_total (Run.totals_by_type rep)) /\
       Run.date_scraped rep = date /\
       (forall r, In r (Run.daily_count rep) ->
          d_date_recorded r = date /\
          exists c,
            In c (match countries with
                  | None => ["russia" : str; "ukraine" : str]
                  | Some l => l
                  end) /\ d_country r = lower c)).
Proof.
  intros date fetch countries. unfold Exn.scrape.
  set (cs := match countries with
             | None => ["russia" : str; "ukraine" : str]
             | Some l => l
             end).
  destruct (Exn.collect date fetch 0 cs []) as [all|e] eqn:Hc;
    cbn [Exn.bind].
  2:{ split; [|intros rep H; discriminate].
      intros H. injection H as ->.
      clear -Hc. revert Hc. generalize 0, (@nil EquipmentEntry).
      induction cs as [|c cs IH]; intros n all H; cbn [Exn.collect] in H;
        [discriminate|].
      destruct (fetch n) as [[els|]|];
        cbn [Exn.scrape_equipment_entries Exn.bind] in H; try discriminate.
      destruct (proj1 (exn_scan_blocks date c (lower c) els
                         (mkState [] None false))) as [E | E];
        rewrite E in H; cbn [Exn.bind] in H; [|discriminate].
      now apply IH in H. }
  destruct (exn_collect_tables date fetch cs 0 [] all eq_refl Hc) as [Ed Et].
  rewrite Ed, Et. cbn [Exn.or_key_error Exn.bind].
  apply exn_collect_ok in Hc. destruct Hc as (more & -> & Hmore).
  cbn [app].
  assert (Hv : all_status more = true).
  { apply forallb_forall. intros e He. now apply Hmore. }
  split; [discriminate|]. intros rep E. injection E as <-.
  cbn [Run.total_entries Run.daily_count Run.totals_by_type
       Run.date_scraped].
  split; [|split; [|split; [reflexivity|]]].
  - rewrite map_map.
    rewrite (map_ext _ (key_count key3_eqb (Client.daily_key date) more))
      by (intros k; now apply daily_of_total).
    symmetry. apply (key_count_total _ key3_eqb_eq).
  - rewrite map_map.
    rewrite (map_ext _ (key_count key2_eqb Client.totals_key more))
      by (intros k; now apply totals_of_total).
    symmetry. apply (key_count_total _ key2_eqb_eq).
  - intros r Hr. apply in_map_iff in Hr. destruct Hr as (k & <- & Hk).
    apply (keys_of_In _ key3_eqb_eq) in Hk. apply in_map_iff in Hk.
    destruct Hk as (e & <- & He).
    destruct (Hmore e He) as ((c & Hc & Ec) & _ & Hd).
    unfold daily_of, Client.daily_key.
    cbn [d_date_recorded d_country fst snd]. rewrite Hd, str_or_same.
    split; [reflexivity|]. now exists c.
Qed.

Lemma scrape_report_consistent_witness :
  let fetch := fun _ : nat =>
    Run.Page (Some [mkBlock "Russia - total losses" "";
                    mkBlock "Tanks (5)" ""; mkBlock "2 T-72:" ""]) in
  Run.total_entries
    (Run.mkReport Run.BASE_URL "2024-05-01" 2
       [mkDaily "russia" "T-72" 2 0 0 0 2 "2024-05-01"]
       [mkTotals "russia" "T-72" 2 0 0 0 2])
  = list_sum (map d_type_total
                [mkDaily "russia" "T-72" 2 0 0 0 2 "2024-05-01"]).
Proof.
  intros fetch.
  refine (proj1 (proj2 (scrape_report_consistent "2024-05-01" fetch
                          (Some ["russia" : str])) _ _)).
  vm_compute. reflexivity.
Defined.

(** The aggregation of collected entries does not fail. *)
Lemma exn_scrape_collect date fetch cs :
  Exn.scrape date fetch (Some cs)
  = match Exn.collect date fetch 0 cs [] with
    | Exn.Ok all =>
        Exn.Ok (Run.mkReport Run.BASE_URL date (length all)
                  (map (daily_of date all)
                     (keys_of key3_eqb (Client.daily_key date) all))
                  (map (totals_of all)
                     (keys_of key2_eqb Client.totals_key all)))
    | Exn.Raise e => Exn.Raise e
    end.
Proof.
  unfold Exn.scrape.
  destruct (Exn.collect date fetch 0 cs []) as [all|e] eqn:Hc;
    cbn [Exn.bind]; [|reflexivity].
  destruct (exn_collect_tables date fetch cs 0 [] all eq_refl Hc) as [Ed Et].
  rewrite Ed, Et. reflexivity.
Qed.

(** X11. On pages whose characters are below U+0100, [scrape] is all or
    nothing.  It returns a report exactly when [scrape_equipment_entries]
    returns for every country in turn; otherwise it raises what the first
    country that fails raises, and returns nothing for the countries
    before.  [scrape_equipment_entries] raises
    [OryxScraperNetworkError] when its request fails,
    [OryxScraperParseError] when the page has no content area, and
    otherwise returns the entries of the scan or raises the [ValueError] of
    a number [int] refuses; it returns whenever no block of the page has
    more characters, in its text and in its markup, than [int] takes
    digits. *)
Theorem scrape_all_or_nothing :
  forall date fetch cs,
    ((exists rep, Exn.scrape date fetch (Some cs) = Exn.Ok rep) <->
     (forall i, i < length cs ->
        exists l,
          Exn.scrape_equipment_entries date (fetch i) (nth i cs [])
          = Exn.Ok l)) /\
    (forall i e,
       i < length cs ->
       (forall j, j < i ->
          exists l,
            Exn.scrape_equipment_entries date (fetch j) (nth j cs [])
            = Exn.Ok l) ->
       Exn.scrape_equipment_entries date (fetch i) (nth i cs [])
       = Exn.Raise e ->
       Exn.scrape date fetch (Some cs) = Exn.Raise e) /\
    (forall c,
       Exn.scrape_equipment_entries date Run.Failed c
       = Exn.Raise Exn.OryxScraperNetworkError /\
       Exn.scrape_equipment_entries date (Run.Page None) c
       = Exn.Raise Exn.OryxScraperParseError /\
       forall els,
         (Exn.scrape_equipment_entries date (Run.Page (Some els)) c
          = Exn.Ok (Client.scrape_equipment_entries date els c)
          \/ Exn.scrape_equipment_entries date (Run.Page (Some els)) c
             = Exn.Raise Exn.ValueError) /\
         ((forall b, In b els ->
             length (text b) <= int_max_str_digits /\
             length (html_str b) <= int_max_str_digits) ->
          Exn.scrape_equipment_entries date (Run.Page (Some els)) c
          = Exn.Ok (Client.scrape_equipment_entries date els c))).
Proof.
  intros date fetch cs.
  assert (Hgood : forall cs n all,
            (exists res, Exn.collect date fetch n cs all = Exn.Ok res) <->
            (forall i, i < length cs ->
               exists l,
                 Exn.scrape_equipment_entries date (fetch (n + i))
                   (nth i cs []) = Exn.Ok l)).
  { clear cs. induction cs as [|c cs IH]; intros n all;
      cbn [Exn.collect length].
    - split; [intros _ i Hi; lia | intros _; now eexists].
    - split.
      + intros [res H] i Hi.
        destruct (Exn.scrape_equipment_entries date (fetch n) c)
          as [l|e] eqn:El; cbn [Exn.bind] in H; [|discriminate].
        destruct i as [|i]; [rewrite Nat.add_0_r; now exists l|].
        replace (n + S i) with (S n + i) by lia. cbn [nth].
        apply (proj1 (IH (S n) (all ++ l))); [now exists res | lia].
      + intros H. destruct (H 0 ltac:(lia)) as [l El].
        rewrite Nat.add_0_r in El. cbn [nth] in El. rewrite El.
        cbn [Exn.bind].
        apply IH. intros i Hi. replace (S n + i) with (n + S i) by lia.
        apply (H (S i)). lia. }
  assert (Hbad : forall cs n all i e,
            i < length cs ->
            (forall j, j < i ->
               exists l,
                 Exn.scrape_equipment_entries date (fetch (n + j))
                   (nth j cs []) = Exn.Ok l) ->
            Exn.scrape_equipment_entries date (fetch (n + i)) (nth i cs [])
            = Exn.Raise e ->
            Exn.collect date fetch n cs all = Exn.Raise e).
  { clear cs Hgood. induction cs as [|c cs IH]; intros n all i e Hi Hj He;
      cbn [length] in Hi; [lia|]. cbn [Exn.collect].
    destruct i as [|i].
    - rewrite Nat.add_0_r in He. cbn [nth] in He. rewrite He. reflexivity.
    - destruct (Hj 0 ltac:(lia)) as [l El].
      rewrite Nat.add_0_r in El. cbn [nth] in El. rewrite El.
      cbn [Exn.bind].
      apply (IH (S n) _ i e); [lia | |].
      + intros j Hlt. replace (S n + j) with (n + S j) by lia.
        apply (Hj (S j)). lia.
      + replace (S n + i) with (n + S i) by lia. exact He. }
  split; [|split].
  - rewrite <- (Hgood cs 0 []). rewrite exn_scrape_collect. split.
    + intros [rep H].
      destruct (Exn.collect date fetch 0 cs []) as [all|e];
        [now exists all | discriminate].
    + intros [all H]. rewrite H. now eexists.
  - intros i e Hi Hj He. rewrite exn_scrape_collect.
    rewrite (Hbad cs 0 [] i e Hi Hj He). reflexivity.
  - intros c. split; [reflexivity | split; [reflexivity|]].
    intros els. cbn [Exn.scrape_equipment_entries].
    unfold Client.scrape_equipment_entries.
    destruct (exn_scan_blocks date c (lower c) els (mkState [] None false))
      as [H1 H2].
    split.
    + destruct H1 as [E | E]; rewrite E; [now left | now right].
    + intros Hb. rewrite H2; [reflexivity|].
      intros b Hin. destruct (Hb b Hin) as [Ht Hh].
      apply converts_short; [exact Ht|]. intros h E. now injection E as <-.
Qed.

Lemma scrape_all_or_nothing_witness :
  Exn.scrape "2024-05-01"
    (fun n => match n with
              | 0 => Run.Page (Some [])
              | _ => Run.Failed
              end) (Some ["russia" : str; "ukraine" : str])
  = Exn.Raise Exn.OryxScraperNetworkError.
Proof.
  refine (proj1 (proj2 (scrape_all_or_nothing "2024-05-01" _
                          ["russia" : str; "ukraine" : str]))
            1 Exn.OryxScraperNetworkError _ _ _).
  - simpl. lia.
  - intros j Hj. assert (j = 0) as -> by lia. now eexists.
  - reflexivity.
Defined.

(** * The script and the client *)

Lemma scraper_parse_equipment_line date line ctry cat html_line :
  Scraper.parse_equipment_line date line ctry cat html_line
  = Client.parse_equipment_line date line ctry cat html_line.
Proof.
  unfold Scraper.parse_equipment_line, Client.parse_equipment_line.
  change Scraper.item_pattern with Client.item_pattern.
  destruct (re_match Client.item_pattern (strip line)) as [m|]; reflexivity.
Qed.

Lemma scraper_generate_daily_count_csv date es :
  Scraper.generate_daily_count_csv date es
  = Client.generate_daily_count_csv date es.
Proof.
  unfold Scraper.generate_daily_count_csv, Client.generate_daily_count_csv.
  match goal with
  | |- match ?f es [] with _ => _ end = _ =>
      assert (Hg : forall l g, f l g = Client.group_daily date l g)
  end.
  { induction l as [|e l IH]; intros g; simpl; [reflexivity|].
    fold (Client.daily_key date e).
    destruct (bump key3_eqb (Client.daily_key date e) (status e) g);
      [apply IH | reflexivity]. }
  rewrite Hg.
  destruct (Client.group_daily date es []) as [grouped|]; [|reflexivity].
  induction grouped as [|item grouped IH]; [reflexivity|].
  cbn [Client.rows_of]. rewrite <- IH.
  destruct item as [[[c t] d] cs]. reflexivity.
Qed.

Lemma script_generate_totals_by_type_csv es :
  Script.generate_totals_by_type_csv es
  = Client.generate_totals_by_type_csv es.
Proof.
  unfold Script.generate_totals_by_type_csv,
    Client.generate_totals_by_type_csv.
  match goal with
  | |- match ?f es [] with _ => _ end = _ =>
      assert (Hg : forall l g, f l g = Client.group_totals l g)
  end.
  { induction l as [|e l IH]; intros g; simpl; [reflexivity|].
    fold (Client.totals_key e).
    destruct (bump key2_eqb (Client.totals_key e) (status e) g);
      [apply IH | reflexivity]. }
  rewrite Hg.
  destruct (Client.group_totals es []) as [grouped|]; [|reflexivity].
  induction grouped as [|item grouped IH]; [reflexivity|].
  cbn [Client.rows_of]. rewrite <- IH.
  destruct item as [[c t] cs]. reflexivity.
Qed.

Lemma script_scan date ctry cl els : forall st,
  Script.scan date ctry cl els (entries st) (current_category st)
    (in_country_section st)
  = entries (fst (Client.scan_blocks date ctry cl st els)).
Proof.
  induction els as [|b els IH]; intros st; [reflexivity|].
  cbn [Script.scan Client.scan_blocks]. unfold Client.scan_block.
  change Script.category_pattern with Client.category_pattern.
  change Scraper.item_pattern with Client.item_pattern.
  fold (Client.is_section_header cl (text b)).
  destruct (negb (truthy (text b))); [apply IH|].
  destruct (Client.is_section_header cl (text b));
    [apply (IH (mkState (entries st) (current_category st) true))|].
  destruct st as [es cat ins]. cbn [entries current_category
                                     in_country_section].
  destruct ins; cbn [andb].
  - destruct (contains "ukraine" (lower (text b)) && str_eqb cl "russia");
      [reflexivity|].
    destruct (contains "russia" (lower (text b)) && str_eqb cl "ukraine");
      [reflexivity|].
    destruct (re_search Client.category_pattern (text b)) as [m|];
      [apply (IH (mkState es (Some (strip (group 1 m))) true))|].
    destruct cat as [cat|]; cbn [opt_truthy].
    + destruct (truthy cat).
      * destruct (re_match Client.item_pattern (text b)) as [m|].
        -- rewrite scraper_parse_equipment_line.
           apply (IH (mkState _ (Some cat) true)).
        -- apply (IH (mkState es (Some cat) true)).
      * apply (IH (mkState es (Some cat) true)).
    + apply (IH (mkState es None true)).
  - destruct (re_search Client.category_pattern (text b)) as [m|];
      [apply (IH (mkState es (Some (strip (group 1 m))) false))|].
    destruct cat as [cat|];
      [apply (IH (mkState es (Some cat) false))
      |apply (IH (mkState es None false))].
Qed.

(** X12. The script [scraper.py] and the package's client give the same
    answer on the same pages: the same entries for a country, the same
    totals-by-type rows, and from [scrape] the same report; where the
    client raises [OryxScraperNetworkError] the script raises [Exception],
    and where the client raises [OryxScraperParseError] the script raises
    [ValueError]. *)
Theorem script_agrees_with_client :
  forall date,
    (forall els ctry,
       Script.scrape_equipment_entries date (Run.Page (Some els)) ctry
       = Script.Ok (Client.scrape_equipment_entries date els ctry)) /\
    (forall es,
       Script.generate_totals_by_type_csv es
       = Client.generate_totals_by_type_csv es) /\
    (forall fetch countries,
       Script.scrape date fetch countries
       = match Run.scrape date fetch countries with
         | Run.Ok rep => Script.Ok rep
         | Run.Raise Run.OryxScraperNetworkError =>
             Script.Raise Script.Exception
         | Run.Raise Run.OryxScraperParseError =>
             Script.Raise Script.ValueError
         | Run.Raise Run.KeyError => Script.Raise Script.KeyError
         end).
Proof.
  intros date.
  assert (Hscan : forall els ctry,
            Script.scan date ctry (lower ctry) els [] None false
            = Client.scrape_equipment_entries date els ctry).
  { intros els ctry.
    apply (script_scan date ctry (lower ctry) els (mkState [] None false)). }
  split; [|split].
  - intros els ctry. cbn [Script.scrape_equipment_entries].
    now rewrite Hscan.
  - apply script_generate_totals_by_type_csv.
  - intros fetch countries. unfold Script.scrape, Run.scrape.
    set (cs := match countries with
               | None => ["russia" : str; "ukraine" : str]
               | Some l => l
               end).
    assert (Hc : forall cs n all,
              Script.collect date fetch n cs all
              = match Run.collect date fetch n cs all with
                | Run.Ok l => Script.Ok l
                | Run.Raise Run.OryxScraperNetworkError =>
                    Script.Raise Script.Exception
                | Run.Raise Run.OryxScraperParseError =>
                    Script.Raise Script.ValueError
                | Run.Raise Run.KeyError => Script.Raise Script.KeyError
                end).
    { clear cs. induction cs as [|c cs IH]; intros n all; [reflexivity|].
      cbn [Script.collect Run.collect].
      destruct (fetch n) as [[els|]|]; try reflexivity.
      cbn [Script.scrape_equipment_entries Run.scrape_equipment_entries].
      rewrite Hscan. apply IH. }
    rewrite Hc.
    destruct (Run.collect date fetch 0 cs []) as [all|[]]; try reflexivity.
    rewrite scraper_generate_daily_count_csv,
      script_generate_totals_by_type_csv.
    destruct (Client.generate_daily_count_csv date all); [|reflexivity].
    destruct (Client.generate_totals_by_type_csv all); reflexivity.
Qed.

(** * The dictionary of an entry *)

(** X13. The dictionary of an entry loses nothing: it has the three
    mandatory fields under their names, [url] and [date_recorded] exactly
    when they are not [None], no key twice, and two entries with the same
    dictionary are the same entry. *)
Theorem to_dict_lossless :
  forall e,
    Dict.get str_eqb "country" (to_dict e) = Some (country e) /\
    Dict.get str_eqb "equipment_type" (to_dict e)
    = Some (equipment_type e) /\
    Dict.get str_eqb "status" (to_dict e) = Some (status e) /\
    Dict.get str_eqb "url" (to_dict e) = url e /\
    Dict.get str_eqb "date_recorded" (to_dict e) = date_recorded e /\
    NoDup (map fst (to_dict e)) /\
    (forall e', to_dict e' = to_dict e -> e' = e).
Proof.
  assert (Hget : forall e,
            Dict.get str_eqb "country" (to_dict e) = Some (country e) /\
            Dict.get str_eqb "equipment_type" (to_dict e)
            = Some (equipment_type e) /\
            Dict.get str_eqb "status" (to_dict e) = Some (status e) /\
            Dict.get str_eqb "url" (to_dict e) = url e /\
            Dict.get str_eqb "date_recorded" (to_dict e)
            = date_recorded e).
  { intros [c t s [u|] [d|]]; vm_compute; repeat split. }
  intros e. destruct (Hget e) as (H1 & H2 & H3 & H4 & H5).
  repeat (split; [assumption|]). split.
  - destruct e as [c t s [u|] [d|]]; cbn;
      repeat (constructor; [cbn; intros H;
                repeat (destruct H as [H|H]; [discriminate H|]);
                exact H|]);
      constructor.
  - intros e' E. destruct (Hget e') as (H1' & H2' & H3' & H4' & H5').
    rewrite E in H1', H2', H3', H4', H5'.
    destruct e as [c t s u d], e' as [c' t' s' u' d'].
    cbn [country equipment_type status url date_recorded] in *.
    congruence.
Qed.

Lemma to_dict_lossless_witness :
  mkEntry "russia" "T-72" "destroyed" None (Some ("2024-05-01" : str))
  = mkEntry "russia" "T-72" "destroyed" None (Some ("2024-05-01" : str)).
Proof.
  refine (proj2 (proj2 (proj2 (proj2 (proj2 (proj2
            (to_dict_lossless
               (mkEntry "russia" "T-72" "destroyed" None
                  (Some ("2024-05-01" : str))))))))) _ _).
  reflexivity.
Defined.
